(** * DesktopImage: a shallow embedding of [index.js] and its specification

    The program is a command-line tool that enumerates the monitors of the
    machine, drives a platform capture tool once per capture target, and
    places the resulting image under a timestamped name.  Every function of
    [index.js] is embedded below under its own name:

    - pure helpers ([generateFilename], the parsing of the enumeration
      output, the comparator handed to [Array.prototype.sort]) are plain
      functions;
    - everything that touches the outside world ([detectPlatform],
      [getScreenInfo], [captureScreen], [convertImage], [main]) lives in a
      state-and-exception monad [M] over a [World] (file system, console,
      trace of external calls), the outcome of every external call being
      read from an environment [Env].

    The parts of the JavaScript runtime the program relies on (strings,
    numbers with [NaN], [Number], [parseInt], [padStart], ...) are modelled
    in module [JS]. *)

From Stdlib Require Import String Ascii List ZArith QArith Lia Lqa DecimalString.
From Stdlib Require Import Sorting.Sorted Sorting.Permutation.
From stdpp Require Import base gmap strings list.

Open Scope string_scope.

(* ================================================================= *)
(** ** The JavaScript runtime used by the program *)

Module JS.

(** *** Strings *)

(** The double-quote character that delimits paths in command lines. *)
Definition dq : string := String "034"%char EmptyString.
(** The backslash. *)
Definition bs : ascii := "092"%char.
(** The line feed, ['\n']. *)
Definition lf : ascii := "010"%char.

(** White space as [String.prototype.trim] sees it, restricted to the
    ASCII range: TAB, LF, VT, FF, CR and SPACE. *)
Definition is_space (c : ascii) : bool :=
  let n := nat_of_ascii c in
  ((9 <=? n)%nat && (n <=? 13)%nat) || (n =? 32)%nat.

Fixpoint trimStart (s : string) : string :=
  match s with
  | String c s' => if is_space c then trimStart s' else s
  | EmptyString => EmptyString
  end.

Definition rev_string (s : string) : string :=
  string_of_list_ascii (rev (list_ascii_of_string s)).

Definition trimEnd (s : string) : string :=
  rev_string (trimStart (rev_string s)).

(** [s.trim()] *)
Definition trim (s : string) : string := trimEnd (trimStart s).

(** [drop n s]: [s.slice(n)] *)
Fixpoint drop (n : nat) (s : string) : string :=
  match n, s with
  | S n', String _ s' => drop n' s'
  | _, _ => s
  end.

(** [s.split(sep)] for a non-empty separator.  The scan walks over [s]
    once; [skip] counts the characters of a separator occurrence that are
    still to be passed over, [cur] is the current piece, reversed. *)
Fixpoint split_go (sep : string) (skip : nat) (cur : list ascii) (s : string)
  : list string :=
  match s with
  | EmptyString => [string_of_list_ascii (rev cur)]
  | String c s' =>
      match skip with
      | S k => split_go sep k cur s'
      | O =>
          if String.prefix sep s
          then string_of_list_ascii (rev cur)
                 :: split_go sep (String.length sep - 1) [] s'
          else split_go sep 0 (c :: cur) s'
      end
  end.

Definition split (sep s : string) : list string := split_go sep 0 [] s.

(** [s.replace(pat, rep)] with a string pattern: the first occurrence only. *)
Fixpoint replace (pat rep s : string) : string :=
  match s with
  | EmptyString => if String.prefix pat s then rep else EmptyString
  | String c s' =>
      if String.prefix pat s
      then rep ++ drop (String.length pat) s
      else String c (replace pat rep s')
  end.

(** [s.replace(/c/g, rep)] for a one-character pattern: every occurrence. *)
Fixpoint replace_all (c : ascii) (rep s : string) : string :=
  match s with
  | EmptyString => EmptyString
  | String d s' =>
      if Ascii.eqb c d then rep ++ replace_all c rep s'
      else String d (replace_all c rep s')
  end.

(** [s.includes(sub)] *)
Fixpoint includes (sub s : string) : bool :=
  String.prefix sub s ||
  match s with
  | EmptyString => false
  | String _ s' => includes sub s'
  end.

(** [s.padStart(n, c)] for a one-character filler. *)
Definition padStart (n : nat) (c : ascii) (s : string) : string :=
  string_of_list_ascii (repeat c (n - String.length s)) ++ s.

(** *** Numbers

    A JavaScript number is a binary64 float.  The program only compares,
    subtracts, takes maxima and prints, so a number is modelled by its
    rational value, with the three special values.  [parseInt] rounds the
    integer it reads to binary64 ([round_binary64] below); the rounding of
    decimal fractions by [Number] is not modelled, and [-0] is identified
    with [0] (no operation used by the program tells them apart). *)
Inductive number : Type :=
| NaN
| NegInf
| Fin (q : Q)
| PosInf.

Definition of_nat (n : nat) : number := Fin (inject_Z (Z.of_nat n)).
Definition of_Z (z : Z) : number := Fin (inject_Z z).

Definition Qltb (p q : Q) : bool :=
  match Qcompare p q with Lt => true | _ => false end.

(** [a < b] *)
Definition lt (a b : number) : bool :=
  match a, b with
  | NaN, _ | _, NaN => false
  | _, NegInf => false
  | NegInf, _ => true
  | PosInf, _ => false
  | Fin _, PosInf => true
  | Fin p, Fin q => Qltb p q
  end.

(** [a > b] *)
Definition gt (a b : number) : bool := lt b a.

Definition is_nan (a : number) : bool :=
  match a with NaN => true | _ => false end.

(** [a <= b]: false as soon as one side is [NaN], else [!(b < a)]. *)
Definition le (a b : number) : bool :=
  negb (is_nan a) && negb (is_nan b) && negb (lt b a).

(** [a === b] on numbers. *)
Definition strict_eq (a b : number) : bool :=
  match a, b with
  | NegInf, NegInf | PosInf, PosInf => true
  | Fin p, Fin q => Qeq_bool p q
  | _, _ => false
  end.

(** [a - b] *)
Definition sub (a b : number) : number :=
  match a, b with
  | NaN, _ | _, NaN => NaN
  | PosInf, PosInf | NegInf, NegInf => NaN
  | PosInf, _ | _, NegInf => PosInf
  | NegInf, _ | _, PosInf => NegInf
  | Fin p, Fin q => Fin (p - q)
  end.

(** [Number.isInteger] on a finite value. *)
Definition isInteger (q : Q) : bool :=
  (Qnum q mod Zpos (Qden q) =? 0)%Z.

(** [Math.max(a, b)] *)
Definition Math_max (a b : number) : number :=
  if is_nan a || is_nan b then NaN
  else if lt a b then b else a.

(** *** Printing *)

Definition string_of_Z (z : Z) : string :=
  NilZero.string_of_int (Z.to_int z).

Definition string_of_nat (n : nat) : string := string_of_Z (Z.of_nat n).

Definition digit_char (d : Z) : ascii := ascii_of_nat (48 + Z.to_nat d).

(** The digits after the decimal point of [r / d], for [0 <= r < d]. *)
Fixpoint frac_digits (fuel : nat) (r d : Z) : string :=
  match fuel with
  | O => EmptyString
  | S fuel' =>
      if (r =? 0)%Z then EmptyString
      else String (digit_char (r * 10 / d))
                  (frac_digits fuel' (r * 10 mod d) d)
  end.

(** [String(a)], also what a template literal does with a number.  It is
    the runtime's text for the integers below [1e21] and for the decimal
    fractions of at most 17 digits that are at least [1e-6] in magnitude,
    where JavaScript prints plain positional notation. *)
Definition toString (a : number) : string :=
  match a with
  | NaN => "NaN"
  | PosInf => "Infinity"
  | NegInf => "-Infinity"
  | Fin q =>
      let n := Qnum q in
      let d := Zpos (Qden q) in
      let ip := (Z.abs n / d)%Z in
      let r := (Z.abs n mod d)%Z in
      let sign := if (n <? 0)%Z then "-" else "" in
      if (r =? 0)%Z then (if (ip =? 0)%Z then "0" else sign ++ string_of_Z ip)
      else sign ++ string_of_Z ip ++ "." ++ frac_digits 17 r d
  end.

(** *** Reading numbers *)

(** The value of a digit in a radix up to 16. *)
Definition digit_of (c : ascii) : option Z :=
  let n := Z.of_nat (nat_of_ascii c) in
  if ((48 <=? n) && (n <=? 57))%Z then Some (n - 48)%Z
  else if ((97 <=? n) && (n <=? 102))%Z then Some (n - 87)%Z
  else if ((65 <=? n) && (n <=? 70))%Z then Some (n - 55)%Z
  else None.

(** The longest prefix of [s] made of digits of [radix]: how many there
    are, the value of [acc] followed by them, and what is left of [s]. *)
Fixpoint digits_prefix (radix : Z) (s : string) (len : nat) (acc : Z)
  : nat * Z * string :=
  match s with
  | String c s' =>
      match digit_of c with
      | Some v =>
          if (v <? radix)%Z
          then digits_prefix radix s' (S len) (acc * radix + v)%Z
          else (len, acc, s)
      | None => (len, acc, s)
      end
  | EmptyString => (len, acc, s)
  end.

(** An optional sign. *)
Definition take_sign (s : string) : Z * string :=
  match s with
  | String "-" s' => ((-1)%Z, s')
  | String "+" s' => (1%Z, s')
  | _ => (1%Z, s)
  end.

(** [m * 10^e] *)
Definition scale10 (m e : Z) : Q :=
  if (0 <=? e)%Z then inject_Z (m * 10 ^ e)
  else Qmake m (Z.to_pos (10 ^ (- e))).

(** An unsigned decimal literal: digits, an optional fraction, an optional
    exponent, and nothing else. *)
Definition parse_decimal (s : string) : option Q :=
  let '(n1, v1, r1) := digits_prefix 10 s 0 0 in
  let '(n2, v2, r2) :=
    match r1 with
    | String "." r => digits_prefix 10 r 0 v1
    | _ => (O, v1, r1)
    end in
  if (n1 + n2 =? 0)%nat then None
  else
    match r2 with
    | EmptyString => Some (scale10 v2 (- Z.of_nat n2))
    | String e r3 =>
        if Ascii.eqb e "e" || Ascii.eqb e "E" then
          let '(sg, r4) := take_sign r3 in
          let '(n3, v3, r5) := digits_prefix 10 r4 0 0 in
          if (n3 =? 0)%nat then None
          else match r5 with
               | EmptyString => Some (scale10 v2 (sg * v3 - Z.of_nat n2))
               | _ => None
               end
        else None
    end.

(** A literal made of a radix prefix and digits of that radix only. *)
Definition parse_radix (radix : Z) (s : string) : number :=
  match digits_prefix radix s 0 0 with
  | (S _, v, EmptyString) => of_Z v
  | _ => NaN
  end.

(** [Number(s)] on a string: white space is trimmed, the empty string is
    [0], then a hexadecimal, octal or binary literal, a signed [Infinity]
    or a signed decimal literal; anything else is [NaN]. *)
Definition Number (s : string) : number :=
  let t := trim s in
  match t with
  | EmptyString => Fin 0
  | String "0" (String c r) =>
      if Ascii.eqb c "x" || Ascii.eqb c "X" then parse_radix 16 r
      else if Ascii.eqb c "o" || Ascii.eqb c "O" then parse_radix 8 r
      else if Ascii.eqb c "b" || Ascii.eqb c "B" then parse_radix 2 r
      else match parse_decimal t with Some q => Fin q | None => NaN end
  | _ =>
      let '(sg, body) := take_sign t in
      if String.eqb body "Infinity"
      then (if (sg <? 0)%Z then NegInf else PosInf)
      else match parse_decimal body with
           | Some q => Fin (inject_Z sg * q)
           | None => NaN
           end
  end.

(** The binary64 value of the integer [z]: [z] itself up to 53 significant
    bits, else the nearest multiple of the last kept bit, ties going to
    the even one; a magnitude that reaches [2^1024] after rounding is
    infinite. *)
Definition round_binary64 (z : Z) : number :=
  let a := Z.abs z in
  let e := (Z.log2 a - 52)%Z in
  let m :=
    if (e <=? 0)%Z then a
    else
      let q := Z.shiftr a e in
      let r := (a - Z.shiftl q e)%Z in
      let half := Z.shiftl 1 (e - 1) in
      let q' :=
        if (half <? r)%Z || ((r =? half)%Z && Z.odd q) then (q + 1)%Z else q in
      Z.shiftl q' e in
  if (2 ^ 1024 <=? m)%Z then (if (z <? 0)%Z then NegInf else PosInf)
  else of_Z (Z.sgn z * m).

(** [parseInt(s)]: leading white space, a sign, an optional [0x], then the
    longest run of digits, whose value is rounded to binary64; [NaN] when
    there is no digit. *)
Definition parseInt (s : string) : number :=
  let '(sg, body) := take_sign (trimStart s) in
  let '(radix, body) :=
    match body with
    | String "0" (String c r) =>
        if Ascii.eqb c "x" || Ascii.eqb c "X" then (16%Z, r) else (10%Z, body)
    | _ => (10%Z, body)
    end in
  match digits_prefix radix body 0 0 with
  | (S _, v, _) => round_binary64 (sg * v)
  | _ => NaN
  end.

(** *** Regular expressions

    The one regular expression of the program is built from literals and
    from character classes under [+] (greedy) and [*?] (lazy).  Each piece
    is a backtracking matcher that hands the rest of the subject to its
    continuation, as the runtime's matcher does. *)
Section Regex.
Context {R : Type}.

(** A literal piece. *)
Definition re_lit (p : string) (k : string -> option R) (s : string)
  : option R :=
  if String.prefix p s then k (drop (String.length p) s) else None.

(** [cls*], greedy, the text matched so far being [acc] (reversed): take
    one more character when possible, and fall back on stopping here. *)
Fixpoint re_star_greedy (cls : ascii -> bool)
    (k : string -> string -> option R) (acc : list ascii) (s : string)
  : option R :=
  match s with
  | String c s' =>
      if cls c then
        match re_star_greedy cls k (c :: acc) s' with
        | Some r => Some r
        | None => k (string_of_list_ascii (rev acc)) s
        end
      else k (string_of_list_ascii (rev acc)) s
  | EmptyString => k (string_of_list_ascii (rev acc)) s
  end.

(** A capturing group [(cls+)]. *)
Definition re_plus_group (cls : ascii -> bool)
    (k : string -> string -> option R) (s : string) : option R :=
  match s with
  | String c s' => if cls c then re_star_greedy cls k [c] s' else None
  | EmptyString => None
  end.

(** [cls*?], lazy: stop here when the continuation matches, else take
    one more character. *)
Fixpoint re_star_lazy (cls : ascii -> bool) (k : string -> option R)
    (s : string) : option R :=
  match k s with
  | Some r => Some r
  | None =>
      match s with
      | String c s' => if cls c then re_star_lazy cls k s' else None
      | EmptyString => None
      end
  end.

(** An unanchored search: the leftmost start at which [m] matches. *)
Fixpoint re_search (m : string -> option R) (s : string) : option R :=
  match m s with
  | Some r => Some r
  | None =>
      match s with
      | String _ s' => re_search m s'
      | EmptyString => None
      end
  end.
End Regex.

(** [\S], [\d] and [.] on ASCII subjects. *)
Definition re_nonspace (c : ascii) : bool := negb (is_space c).
Definition re_digit (c : ascii) : bool :=
  let n := nat_of_ascii c in (48 <=? n)%nat && (n <=? 57)%nat.
Definition re_dot (c : ascii) : bool :=
  let n := nat_of_ascii c in negb ((n =? 10)%nat || (n =? 13)%nat).

(** *** Parsed JSON *)
#[warnings="-register-all"] Inductive json : Type :=
| JNull
| JBool (b : bool)
| JNum (n : number)
| JStr (s : string)
| JArr (l : list json)
| JObj (l : list (string * json)).

(** [v.key] for a key that no built-in prototype defines: [None] is
    [undefined], and reading a property of [null] throws. *)
Definition get_prop (key : string) (v : json) : option (option json) :=
  match v with
  | JNull => None
  | JObj l =>
      Some (snd <$> List.find (fun kv => String.eqb (fst kv) key) l)
  | _ => Some None
  end.

(** [v[i]] on a value that may be [undefined]. *)
Definition get_index (i : nat) (v : option json) : option (option json) :=
  match v with
  | None | Some JNull => None
  | Some (JArr l) => Some (nth_error l i)
  | Some (JStr s) =>
      Some (match String.get i s with
            | Some c => Some (JStr (String c EmptyString))
            | None => None
            end)
  | Some (JObj l) => get_prop (string_of_nat i) (JObj l)
  | Some _ => Some None
  end.

(** Truthiness, for [v || default]. *)
Definition truthy (v : option json) : bool :=
  match v with
  | None | Some JNull | Some (JBool false) | Some (JStr EmptyString) => false
  | Some (JNum n) => negb (is_nan n || strict_eq n (Fin 0))
  | Some _ => true
  end.

End JS.

Import JS.

(* ================================================================= *)
(** ** Monitors and the parsing of enumeration output *)

(** The object literal [{ index, x, y, width, height }] that
    [getScreenInfo] builds for every monitor. *)
Record Monitor : Type := mkMonitor {
  index : nat;
  x : number;
  y : number;
  width : number;
  height : number
}.

Definition set_index (i : nat) (m : Monitor) : Monitor :=
  mkMonitor i (x m) (y m) (width m) (height m).

(** *** Windows family: one [x,y,width,height] tuple per line *)

(** [stdout.trim().split('\n').filter(line => line.trim())] *)
Definition outputLines (stdout : string) : list string :=
  List.filter (fun line => negb (String.eqb (trim line) ""))
              (split (String lf "") (trim stdout)).

(** The body of the [map] callback:
    [const [x, y, width, height] = monitor.trim().split(',').map(Number)].
    A missing element is [undefined]; it is represented by [NaN], which is
    what [undefined] becomes in the comparisons made on it before the
    entry is dropped. *)
Definition parseMonitorLine (i : nat) (line : string) : Monitor :=
  let fields := map Number (split "," (trim line)) in
  {| index := i + 1;
     x := nth 0 fields NaN;
     y := nth 1 fields NaN;
     width := nth 2 fields NaN;
     height := nth 3 fields NaN |}.

(** [m => m.width > 0 && m.height > 0] *)
Definition positiveSize (m : Monitor) : bool :=
  gt (width m) (Fin 0) && gt (height m) (Fin 0).

(** The comparator handed to [sort]. *)
Definition compareMonitors (a b : Monitor) : number :=
  if negb (strict_eq (y a) (y b)) then sub (y a) (y b)
  else sub (x a) (x b).

(** [Array.prototype.sort] with a comparator.  The runtime's sort is
    stable, and on a consistent comparator every stable sort returns the
    same array, so the stable insertion sort stands for it; a comparator
    result that is not above zero (zero, negative or [NaN]) leaves the
    earlier element first. *)
Section Sort.
Context {A : Type} (cmp : A -> A -> number).

Fixpoint sort_insert (a : A) (l : list A) : list A :=
  match l with
  | [] => [a]
  | b :: l' =>
      if gt (cmp a b) (Fin 0) then b :: sort_insert a l' else a :: l
  end.

Definition Array_sort (l : list A) : list A := foldr sort_insert [] l.
End Sort.

(** [monitorList.forEach((m, i) => m.index = i + 1)] *)
Definition reindex (l : list Monitor) : list Monitor :=
  imap (fun i m => set_index (i + 1) m) l.

(** Lines 163 to 179: from the script's output to the returned list. *)
Definition parseWindowsMonitors (stdout : string) : list Monitor :=
  let monitors := outputLines stdout in
  let monitorList := List.filter positiveSize (imap parseMonitorLine monitors) in
  reindex (Array_sort compareMonitors monitorList).

(** *** macOS: the display profiler's JSON *)

(** [parseInt(display._spdisplays_resolution?.split(' x ')[i] || dflt)];
    [None] stands for a thrown [TypeError]. *)
Definition resolutionPart (i : nat) (dflt : number) (display : json)
  : option number :=
  match get_prop "_spdisplays_resolution" display with
  | None => None
  | Some None | Some (Some JNull) => Some dflt
  | Some (Some (JStr s)) =>
      match nth_error (split " x " s) i with
      | Some (String c r) => Some (parseInt (String c r))
      | _ => Some dflt
      end
  | Some (Some _) => None
  end.

(** The [map] callback of the macOS branch. *)
Definition parseDarwinDisplay (i : nat) (display : json) : option Monitor :=
  match resolutionPart 0 (of_nat 1920) display,
        resolutionPart 1 (of_nat 1080) display with
  | Some w, Some h =>
      Some {| index := i + 1; x := Fin 0; y := Fin 0; width := w; height := h |}
  | _, _ => None
  end.

(** [data.SPDisplaysDataType[0].spdisplays_ndrvs || []] followed by the
    [map]; [None] when one of the steps throws. *)
Definition parseDarwinMonitors (data : json) : option (list Monitor) :=
  match get_prop "SPDisplaysDataType" data with
  | None => None
  | Some v =>
      match get_index 0 v with
      | None | Some None => None
      | Some (Some first) =>
          match get_prop "spdisplays_ndrvs" first with
          | None => None
          | Some displays =>
              if truthy displays then
                match displays with
                | Some (JArr l) => mapM id (imap parseDarwinDisplay l)
                | _ => None
                end
              else Some []
          end
      end
  end.

(** *** Native Linux: the lines of [xrandr --query] *)

(** [line.match(/(\S+) connected.*?(\d+)x(\d+)\+(\d+)\+(\d+)/)]: the
    groups 2 to 5 of the leftmost match. *)
Definition matchConnected (line : string)
  : option (string * string * string * string) :=
  re_search
    (re_plus_group re_nonspace (fun _ =>
     re_lit " connected" (
     re_star_lazy re_dot (
     re_plus_group re_digit (fun g2 =>
     re_lit "x" (
     re_plus_group re_digit (fun g3 =>
     re_lit "+" (
     re_plus_group re_digit (fun g4 =>
     re_lit "+" (
     re_plus_group re_digit (fun g5 _ =>
     Some (g2, g3, g4, g5))))))))))))
    line.

(** The [for] loop over the lines, [monitors] being the array built so
    far. *)
Fixpoint parseXrandrLines (lines : list string) (monitors : list Monitor)
  : list Monitor :=
  match lines with
  | [] => monitors
  | line :: rest =>
      match matchConnected line with
      | Some (g2, g3, g4, g5) =>
          parseXrandrLines rest
            (monitors ++
             [{| index := length monitors + 1;
                 x := parseInt g4;
                 y := parseInt g5;
                 width := parseInt g2;
                 height := parseInt g3 |}])
      | None => parseXrandrLines rest monitors
      end
  end.

Definition parseLinuxMonitors (stdout : string) : list Monitor :=
  parseXrandrLines (split (String lf "") stdout) [].

(* ================================================================= *)
(** ** The outside world *)

(** The text of a generated PowerShell script, by its template: the
    constructor arguments are the holes [${...}] of the template literal,
    in order. *)
Inductive Script : Type :=
| GetMonitorsScript
| CaptureRectScript (sx sy swidth sheight : number) (out : string)
| CaptureVirtualScript (out : string).

(** One call to the file system, to a child process or to the image
    codec.  A call is recorded whether it succeeds or not. *)
Inductive Event : Type :=
| EvAccess (path : string)
| EvMkdir (path : string)
| EvWriteFile (path : string) (content : Script)
| EvUnlink (path : string)
| EvCopyFile (src dst : string)
| EvExec (cmd : string)
| EvJimpRead (path : string)
| EvJimpWrite (path : string) (quality : option number).

(** What [exec] reports for a command, and the files the command left
    behind. *)
Record ExecOutcome : Type := {
  exec_error : option string;
  exec_stdout : string;
  exec_stderr : string;
  exec_creates : list string
}.

(** The getters of [new Date()] that [getTimestamp] reads. *)
Record DateParts : Type := {
  getFullYear : nat;
  getMonth : nat;
  getDate : nat;
  getHours : nat;
  getMinutes : nat;
  getSeconds : nat
}.

(** Everything the program reads from its surroundings.  The functions of
    a [nat] are asked at the current [tick] of the world, so the same call
    may fare differently at different moments of a run. *)
Record Env : Type := {
  os_platform : string;
  os_homedir : string;
  os_tmpdir : string;
  process_cwd : string;
  Date_now : nat -> Z;
  new_Date : nat -> DateParts;
  (** an I/O error striking the given call (permissions, a full disk, an
      image that does not decode), with its message *)
  io_error : nat -> Event -> option string;
  exec_outcome : nat -> string -> ExecOutcome;
  JSON_parse : string -> option json
}.

Inductive Line : Type :=
| Out (text : string)   (* console.log *)
| Err (text : string).  (* console.error *)

Record World : Type := {
  files : gset string;    (* the paths that exist *)
  console : list Line;
  trace : list Event;
  tick : nat
}.

(** How a computation ends: with a value, with a thrown error, or with
    [process.exit], which no handler intercepts. *)
Inductive Result (A : Type) : Type :=
| Ok (a : A)
| Throw (message : string)
| Exit (code : Z).
Arguments Ok {A} a.
Arguments Throw {A} message.
Arguments Exit {A} code.

Definition M (A : Type) : Type := World -> Result A * World.

Definition ret {A} (a : A) : M A := fun w => (Ok a, w).

Definition bind {A B} (m : M A) (k : A -> M B) : M B :=
  fun w =>
    match m w with
    | (Ok a, w') => k a w'
    | (Throw e, w') => (Throw e, w')
    | (Exit c, w') => (Exit c, w')
    end.

Declare Scope prog_scope.
Delimit Scope prog_scope with prog.
Notation "x <- m ;; k" := (bind m (fun x => k))
  (at level 20, m at level 99, k at level 200, only parsing) : prog_scope.
Notation "' pat <- m ;; k" := (bind m (fun x => match x with pat => k end))
  (at level 20, pat pattern, m at level 99, k at level 200, only parsing)
  : prog_scope.
Notation "m ;; k" := (bind m (fun _ => k))
  (at level 100, k at level 200, only parsing, right associativity)
  : prog_scope.
Open Scope prog_scope.

(** [throw new Error(message)] *)
Definition throw {A} (message : string) : M A := fun w => (Throw message, w).

(** [process.exit(code)] *)
Definition process_exit {A} (code : Z) : M A := fun w => (Exit code, w).

(** [try { m } catch (error) { handler(error.message) }] *)
Definition try_catch {A} (m : M A) (handler : string -> M A) : M A :=
  fun w =>
    match m w with
    | (Throw e, w') => handler e w'
    | other => other
    end.

(** [m.catch(() => {})] *)
Definition swallow (m : M unit) : M unit := try_catch m (fun _ => ret tt).

(** The final exit code of the process; the last line of the program
    turns a rejection of [main] into code 1. *)
Definition exit_code {A} (r : Result A) : Z :=
  match r with
  | Ok _ => 0%Z
  | Throw _ => 1%Z
  | Exit c => c
  end.

Definition console_log (text : string) : M unit :=
  fun w => (Ok tt, {| files := files w; console := console w ++ [Out text];
                      trace := trace w; tick := tick w |}).

Definition console_error (text : string) : M unit :=
  fun w => (Ok tt, {| files := files w; console := console w ++ [Err text];
                      trace := trace w; tick := tick w |}).

Definition enoent (syscall path : string) : string :=
  "ENOENT: no such file or directory, " ++ syscall ++ " '" ++ path ++ "'".

Section Primitives.
Context (E : Env).

(** Reading the clock takes time. *)
Definition read_clock {A} (f : nat -> A) : M A :=
  fun w => (Ok (f (tick w)),
            {| files := files w; console := console w;
               trace := trace w; tick := S (tick w) |}).

(** An external call [ev]: it is recorded, it may be struck by an I/O
    error, and otherwise [run] gives its result and the new set of
    existing paths. *)
Definition io {A} (ev : Event)
    (run : gset string -> Result A * gset string) : M A :=
  fun w =>
    let '(r, fs) :=
      match io_error E (tick w) ev with
      | Some msg => (Throw msg, files w)
      | None => run (files w)
      end in
    (r, {| files := fs; console := console w;
           trace := trace w ++ [ev]; tick := S (tick w) |}).

Definition fs_access (path : string) : M unit :=
  io (EvAccess path) (fun fs =>
    if bool_decide (path ∈ fs) then (Ok tt, fs)
    else (Throw (enoent "access" path), fs)).

Definition fs_mkdir (path : string) : M unit :=
  io (EvMkdir path) (fun fs => (Ok tt, {[ path ]} ∪ fs)).

Definition fs_writeFile (path : string) (content : Script) : M unit :=
  io (EvWriteFile path content) (fun fs => (Ok tt, {[ path ]} ∪ fs)).

Definition fs_unlink (path : string) : M unit :=
  io (EvUnlink path) (fun fs =>
    if bool_decide (path ∈ fs) then (Ok tt, fs ∖ {[ path ]})
    else (Throw (enoent "unlink" path), fs)).

Definition fs_copyFile (src dst : string) : M unit :=
  io (EvCopyFile src dst) (fun fs =>
    if bool_decide (src ∈ fs) then (Ok tt, {[ dst ]} ∪ fs)
    else (Throw (enoent "copyfile" src), fs)).

(** [Jimp.read(path)]; the decoded image carries nothing the program
    looks at. *)
Definition Jimp_read (path : string) : M unit :=
  io (EvJimpRead path) (fun fs =>
    if bool_decide (path ∈ fs) then (Ok tt, fs)
    else (Throw (enoent "open" path), fs)).

(** [image.writeAsync(path)], after [image.quality(q)] when [quality]
    is given. *)
Definition Jimp_write (path : string) (quality : option number) : M unit :=
  io (EvJimpWrite path quality) (fun fs => (Ok tt, {[ path ]} ∪ fs)).

(** [execAsync(cmd)]: resolves to [{ stdout, stderr }] or rejects. *)
Definition execAsync (cmd : string) : M (string * string) :=
  fun w =>
    let o := exec_outcome E (tick w) cmd in
    (match exec_error o with
     | Some msg => Throw msg
     | None => Ok (exec_stdout o, exec_stderr o)
     end,
     {| files := list_to_set (exec_creates o) ∪ files w;
        console := console w;
        trace := trace w ++ [EvExec cmd]; tick := S (tick w) |}).

(** [path.join(dir, name)]: the separator of the host; normalisation of
    the result is not modelled. *)
Definition path_join (dir name : string) : string :=
  dir ++ (if String.eqb (os_platform E) "win32" then String bs "" else "/")
      ++ name.

(** [path.basename(p)] on a POSIX host: the last non-empty piece. *)
Definition path_basename (p : string) : string :=
  List.last (List.filter (fun piece => negb (String.eqb piece ""))
                         (split "/" p)) "".
End Primitives.

(* ================================================================= *)
(** ** The program *)

(** The object returned by [getTimestamp]: [year] is a number, the other
    fields are strings. *)
Record Timestamp : Type := {
  year : nat;
  month : string;
  day : string;
  hours : string;
  minutes : string;
  seconds : string
}.

(** [String(n).padStart(2, '0')] *)
Definition pad2 (n : nat) : string := padStart 2 "0" (string_of_nat n).

Definition timestampOf (now : DateParts) : Timestamp :=
  {| year := getFullYear now;
     month := pad2 (getMonth now + 1);
     day := pad2 (getDate now);
     hours := pad2 (getHours now);
     minutes := pad2 (getMinutes now);
     seconds := pad2 (getSeconds now) |}.

Definition generateFilename (prefix format : string) (timestamp : Timestamp)
  : string :=
  prefix ++ "_" ++ string_of_nat (year timestamp) ++ "-" ++ month timestamp
         ++ "-" ++ day timestamp ++ "_" ++ hours timestamp ++ "-"
         ++ minutes timestamp ++ "-" ++ seconds timestamp ++ "." ++ format.

(** The options that [yargs] hands over in [argv]. *)
Record Argv : Type := {
  display : option number;   (* [undefined] when the option is absent *)
  output : option string;
  format : string;
  quality : number
}.

Definition typeError_index : string :=
  "Cannot read properties of undefined (reading 'index')".

Section Program.
Context (E : Env).

Definition getTimestamp : M Timestamp :=
  now <- read_clock (new_Date E) ;;
  ret (timestampOf now).

Definition detectPlatform : M string :=
  let platform := os_platform E in
  if String.eqb platform "linux" then
    try_catch (fs_access E "/mnt/c" ;; ret "wsl") (fun _ => ret "linux")
  else ret platform.

Definition isWindowsFamily (platform : string) : bool :=
  String.eqb platform "win32" || String.eqb platform "wsl".

(** The choice of a temporary path, written out three times in the
    source (lines 92 to 112 for the enumeration script, 236 to 255 for
    the screenshot, 263 to 282 for the capture script): the path as the
    program sees it and the path handed to the Windows side. *)
Definition tempPath (platform stem ext : string) : M (string * string) :=
  if String.eqb platform "wsl" then
    let userHome := os_homedir E in
    let userName := path_basename userHome in
    let fallbackTemp := "/mnt/c/Users/" ++ userName ++ "/AppData/Local/Temp" in
    try_catch
      (fs_access E fallbackTemp ;;
       now <- read_clock (Date_now E) ;;
       let p := fallbackTemp ++ "/" ++ stem ++ "_" ++ string_of_Z now ++ ext in
       ret (p, replace_all "/" (String bs "") (replace "/mnt/c" "C:" p)))
      (fun _ =>
       now <- read_clock (Date_now E) ;;
       let p := "/tmp/" ++ stem ++ "_" ++ string_of_Z now ++ ext in
       ret (p, p))
  else
    now <- read_clock (Date_now E) ;;
    let p := path_join E (os_tmpdir E) (stem ++ "_" ++ string_of_Z now ++ ext) in
    ret (p, p).

Definition powershellCommand (platform psScriptWin : string) : string :=
  (if String.eqb platform "wsl" then "powershell.exe" else "powershell")
    ++ " -NoProfile -ExecutionPolicy Bypass -File " ++ dq ++ psScriptWin ++ dq.

Definition getScreenInfo : M (list Monitor) :=
  platform <- detectPlatform ;;
  if isWindowsFamily platform then
    '(psScript, psScriptWin) <- tempPath platform "getmonitors" ".ps1" ;;
    try_catch
      (fs_writeFile E psScript GetMonitorsScript ;;
       let cmd := powershellCommand platform psScriptWin in
       '(stdout, stderr) <- execAsync E cmd ;;
       (if String.eqb stderr "" then ret tt
        else console_error ("Error in getScreenInfo: " ++ stderr)) ;;
       swallow (fs_unlink E psScript) ;;
       if String.eqb stdout "" || String.eqb (trim stdout) "" then ret []
       else ret (parseWindowsMonitors stdout))
      (fun message =>
       console_error ("Error getting screen info: " ++ message) ;;
       swallow (fs_unlink E psScript) ;;
       ret [])
  else if String.eqb platform "darwin" then
    try_catch
      ('(stdout, _) <- execAsync E "system_profiler SPDisplaysDataType -json" ;;
       match JSON_parse E stdout with
       | None => throw "Unexpected token in JSON"
       | Some data =>
           match parseDarwinMonitors data with
           | None => throw "Cannot read properties of undefined"
           | Some displays => ret displays
           end
       end)
      (fun _ => ret [])
  else if String.eqb platform "linux" then
    try_catch
      ('(stdout, _) <- execAsync E "xrandr --query" ;;
       ret (parseLinuxMonitors stdout))
      (fun _ => ret [])
  else ret [].

Definition rectOf (monitor : Monitor) : string :=
  toString (x monitor) ++ "," ++ toString (y monitor) ++ ","
    ++ toString (width monitor) ++ "," ++ toString (height monitor).

Definition cropOf (monitor : Monitor) : string :=
  toString (width monitor) ++ "x" ++ toString (height monitor) ++ "+"
    ++ toString (x monitor) ++ "+" ++ toString (y monitor).

(** [captureScreen(monitor = null)]; [None] is the absent monitor. *)
Definition captureScreen (monitor : option Monitor) : M string :=
  platform <- detectPlatform ;;
  '(tempFile, windowsTempFile) <- tempPath platform "screenshot" ".png" ;;
  try_catch
    ((if isWindowsFamily platform then
        '(psScript, psScriptWin) <- tempPath platform "capture" ".ps1" ;;
        match monitor with
        | Some m =>
            if le (width m) (Fin 0) || le (height m) (Fin 0)
            then throw ("Invalid monitor dimensions: "
                          ++ toString (width m) ++ "x" ++ toString (height m))
            else ret tt
        | None => ret tt
        end ;;
        let out := replace_all bs (String bs (String bs "")) windowsTempFile in
        let psContent :=
          match monitor with
          | Some m =>
              CaptureRectScript (Math_max (Fin 0) (x m)) (Math_max (Fin 0) (y m))
                                (width m) (height m) out
          | None => CaptureVirtualScript out
          end in
        fs_writeFile E psScript psContent ;;
        let cmd := powershellCommand platform psScriptWin in
        '(stdout, stderr) <- execAsync E cmd ;;
        (if negb (String.eqb stderr "")
            && negb (includes "DeprecationWarning" stderr)
         then console_error ("PowerShell stderr: " ++ stderr)
         else ret tt) ;;
        swallow (fs_unlink E psScript) ;;
        fs_access E tempFile
      else if String.eqb platform "darwin" then
        let macCmd :=
          match monitor with
          | Some m => "screencapture -x -R" ++ rectOf m ++ " " ++ dq ++ tempFile ++ dq
          | None => "screencapture -x " ++ dq ++ tempFile ++ dq
          end in
        execAsync E macCmd ;; ret tt
      else if String.eqb platform "linux" then
        let linuxCmd :=
          match monitor with
          | Some m => "import -window root -crop " ++ cropOf m ++ " " ++ dq ++ tempFile ++ dq
          | None => "import -window root " ++ dq ++ tempFile ++ dq
          end in
        execAsync E linuxCmd ;; ret tt
      else throw ("Unsupported platform: " ++ platform)) ;;
     ret tempFile)
    (fun message => throw ("Failed to capture screen: " ++ message)).

Definition convertImage (inputPath outputPath format : string)
    (quality : number) : M unit :=
  try_catch
    (Jimp_read E inputPath ;;
     if String.eqb format "jpg" || String.eqb format "jpeg"
     then Jimp_write E outputPath (Some quality)
     else Jimp_write E outputPath None)
    (fun message => throw ("Failed to convert image: " ++ message)).

(** The [if (format !== 'png') ... else ...] block that follows each of
    the three calls of [captureScreen] in [main] (lines 444 to 450, 462
    to 468 and 485 to 491). *)
Definition placeScreenshot (format : string) (quality : number)
    (screenshot outputFile : string) : M unit :=
  if negb (String.eqb format "png") then
    convertImage screenshot outputFile format quality ;;
    fs_unlink E screenshot
  else
    fs_copyFile E screenshot outputFile ;;
    fs_unlink E screenshot.

Definition displayFile (outputDir format : string) (timestamp : Timestamp)
    (i : nat) : string :=
  path_join E outputDir
    (generateFilename ("DisplayImage" ++ string_of_nat i) format timestamp).

(** The body of the [try] block inside the loop of the all-displays
    branch (lines 479 to 494): capture one monitor, place the image and
    yield the name of the saved file. *)
Definition captureDisplay (outputDir format : string) (quality : number)
    (timestamp : Timestamp) (monitor : Monitor) : M string :=
  monitorScreenshot <- captureScreen (Some monitor) ;;
  let monitorOutput :=
    displayFile outputDir format timestamp (index monitor) in
  placeScreenshot format quality monitorScreenshot monitorOutput ;;
  console_log ("✓ Display " ++ string_of_nat (index monitor)
                 ++ " screenshot saved: " ++ monitorOutput) ;;
  ret monitorOutput.

(** The [for (const monitor of monitors)] loop of the all-displays
    branch; [screenshots] is the array of saved files so far. *)
Fixpoint captureEach (outputDir format : string) (quality : number)
    (timestamp : Timestamp) (monitors : list Monitor)
    (screenshots : list string) : M (list string) :=
  match monitors with
  | [] => ret screenshots
  | monitor :: rest =>
      screenshots' <-
        try_catch
          (monitorOutput <-
             captureDisplay outputDir format quality timestamp monitor ;;
           ret (screenshots ++ [monitorOutput])%list)
          (fun message =>
           console_error ("✗ Failed to capture display "
                            ++ string_of_nat (index monitor) ++ ": " ++ message) ;;
           ret screenshots) ;;
      captureEach outputDir format quality timestamp rest screenshots'
  end.

(** The branch taken when [--display] is given (lines 430 to 453); it
    yields the array [screenshots]. *)
Definition singleDisplay (outputDir format : string) (quality : number)
    (timestamp : Timestamp) (monitors : list Monitor)
    (displayNumber : number) : M (list string) :=
  (if lt displayNumber (Fin 1)
      || gt displayNumber (of_nat (length monitors))
   then
     console_error ("Error: Display " ++ toString displayNumber
                      ++ " not found. Available displays: 1-"
                      ++ string_of_nat (length monitors)) ;;
     process_exit 1
   else ret tt) ;;
  let monitor :=
    List.find (fun m => strict_eq (of_nat (index m)) displayNumber)
              monitors in
  console_log ("Capturing display " ++ toString displayNumber ++ "...") ;;
  monitorScreenshot <- captureScreen monitor ;;
  i <- match monitor with
       | Some m => ret (index m)
       | None => throw typeError_index
       end ;;
  let monitorOutput := displayFile outputDir format timestamp i in
  placeScreenshot format quality monitorScreenshot monitorOutput ;;
  console_log ("✓ Display " ++ string_of_nat i
                 ++ " screenshot saved: " ++ monitorOutput) ;;
  ret [monitorOutput].

Definition desktopFile (outputDir format : string) (timestamp : Timestamp)
  : string :=
  path_join E outputDir (generateFilename "DesktopImage" format timestamp).

(** The branch taken without [--display] (lines 455 to 499). *)
Definition allDisplays (outputDir format : string) (quality : number)
    (timestamp : Timestamp) (monitors : list Monitor) : M (list string) :=
  console_log "Capturing desktop screenshot..." ;;
  mainScreenshot <- captureScreen None ;;
  let mainOutput := desktopFile outputDir format timestamp in
  placeScreenshot format quality mainScreenshot mainOutput ;;
  console_log ("✓ Main desktop screenshot saved: " ++ mainOutput) ;;
  match monitors with
  | [] => ret [mainOutput]
  | _ :: _ =>
      console_log ("Capturing " ++ string_of_nat (length monitors)
                     ++ " individual displays...") ;;
      captureEach outputDir format quality timestamp monitors [mainOutput]
  end.

Fixpoint logFiles (screenshots : list string) : M unit :=
  match screenshots with
  | [] => ret tt
  | file :: rest => console_log ("  - " ++ file) ;; logFiles rest
  end.

(** The closing report (lines 502 to 504). *)
Definition reportSaved (screenshots : list string) : M (list string) :=
  console_log (String lf "✓ All screenshots captured successfully!") ;;
  console_log "Files saved:" ;;
  logFiles screenshots ;;
  ret screenshots.

(** The [catch] block of [main] (lines 506 to 509). *)
Definition fatal {A} (message : string) : M A :=
  console_error ("Error: " ++ message) ;;
  process_exit 1.

(** [argv.output || process.cwd()] *)
Definition outputDirOf (argv : Argv) : string :=
  match output argv with
  | Some (String c dir) => String c dir
  | _ => process_cwd E
  end.

(** [main]; the value it yields is the final content of the local array
    [screenshots], the files reported as saved. *)
Definition main (argv : Argv) : M (list string) :=
  try_catch
    (timestamp <- getTimestamp ;;
     let outputDir := outputDirOf argv in
     let format := format argv in
     let quality := quality argv in
     fs_mkdir E outputDir ;;
     monitors <- getScreenInfo ;;
     screenshots <-
       match display argv with
       | Some displayNumber =>
           singleDisplay outputDir format quality timestamp monitors
                         displayNumber
       | None =>
           allDisplays outputDir format quality timestamp monitors
       end ;;
     reportSaved screenshots)
    fatal.
End Program.


From Stdlib Require DecimalPos DecimalZ.

(* ================================================================= *)
(** ** The warning handler *)

(** The listener installed on [process] for the [warning] event (lines 4
    to 11): a deprecation warning about [punycode] is dropped, any other
    warning goes to [console.warn], which writes to the error stream. *)
Definition onWarning (name message : string) : M unit :=
  if String.eqb name "DeprecationWarning" && includes "punycode" message
  then ret tt
  else console_error message.
(* ================================================================= *)
(** ** Vocabulary of the specification *)

(** The events a computation adds to the trace all satisfy [P]. *)
Definition emits {A} (P : Event -> Prop) (m : M A) : Prop :=
  forall w r w', m w = (r, w') ->
    exists evs, trace w' = (trace w ++ evs)%list /\ Forall P evs.

(** A computation that never ends the process. *)
Definition no_exit {A} (m : M A) : Prop :=
  forall w c w', m w <> (Exit c, w').

(** A computation that always yields a value. *)
Definition total {A} (m : M A) : Prop :=
  forall w, exists a w', m w = (Ok a, w').

(** The events of a capture: probing paths, writing and removing the
    script, running the tool. *)
Definition capture_event (ev : Event) : Prop :=
  match ev with
  | EvAccess _ | EvWriteFile _ _ | EvUnlink _ | EvExec _ => True
  | _ => False
  end.

(** Whether [fs.access(path)] succeeds in the world [w]: the path exists
    and no I/O error strikes the probe. *)
Definition accessible (E : Env) (w : World) (path : string) : bool :=
  match io_error E (tick w) (EvAccess path) with
  | Some _ => false
  | None => bool_decide (path ∈ files w)
  end.

(** The values of a computation, when it yields one, all satisfy [Q]. *)
Definition returns {A} (Q : A -> Prop) (m : M A) : Prop :=
  forall w a w', m w = (Ok a, w') -> Q a.

(** A monitor whose coordinates are numbers: neither [x] nor [y] is
    [NaN]. *)
Definition numeric (m : Monitor) : Prop :=
  is_nan (x m) = false /\ is_nan (y m) = false.

(** [(a.y, a.x) <= (b.y, b.x)] in the lexicographic order, with the
    comparisons of JavaScript. *)
Definition lex_le (a b : Monitor) : bool :=
  lt (y a) (y b) || (strict_eq (y a) (y b) && le (x a) (x b)).

(** Both dimensions are strictly positive. *)
Definition positive (m : Monitor) : Prop :=
  gt (width m) (Fin 0) = true /\ gt (height m) (Fin 0) = true.

(** The negation of [positive] that the specification speaks of: a width
    or a height that is [<= 0]. *)
Definition nonPositive (m : Monitor) : bool :=
  le (width m) (Fin 0) || le (height m) (Fin 0).

(** What the Windows-family branch of [getScreenInfo] can return: nothing,
    or the monitors parsed from the output of the enumeration script. *)
Definition windowsResult (monitors : list Monitor) : Prop :=
  monitors = [] \/ exists stdout, monitors = parseWindowsMonitors stdout.

(** No constraint on an event. *)
Definition any_event (ev : Event) : Prop := True.

(** A computation only adds lines to the console. *)
Definition console_grows {A} (m : M A) : Prop :=
  forall w r w', m w = (r, w') ->
    exists lines, console w' = (console w ++ lines)%list.

(** The first event a computation adds to the trace is [ev]. *)
Definition starts_with {A} (ev : Event) (m : M A) : Prop :=
  forall w r w', m w = (r, w') ->
    exists rest, trace w' = (trace w ++ ev :: rest)%list.

(** Probing a path, which neither writes a file nor runs a tool. *)
Definition probe_event (ev : Event) : Prop :=
  match ev with
  | EvAccess _ => True
  | _ => False
  end.

(** The claim that enumeration never returns a monitor with a width or a
    height [<= 0], for one environment and one starting world. *)
Definition dropsNonPositive (E : Env) (w : World) : Prop :=
  forall monitors w',
    getScreenInfo E w = (Ok monitors, w') ->
    Forall (fun m => nonPositive m = false) monitors.

(** The world [w] after one more line on the console. *)
Definition with_line (l : Line) (w : World) : World :=
  {| files := files w; console := (console w ++ [l])%list;
     trace := trace w; tick := tick w |}.

(** The first three steps of [main]: the timestamp, the output directory
    and the enumeration of the monitors. *)
Definition enumerationPhase (E : Env) (argv : Argv) : M (list Monitor) :=
  getTimestamp E ;;
  fs_mkdir E (outputDirOf E argv) ;;
  getScreenInfo E.

(** The timestamp of a run that starts in the world [w]. *)
Definition timestampAt (E : Env) (w : World) : Timestamp :=
  timestampOf (new_Date E (tick w)).

(** The calls of the enumeration phase: creating the output directory,
    probing paths, writing, running and removing the enumeration script.
    No capture script, no copy and no codec call is among them. *)
Definition enumeration_event (ev : Event) : Prop :=
  match ev with
  | EvMkdir _ | EvAccess _ | EvUnlink _ | EvExec _ => True
  | EvWriteFile _ GetMonitorsScript => True
  | _ => False
  end.

(** The error message of a failed computation. *)
Definition messageOf {A} (r : Result A) (otherwise : string) : string :=
  match r with
  | Throw e => e
  | _ => otherwise
  end.

(** The prefixes of output files: [DesktopImage] for the whole desktop,
    [DisplayImage<index>] for a monitor. *)
Definition outputName (name : string) : Prop :=
  name = "DesktopImage" \/ exists i, name = "DisplayImage" ++ string_of_nat i.

(** A call that produces an output file produces it under [dir], with a
    name made by [generateFilename] from an output prefix, [format] and
    the timestamp [ts]. *)
Definition named (E : Env) (dir format : string) (ts : Timestamp)
    (ev : Event) : Prop :=
  match ev with
  | EvCopyFile _ dst | EvJimpWrite dst _ =>
      exists name, outputName name /\
                   dst = path_join E dir (generateFilename name format ts)
  | _ => True
  end.

(** A call that is not to the image codec. *)
Definition no_codec (ev : Event) : Prop :=
  match ev with
  | EvJimpRead _ | EvJimpWrite _ _ => False
  | _ => True
  end.

(** A call that is not a file copy. *)
Definition no_copy (ev : Event) : Prop :=
  match ev with
  | EvCopyFile _ _ => False
  | _ => True
  end.

(** [n] written with exactly two, or exactly four, decimal digits. *)
Definition twoDigits (n : nat) : string :=
  String (digit_char (Z.of_nat (n / 10)))
    (String (digit_char (Z.of_nat (n mod 10))) "").

Definition fourDigits (n : nat) : string :=
  String (digit_char (Z.of_nat (n / 1000)))
    (String (digit_char (Z.of_nat (n / 100 mod 10))) (twoDigits (n mod 100))).

(** What the getters of a [Date] guarantee, for a year of four digits. *)
Definition validDate (d : DateParts) : Prop :=
  (1000 <= Z.of_nat (getFullYear d) <= 9999)%Z /\ (getMonth d <= 11)%nat /\
  (1 <= getDate d <= 31)%nat /\ (getHours d <= 23)%nat /\
  (getMinutes d <= 59)%nat /\ (getSeconds d <= 59)%nat.

(** A file reported as saved bears an output name, under [dir], with
    [format] and the timestamp [ts]. *)
Definition savedAs (E : Env) (dir format : string) (ts : Timestamp)
    (file : string) : Prop :=
  exists name, outputName name /\
               file = path_join E dir (generateFilename name format ts).

(** The line that reports the failure of one monitor. *)
Definition failureLine (monitor : Monitor) (message : string) : Line :=
  Err ("✗ Failed to capture display " ++ string_of_nat (index monitor)
         ++ ": " ++ message).

(* ================================================================= *)
(** ** Sample environments *)

Definition newline : string := String lf "".

(** A world with no file, nothing printed and nothing done yet. *)
Definition emptyWorld : World :=
  {| files := ∅; console := []; trace := []; tick := 0 |}.

(** 20 January 2024, 14:30:05. *)
Definition sampleDate : DateParts :=
  {| getFullYear := 2024; getMonth := 0; getDate := 20;
     getHours := 14; getMinutes := 30; getSeconds := 5 |}.

(** A machine of the given platform on which no I/O error occurs and
    commands fare as [exec] says. *)
Definition machine (platform : string)
    (exec : nat -> string -> ExecOutcome) (parse : string -> option json)
  : Env :=
  {| os_platform := platform;
     os_homedir := "/home/user";
     os_tmpdir := if String.eqb platform "win32" then "C:\Temp" else "/tmp";
     process_cwd := if String.eqb platform "win32" then "C:\work" else "/work";
     Date_now := fun t => (1700000000000 + Z.of_nat t)%Z;
     new_Date := fun _ => sampleDate;
     io_error := fun _ _ => None;
     exec_outcome := exec;
     JSON_parse := parse |}.

(** A command that succeeds and prints [stdout]. *)
Definition prints (stdout : string) : ExecOutcome :=
  {| exec_error := None; exec_stdout := stdout; exec_stderr := "";
     exec_creates := [] |}.

(** A command that fails with [message]. *)
Definition fails (message : string) : ExecOutcome :=
  {| exec_error := Some message; exec_stdout := ""; exec_stderr := "";
     exec_creates := [] |}.

(** A capture command that succeeds and leaves the file [path]. *)
Definition captures (path : string) : ExecOutcome :=
  {| exec_error := None; exec_stdout := ""; exec_stderr := "";
     exec_creates := [path] |}.

(** The screenshot whose name was made from the clock of [machine] at
    tick [t]. *)
Definition shotAt (tmp : string) (t : nat) : string :=
  tmp ++ "screenshot_" ++ string_of_Z (1700000000000 + Z.of_nat t) ++ ".png".

(** On macOS and Linux the capture command runs one tick after the name
    of the screenshot was made; on Windows, three ticks after. *)
Definition capturesUnix (t : nat) : ExecOutcome :=
  captures (shotAt "/tmp/" (Nat.pred t)).

Definition capturesWindows (t : nat) : ExecOutcome :=
  captures (shotAt "C:\Temp\" (t - 3)).

(** A Linux machine whose [xrandr] reports a connected output of size
    zero next to a real one. *)
Definition linuxZeroSize : Env :=
  machine "linux"
    (fun t cmd =>
       if String.eqb cmd "xrandr --query"
       then prints ("Screen 0: minimum 8 x 8, current 1920 x 1080" ++ newline
                    ++ "eDP-1 connected primary 1920x1080+0+0 (normal)" ++ newline
                    ++ "HDMI-1 connected 0x0+0+0 (normal)" ++ newline)
       else capturesUnix t)
    (fun _ => None).

(** A Mac whose display profiler reports a resolution of zero by zero. *)
Definition darwinZeroSize : Env :=
  machine "darwin" (fun t cmd => if String.prefix "system_profiler" cmd
                                 then prints "{...}" else capturesUnix t)
    (fun _ => Some (JObj [("SPDisplaysDataType",
       JArr [JObj [("spdisplays_ndrvs",
         JArr [JObj [("_spdisplays_resolution", JStr "0 x 0")]])]])])).

(** A Windows machine with three screens: the enumeration script prints
    the status of the DPI call, then the primary screen, one to its left
    and one above it; a fourth line has no width. *)
Definition windowsThreeScreens : Env :=
  machine "win32"
    (fun t cmd =>
       if includes "getmonitors" cmd
       then prints ("0" ++ newline ++ "0,0,1920,1080" ++ newline
                    ++ "-1920,0,1920,1080" ++ newline
                    ++ "0,-1080,1920,1080" ++ newline
                    ++ "3840,0,0,1080" ++ newline)
       else capturesWindows t)
    (fun _ => None).

(** A monitor of size zero, at negative coordinates. *)
Definition flatMonitor : Monitor :=
  {| index := 1; x := of_Z (-1920); y := Fin 0;
     width := Fin 0; height := of_nat 1080 |}.

(** A real monitor, to the left of the primary one. *)
Definition leftMonitor : Monitor :=
  {| index := 1; x := of_Z (-1920); y := Fin 0;
     width := of_nat 1920; height := of_nat 1080 |}.

(** [desktopimage --display 5] *)
Definition argvDisplay5 : Argv :=
  {| display := Some (of_nat 5); output := None; format := "png";
     quality := of_nat 100 |}.

(** [desktopimage --display 1.5 --format jpg] *)
Definition argvDisplayHalf : Argv :=
  {| display := Some (Fin (3 # 2)); output := None; format := "jpg";
     quality := of_nat 100 |}.

(** [desktopimage] and [desktopimage --format jpg --quality 85] *)
Definition argvDefault : Argv :=
  {| display := None; output := None; format := "png";
     quality := of_nat 100 |}.

Definition argvJpeg : Argv :=
  {| display := None; output := None; format := "jpg";
     quality := of_nat 85 |}.

(** A Mac with two displays on which every tool works. *)
Definition twoDisplays : json :=
  JObj [("SPDisplaysDataType",
    JArr [JObj [("spdisplays_ndrvs",
      JArr [JObj [("_spdisplays_resolution", JStr "2560 x 1440")];
            JObj [("_spdisplays_resolution", JStr "1920 x 1080")]])]])].

Definition macTwoDisplays : Env :=
  machine "darwin"
    (fun t cmd => if String.prefix "system_profiler" cmd
                  then prints "{...}" else capturesUnix t)
    (fun _ => Some twoDisplays).

(** The same Mac, on which the capture of the second display fails. *)
Definition macSecondFails : Env :=
  machine "darwin"
    (fun t cmd =>
       if String.prefix "system_profiler" cmd then prints "{...}"
       else if String.prefix "screencapture -x -R0,0,1920,1080 " cmd
            then fails "could not create image from display"
            else capturesUnix t)
    (fun _ => Some twoDisplays).

Definition firstDisplay : Monitor :=
  {| index := 1; x := Fin 0; y := Fin 0;
     width := of_nat 2560; height := of_nat 1440 |}.

Definition secondDisplay : Monitor :=
  {| index := 2; x := Fin 0; y := Fin 0;
     width := of_nat 1920; height := of_nat 1080 |}.

(** The machine [E] on which calls are struck by I/O errors as [err]
    says. *)
Definition withIoError (E : Env) (err : nat -> Event -> option string) : Env :=
  {| os_platform := os_platform E;
     os_homedir := os_homedir E;
     os_tmpdir := os_tmpdir E;
     process_cwd := process_cwd E;
     Date_now := Date_now E;
     new_Date := new_Date E;
     io_error := err;
     exec_outcome := exec_outcome E;
     JSON_parse := JSON_parse E |}.

(** A Mac on which the codec cannot decode what the capture tool wrote. *)
Definition macCodecFails : Env :=
  withIoError macTwoDisplays
    (fun _ ev =>
       match ev with
       | EvJimpRead _ => Some "Could not find MIME for Buffer <null>"
       | _ => None
       end).

(** A Windows machine on which the enumeration works and the capture
    script fails to run. *)
Definition windowsCaptureFails : Env :=
  machine "win32"
    (fun t cmd =>
       if includes "getmonitors" cmd
       then prints ("0,0,1920,1080" ++ newline)
       else fails "Command failed: powershell")
    (fun _ => None).

(** A Windows machine on which the enumeration script itself fails to
    run. *)
Definition windowsEnumerationFails : Env :=
  machine "win32" (fun t cmd => fails "Command failed: powershell")
    (fun _ => None).

(* ================================================================= *)
(** ** Further vocabulary *)

(** What holds of the value and of the world when a computation yields a
    value. *)
Definition ensures {A} (Q : A -> World -> Prop) (m : M A) : Prop :=
  forall w a w', m w = (Ok a, w') -> Q a w'.

(** What holds of the message when a computation throws. *)
Definition throws_only {A} (Q : string -> Prop) (m : M A) : Prop :=
  forall w e w', m w = (Throw e, w') -> Q e.

(** A computation that never throws. *)
Definition never_throws {A} (m : M A) : Prop :=
  forall w e w', m w <> (Throw e, w').

(** The last line on the console is an error line that starts with
    [Error: ]. *)
Definition endsOnError (w : World) : Prop :=
  exists text, List.last (console w) (Out "") = Err ("Error: " ++ text).

(** A computation that ends the process only with code 1, and only just
    after printing such a line. *)
Definition exits_on_error {A} (m : M A) : Prop :=
  forall w c w', m w = (Exit c, w') -> c = 1%Z /\ endsOnError w'.

(** The lines of the closing report for the files [saved]. *)
Definition reportLines (saved : list string) : list Line :=
  Out (String lf "✓ All screenshots captured successfully!")
    :: Out "Files saved:"
    :: map (fun file => Out ("  - " ++ file)) saved.

(** A list of monitors numbered [1..N] in order. *)
Definition indexed (monitors : list Monitor) : Prop :=
  forall i m, monitors !! i = Some m -> index m = i + 1.

(** [desktopimage --display 2] *)
Definition argvDisplay2 : Argv :=
  {| display := Some (of_nat 2); output := None; format := "png";
     quality := of_nat 100 |}.

(** The rectangle of a monitor, without its number. *)
Definition geometry (m : Monitor) : number * number * number * number :=
  (x m, y m, width m, height m).

(** A monitor placed at the origin. *)
Definition atOrigin (m : Monitor) : Prop := x m = Fin 0 /\ y m = Fin 0.

(** A number that is a non-negative integer. *)
Definition naturalNumber (a : number) : Prop := exists n : nat, a = of_nat n.

(** A number that is a non-negative integer or [Infinity]: neither [NaN],
    nor negative, nor fractional. *)
Definition naturalOrInfinite (a : number) : Prop :=
  naturalNumber a \/ a = PosInf.

(** A monitor whose rectangle is made of such numbers. *)
Definition naturalGeometry (m : Monitor) : Prop :=
  naturalOrInfinite (x m) /\ naturalOrInfinite (y m) /\
  naturalOrInfinite (width m) /\ naturalOrInfinite (height m).

(** A world in which the given paths exist, with nothing printed and
    nothing done yet. *)
Definition worldWith (paths : list string) : World :=
  {| files := list_to_set paths; console := []; trace := []; tick := 0 |}.

(** A platform for which the program has a capture tool. *)
Definition supported (platform : string) : bool :=
  String.eqb platform "win32" || String.eqb platform "wsl"
  || String.eqb platform "darwin" || String.eqb platform "linux".

(** A machine that is none of the supported ones. *)
Definition freebsd : Env :=
  machine "freebsd" (fun _ _ => fails "command not found") (fun _ => None).

(** The quality handed to the codec when it writes a file of the given
    format: the option [--quality] for JPEG, none otherwise. *)
Definition codec_quality (format : string) (quality : number) (ev : Event)
  : Prop :=
  match ev with
  | EvJimpWrite _ q =>
      q = if String.eqb format "jpg" || String.eqb format "jpeg"
          then Some quality else None
  | _ => True
  end.

(** A WSL machine whose Windows temporary directory is reachable. *)
Definition wslMachine : Env :=
  machine "linux"
    (fun t cmd =>
       if includes "getmonitors" cmd
       then prints ("0,0,1920,1080" ++ newline)
       else fails "Command failed: powershell.exe")
    (fun _ => None).

Definition wslWorld : World :=
  worldWith ["/mnt/c"; "/mnt/c/Users/user/AppData/Local/Temp"].

(** [desktopimage --display abc]: a value that is not a number reaches the
    program as [NaN]. *)
Definition argvDisplayNaN : Argv :=
  {| display := Some NaN; output := None; format := "png";
     quality := of_nat 100 |}.

(* ----------------------------------------------------------------- *)
(** *** Sorting and clamping, as the specification words them *)

(** The order that the specification states of the Windows family: for
    all positions [i < j], the monitor at [i] is before the one at [j]
    in the lexicographic order of [(y, x)]. *)
Definition sortedByPosition (monitors : list Monitor) : Prop :=
  forall i j a b, (i < j)%nat ->
    monitors !! i = Some a -> monitors !! j = Some b -> lex_le a b = true.

(** The claim that enumeration returns a list in that order, for one
    environment and one starting world. *)
Definition sortsByPosition (E : Env) (w : World) : Prop :=
  forall monitors w',
    getScreenInfo E w = (Ok monitors, w') -> sortedByPosition monitors.

(** A Windows machine whose enumeration script prints a line with an
    unreadable [x] before the line of the primary screen. *)
Definition windowsUnreadableX : Env :=
  machine "win32"
    (fun t cmd =>
       if includes "getmonitors" cmd
       then prints ("abc,0,11,11" ++ newline ++ "0,0,14,14" ++ newline)
       else capturesWindows t)
    (fun _ => None).

(** [s] is the coordinate [a] clamped at zero: zero when [a] is negative,
    [a] itself when it is not, and never negative. *)
Definition clampedFrom (a s : number) : Prop :=
  (lt a (Fin 0) = true -> s = Fin 0) /\
  (le (Fin 0) a = true -> strict_eq s a = true) /\
  le (Fin 0) s = true.

(** The claim that the coordinates written into the capture script of the
    monitor [m] are not negative, for one environment and one starting
    world. *)
Definition clampsCoordinates (E : Env) (w : World) (m : Monitor) : Prop :=
  forall r w' psScript sx sy sw sh out,
    captureScreen E (Some m) w = (r, w') ->
    EvWriteFile psScript (CaptureRectScript sx sy sw sh out) ∈ trace w' ->
    le (Fin 0) sx = true /\ le (Fin 0) sy = true.

(** A monitor below and to the left of the primary one. *)
Definition lowerLeftMonitor : Monitor :=
  {| index := 2; x := of_Z (-1920); y := of_nat 200;
     width := of_nat 1920; height := of_nat 1080 |}.

(** The monitor read from the line [abc,0,11,11]: a valid size, and an
    [x] that is not a number. *)
Definition unreadableXMonitor : Monitor :=
  {| index := 1; x := NaN; y := Fin 0;
     width := of_nat 11; height := of_nat 11 |}.

(* ----------------------------------------------------------------- *)
(** *** The captures of one run *)

(** The formats that the command line accepts for [--format]. *)
Definition formatChoice (format : string) : Prop :=
  In format ["png"; "jpg"; "jpeg"; "bmp"].

(** The shape of the temporary paths of the program: a directory and a
    stem, then [_<Date.now()>] and the extension. *)
Definition temporaryName (ext path : string) : Prop :=
  exists stem now, path = stem ++ "_" ++ string_of_Z now ++ ext.

Definition temporaryPath (path : string) : Prop :=
  temporaryName ".png" path \/ temporaryName ".ps1" path.

(** The world [w'] comes after the world [w] in a run: the console and
    the trace have only grown, and no file has been removed other than
    temporary ones. *)
Definition later (w w' : World) : Prop :=
  (exists lines, console w' = (console w ++ lines)%list) /\
  (exists evs, trace w' = (trace w ++ evs)%list) /\
  (forall path, path ∈ files w -> ~ temporaryPath path -> path ∈ files w').

(** A computation that only moves the world forward. *)
Definition advances {A} (m : M A) : Prop :=
  forall w r w', m w = (r, w') -> later w w'.

Section Iterations.
Context (E : Env) (dir fmt : string) (q : number) (ts : Timestamp).

(** The capture of the whole desktop and its placement (lines 459 to
    468). *)
Definition desktopPart : M unit :=
  mainScreenshot <- captureScreen E None ;;
  placeScreenshot E fmt q mainScreenshot (desktopFile E dir fmt ts).

(** One turn of the loop over the monitors (lines 478 to 497), the
    array of saved files left aside. *)
Definition loopBody (monitor : Monitor) : M unit :=
  try_catch
    (captureDisplay E dir fmt q ts monitor ;; ret tt)
    (fun message =>
     console_error ("✗ Failed to capture display "
                      ++ string_of_nat (index monitor) ++ ": " ++ message)).

(** The turns of the loop in the run that enters it in the world [w]:
    each monitor with the world in which its capture is attempted. *)
Fixpoint iterations (monitors : list Monitor) (w : World)
  : list (Monitor * World) :=
  match monitors with
  | [] => []
  | monitor :: rest =>
      (monitor, w) :: iterations rest (snd (loopBody monitor w))
  end.

(** The world in which the loop ends. *)
Definition loopEnd (monitors : list Monitor) (w : World) : World :=
  fold_left (fun w0 monitor => snd (loopBody monitor w0)) monitors w.

(** The world in which the loop is entered, [w3] being the world left
    by the capture and the placement of the desktop: the two lines
    printed in between are there (lines 470 and 475). *)
Definition loopStart (monitors : list Monitor) (w3 : World) : World :=
  let saved :=
    with_line (Out ("✓ Main desktop screenshot saved: "
                      ++ desktopFile E dir fmt ts)) w3 in
  match monitors with
  | [] => saved
  | _ :: _ =>
      with_line (Out ("Capturing " ++ string_of_nat (length monitors)
                        ++ " individual displays...")) saved
  end.

(** Whether the capture attempted in a turn works. *)
Definition succeeded (turn : Monitor * World) : bool :=
  match fst (captureDisplay E dir fmt q ts (fst turn) (snd turn)) with
  | Ok _ => true
  | _ => false
  end.
End Iterations.

(** The capture targets of a run of [main] whose enumeration phase
    returned [monitors] in the world [w2]: the target, the world in which
    it is captured and the output file it is meant for.  With
    [--display], the monitor that was found; without, the whole desktop,
    then each monitor in its turn of the loop. *)
Inductive captureTarget (E : Env) (argv : Argv) (ts : Timestamp)
    (monitors : list Monitor) (w2 : World)
  : option Monitor -> World -> string -> Prop :=
| target_display d m :
    display argv = Some d ->
    lt d (Fin 1) || gt d (of_nat (length monitors)) = false ->
    List.find (fun m0 => strict_eq (of_nat (index m0)) d) monitors = Some m ->
    captureTarget E argv ts monitors w2 (Some m)
      (with_line (Out ("Capturing display " ++ toString d ++ "...")) w2)
      (displayFile E (outputDirOf E argv) (format argv) ts (index m))
| target_desktop :
    display argv = None ->
    captureTarget E argv ts monitors w2 None
      (with_line (Out "Capturing desktop screenshot...") w2)
      (desktopFile E (outputDirOf E argv) (format argv) ts)
| target_each w3 m u :
    display argv = None ->
    desktopPart E (outputDirOf E argv) (format argv) (quality argv) ts
      (with_line (Out "Capturing desktop screenshot...") w2) = (Ok tt, w3) ->
    (m, u) ∈ iterations E (outputDirOf E argv) (format argv) (quality argv) ts
               monitors
               (loopStart E (outputDirOf E argv) (format argv) ts monitors w3) ->
    captureTarget E argv ts monitors w2 (Some m) u
      (displayFile E (outputDirOf E argv) (format argv) ts (index m)).

(** The claim that, with [--display], the screenshot of the capture that
    the run makes is handed to the codec, for one environment and one
    starting world. *)
Definition convertsDisplayCapture (E : Env) (argv : Argv) (w : World) : Prop :=
  forall monitors w2 d shot u1,
    enumerationPhase E argv w = (Ok monitors, w2) ->
    display argv = Some d ->
    lt d (Fin 1) || gt d (of_nat (length monitors)) = false ->
    captureScreen E
      (List.find (fun m0 => strict_eq (of_nat (index m0)) d) monitors)
      (with_line (Out ("Capturing display " ++ toString d ++ "...")) w2)
      = (Ok shot, u1) ->
    exists rest,
      trace (snd (main E argv w)) = (trace u1 ++ EvJimpRead shot :: rest)%list.
(* ================================================================= *)
(** ** Reasoning about computations *)

Section Combinators.
Context {A B : Type}.
Implicit Types (P : Event -> Prop) (m : M A) (k : A -> M B).

Lemma bind_ok m k w a w1 :
  m w = (Ok a, w1) -> bind m k w = k a w1.
Proof. unfold bind. now intros ->. Qed.

Lemma bind_ok_inv m k w b w' :
  bind m k w = (Ok b, w') ->
  exists a w1, m w = (Ok a, w1) /\ k a w1 = (Ok b, w').
Proof.
  unfold bind. destruct (m w) as [[a | e | c] w1]; try discriminate.
  intros Hk. now exists a, w1.
Qed.

Lemma starts_with_bind ev m k :
  starts_with ev m -> (forall a, emits any_event (k a)) ->
  starts_with ev (bind m k).
Proof.
  intros Hm Hk w r w'. unfold bind.
  destruct (m w) as [[a | e | c] w1] eqn:Hrun;
    destruct (Hm _ _ _ Hrun) as (rest & Htr).
  - intros Hrun2. destruct (Hk a _ _ _ Hrun2) as (evs & Htr2 & _).
    exists (rest ++ evs)%list. rewrite Htr2, Htr.
    now rewrite <- app_assoc.
  - intros [= <- <-]. now exists rest.
  - intros [= <- <-]. now exists rest.
Qed.

Lemma starts_with_bind_ret ev (a : A) k :
  starts_with ev (k a) -> starts_with ev (bind (ret a) k).
Proof. intros Hk w r w' Hrun. exact (Hk _ _ _ Hrun). Qed.

Lemma console_grows_bind m k :
  console_grows m -> (forall a, console_grows (k a)) ->
  console_grows (bind m k).
Proof.
  intros Hm Hk w r w'. unfold bind.
  destruct (m w) as [[a | e | c] w1] eqn:Hrun;
    destruct (Hm _ _ _ Hrun) as (l1 & Hl1).
  - intros Hrun2. destruct (Hk a _ _ _ Hrun2) as (l2 & Hl2).
    exists (l1 ++ l2)%list. now rewrite Hl2, Hl1, app_assoc.
  - intros [= <- <-]. now exists l1.
  - intros [= <- <-]. now exists l1.
Qed.

Lemma emits_weaken P (Q : Event -> Prop) m :
  (forall ev, P ev -> Q ev) -> emits P m -> emits Q m.
Proof.
  intros HPQ Hm w r w' Hrun.
  destruct (Hm _ _ _ Hrun) as (evs & Htr & Hevs).
  exists evs. split; [exact Htr |].
  eapply Forall_impl; [exact Hevs | exact HPQ].
Qed.

Lemma emits_ret P (a : A) : emits P (ret a).
Proof.
  intros w r w' [= <- <-]. exists []. now rewrite app_nil_r.
Qed.

Lemma emits_throw P e : emits P (@throw A e).
Proof.
  intros w r w' [= <- <-]. exists []. now rewrite app_nil_r.
Qed.

Lemma emits_process_exit P c : emits P (@process_exit A c).
Proof.
  intros w r w' [= <- <-]. exists []. now rewrite app_nil_r.
Qed.

Lemma emits_bind P m k :
  emits P m -> (forall a, emits P (k a)) -> emits P (bind m k).
Proof.
  intros Hm Hk w r w'. unfold bind.
  destruct (m w) as [[a | e | c] w1] eqn:Hrun;
    destruct (Hm _ _ _ Hrun) as (evs1 & Htr1 & Hevs1).
  - intros Hrun2.
    destruct (Hk a _ _ _ Hrun2) as (evs2 & Htr2 & Hevs2).
    exists (evs1 ++ evs2)%list. split.
    + now rewrite Htr2, Htr1, app_assoc.
    + now apply Forall_app.
  - intros [= <- <-]. now exists evs1.
  - intros [= <- <-]. now exists evs1.
Qed.

Lemma returns_bind (Q : B -> Prop) m k :
  (forall a, returns Q (k a)) -> returns Q (bind m k).
Proof.
  intros Hk w b w'. unfold bind.
  destruct (m w) as [[a | e | c] w1]; try discriminate. apply Hk.
Qed.

Lemma returns_bind_of (R : A -> Prop) (Q : B -> Prop) m k :
  returns R m -> (forall a, R a -> returns Q (k a)) -> returns Q (bind m k).
Proof.
  intros Hm Hk w b w'. unfold bind.
  destruct (m w) as [[a | e | c] w1] eqn:Hrun; try discriminate.
  apply Hk. eapply Hm, Hrun.
Qed.

Lemma total_bind m k :
  total m -> (forall a, total (k a)) -> total (bind m k).
Proof.
  intros Hm Hk w. destruct (Hm w) as (a & w1 & Hrun).
  rewrite (bind_ok _ _ _ _ _ Hrun). apply Hk.
Qed.

Lemma no_exit_ret (a : A) : no_exit (ret a).
Proof. intros w c w'. discriminate. Qed.

Lemma no_exit_throw e : no_exit (@throw A e).
Proof. intros w c w'. discriminate. Qed.

Lemma no_exit_bind m k :
  no_exit m -> (forall a, no_exit (k a)) -> no_exit (bind m k).
Proof.
  intros Hm Hk w c w'. unfold bind.
  destruct (m w) as [[a | e | c1] w1] eqn:Hrun.
  - apply Hk.
  - discriminate.
  - now apply Hm in Hrun.
Qed.
End Combinators.

Section Handlers.
Context {A : Type}.
Implicit Types (P : Event -> Prop) (m : M A) (h : string -> M A).

Lemma emits_try_catch P m h :
  emits P m -> (forall e, emits P (h e)) -> emits P (try_catch m h).
Proof.
  intros Hm Hh w r w'. unfold try_catch.
  destruct (m w) as [[a | e | c] w1] eqn:Hrun;
    destruct (Hm _ _ _ Hrun) as (evs1 & Htr1 & Hevs1).
  - intros [= <- <-]. now exists evs1.
  - intros Hrun2.
    destruct (Hh e _ _ _ Hrun2) as (evs2 & Htr2 & Hevs2).
    exists (evs1 ++ evs2)%list. split.
    + now rewrite Htr2, Htr1, app_assoc.
    + now apply Forall_app.
  - intros [= <- <-]. now exists evs1.
Qed.

Lemma console_grows_try_catch m h :
  console_grows m -> (forall e, console_grows (h e)) ->
  console_grows (try_catch m h).
Proof.
  intros Hm Hh w r w'. unfold try_catch.
  destruct (m w) as [[a | e | c] w1] eqn:Hrun;
    destruct (Hm _ _ _ Hrun) as (l1 & Hl1).
  - intros [= <- <-]. now exists l1.
  - intros Hrun2. destruct (Hh e _ _ _ Hrun2) as (l2 & Hl2).
    exists (l1 ++ l2)%list. now rewrite Hl2, Hl1, app_assoc.
  - intros [= <- <-]. now exists l1.
Qed.

Lemma console_grows_ret (a : A) : console_grows (ret a).
Proof. intros w r w' [= <- <-]. exists []. now rewrite app_nil_r. Qed.

Lemma console_grows_throw e : console_grows (@throw A e).
Proof. intros w r w' [= <- <-]. exists []. now rewrite app_nil_r. Qed.

Lemma try_catch_bind_ok {B} (m0 : M B) (k : B -> M A) h w b w1 :
  m0 w = (Ok b, w1) ->
  try_catch (bind m0 k) h w = try_catch (k b) h w1.
Proof. unfold try_catch, bind. now intros ->. Qed.

Lemma try_catch_bind2_ok {B C} (m0 : M B) (k : B -> M C) (k2 : C -> M A)
    h w b w1 :
  m0 w = (Ok b, w1) ->
  try_catch (bind (bind m0 k) k2) h w = try_catch (bind (k b) k2) h w1.
Proof. unfold try_catch, bind. now intros ->. Qed.

Lemma starts_with_try_catch ev m h :
  starts_with ev m -> (forall e, emits any_event (h e)) ->
  starts_with ev (try_catch m h).
Proof.
  intros Hm Hh w r w'. unfold try_catch.
  destruct (m w) as [[a | e | c] w1] eqn:Hrun;
    destruct (Hm _ _ _ Hrun) as (rest & Htr).
  - intros [= <- <-]. now exists rest.
  - intros Hrun2. destruct (Hh e _ _ _ Hrun2) as (evs & Htr2 & _).
    exists (rest ++ evs)%list. rewrite Htr2, Htr.
    now rewrite <- app_assoc.
  - intros [= <- <-]. now exists rest.
Qed.

Lemma no_exit_try_catch m h :
  no_exit m -> (forall e, no_exit (h e)) -> no_exit (try_catch m h).
Proof.
  intros Hm Hh w c w'. unfold try_catch.
  destruct (m w) as [[a | e | c1] w1] eqn:Hrun.
  - discriminate.
  - apply Hh.
  - now apply Hm in Hrun.
Qed.

Lemma returns_ret (Q : A -> Prop) a : Q a -> returns Q (ret a).
Proof. intros Ha w a' w' [= <- <-]. exact Ha. Qed.

Lemma returns_throw (Q : A -> Prop) e : returns Q (throw e).
Proof. intros w a w'. discriminate. Qed.

Lemma returns_process_exit (Q : A -> Prop) c : returns Q (process_exit c).
Proof. intros w a w'. discriminate. Qed.

Lemma returns_try_catch (Q : A -> Prop) m h :
  returns Q m -> (forall e, returns Q (h e)) -> returns Q (try_catch m h).
Proof.
  intros Hm Hh w a w'. unfold try_catch.
  destruct (m w) as [[a1 | e | c] w1] eqn:Hrun.
  - intros [= <- <-]. eapply Hm, Hrun.
  - apply Hh.
  - discriminate.
Qed.

Lemma total_ret (a : A) : total (ret a).
Proof. intros w. now exists a, w. Qed.

(** A block whose first step is known to succeed without adding to the
    trace. *)
Lemma emits_try_catch_bind_ok {B} P (m0 : M B) (k : B -> M A) h w b w1 :
  m0 w = (Ok b, w1) -> trace w1 = trace w ->
  emits P (k b) -> (forall e, emits P (h e)) ->
  forall r w', try_catch (bind m0 k) h w = (r, w') ->
    exists evs, trace w' = (trace w ++ evs)%list /\ Forall P evs.
Proof.
  intros Hm0 Htr Hk Hh r w'. rewrite (try_catch_bind_ok _ _ _ _ _ _ Hm0).
  rewrite <- Htr. apply emits_try_catch; assumption.
Qed.

Lemma returns_try_catch_bind_ok {B} (Q : A -> Prop) (m0 : M B)
    (k : B -> M A) h w b w1 :
  m0 w = (Ok b, w1) ->
  returns Q (k b) -> (forall e, returns Q (h e)) ->
  forall a w', try_catch (bind m0 k) h w = (Ok a, w') -> Q a.
Proof.
  intros Hm0 Hk Hh a w'. rewrite (try_catch_bind_ok _ _ _ _ _ _ Hm0).
  apply returns_try_catch; assumption.
Qed.

(** A handler that never throws makes the whole block total. *)
Lemma total_try_catch m h :
  no_exit m -> (forall e, total (h e)) -> total (try_catch m h).
Proof.
  intros Hm Hh w. unfold try_catch.
  destruct (m w) as [[a | e | c] w1] eqn:Hrun.
  - now exists a, w1.
  - apply Hh.
  - now apply Hm in Hrun.
Qed.
End Handlers.

Section PrimitiveFacts.
Context (E : Env).
Implicit Types (P : Event -> Prop).

Lemma emits_console_log P s : emits P (console_log s).
Proof.
  intros w r w' [= <- <-]. exists []. simpl. now rewrite app_nil_r.
Qed.

Lemma emits_console_error P s : emits P (console_error s).
Proof.
  intros w r w' [= <- <-]. exists []. simpl. now rewrite app_nil_r.
Qed.

Lemma emits_read_clock {A} P (f : nat -> A) : emits P (read_clock f).
Proof.
  intros w r w' [= <- <-]. exists []. simpl. now rewrite app_nil_r.
Qed.

Lemma emits_io {A} P ev (run : gset string -> Result A * gset string) :
  P ev -> emits P (io E ev run).
Proof.
  intros Hev w r w'. unfold io.
  destruct (match io_error E (tick w) ev with
            | Some msg => _ | None => _ end) as [r0 fs].
  intros [= <- <-]. exists [ev]. simpl. split; [reflexivity |].
  now constructor.
Qed.

Lemma starts_with_io {A} ev (run : gset string -> Result A * gset string) :
  starts_with ev (io E ev run).
Proof.
  intros w r w'. unfold io.
  destruct (match io_error E (tick w) ev with
            | Some msg => _ | None => _ end) as [r0 fs].
  intros [= <- <-]. now exists [].
Qed.

Lemma emits_execAsync P cmd : P (EvExec cmd) -> emits P (execAsync E cmd).
Proof.
  intros Hev w r w' [= <- <-]. exists [EvExec cmd]. simpl.
  split; [reflexivity | now constructor].
Qed.

Lemma console_grows_console_log s : console_grows (console_log s).
Proof. intros w r w' [= <- <-]. now eexists. Qed.

Lemma console_grows_console_error s : console_grows (console_error s).
Proof. intros w r w' [= <- <-]. now eexists. Qed.

Lemma console_grows_read_clock {A} (f : nat -> A) :
  console_grows (read_clock f).
Proof. intros w r w' [= <- <-]. exists []. simpl. now rewrite app_nil_r. Qed.

Lemma console_grows_io {A} ev (run : gset string -> Result A * gset string) :
  console_grows (io E ev run).
Proof.
  intros w r w'. unfold io.
  destruct (match io_error E (tick w) ev with
            | Some msg => _ | None => _ end) as [r0 fs].
  intros [= <- <-]. exists []. simpl. now rewrite app_nil_r.
Qed.

Lemma console_grows_execAsync cmd : console_grows (execAsync E cmd).
Proof. intros w r w' [= <- <-]. exists []. simpl. now rewrite app_nil_r. Qed.

Lemma no_exit_console_log s : no_exit (console_log s).
Proof. intros w c w'. discriminate. Qed.

Lemma no_exit_console_error s : no_exit (console_error s).
Proof. intros w c w'. discriminate. Qed.

Lemma no_exit_read_clock {A} (f : nat -> A) : no_exit (read_clock f).
Proof. intros w c w'. discriminate. Qed.

Lemma no_exit_io {A} ev (run : gset string -> Result A * gset string) :
  (forall fs c fs', run fs <> (Exit c, fs')) -> no_exit (io E ev run).
Proof.
  intros Hrun w c w'. unfold io.
  destruct (io_error E (tick w) ev) as [msg |].
  - discriminate.
  - destruct (run (files w)) as [r fs] eqn:Hr. intros [= -> <-].
    now apply Hrun in Hr.
Qed.

Lemma no_exit_execAsync cmd : no_exit (execAsync E cmd).
Proof.
  intros w c w'. unfold execAsync.
  destruct (exec_error _); discriminate.
Qed.

Lemma total_console_log s : total (console_log s).
Proof. intros w. now eexists _, _. Qed.

Lemma total_console_error s : total (console_error s).
Proof. intros w. now eexists _, _. Qed.

Lemma total_read_clock {A} (f : nat -> A) : total (read_clock f).
Proof. intros w. now eexists _, _. Qed.

Lemma total_swallow (m : M unit) : no_exit m -> total (swallow m).
Proof.
  intros Hm. apply total_try_catch; [exact Hm |].
  intros e w. now exists tt, w.
Qed.
End PrimitiveFacts.

Section FileSystemFacts.
Context (E : Env).
Implicit Types (P : Event -> Prop).

Lemma emits_fs_access P path :
  P (EvAccess path) -> emits P (fs_access E path).
Proof. apply emits_io. Qed.

Lemma emits_fs_mkdir P path :
  P (EvMkdir path) -> emits P (fs_mkdir E path).
Proof. apply emits_io. Qed.

Lemma emits_fs_writeFile P path content :
  P (EvWriteFile path content) -> emits P (fs_writeFile E path content).
Proof. apply emits_io. Qed.

Lemma emits_fs_unlink P path :
  P (EvUnlink path) -> emits P (fs_unlink E path).
Proof. apply emits_io. Qed.

Lemma emits_fs_copyFile P src dst :
  P (EvCopyFile src dst) -> emits P (fs_copyFile E src dst).
Proof. apply emits_io. Qed.

Lemma emits_Jimp_read P path :
  P (EvJimpRead path) -> emits P (Jimp_read E path).
Proof. apply emits_io. Qed.

Lemma emits_Jimp_write P path q :
  P (EvJimpWrite path q) -> emits P (Jimp_write E path q).
Proof. apply emits_io. Qed.

Lemma console_grows_fs_access path : console_grows (fs_access E path).
Proof. apply console_grows_io. Qed.

Lemma console_grows_fs_writeFile path content :
  console_grows (fs_writeFile E path content).
Proof. apply console_grows_io. Qed.

Lemma console_grows_fs_unlink path : console_grows (fs_unlink E path).
Proof. apply console_grows_io. Qed.

Lemma console_grows_fs_copyFile src dst :
  console_grows (fs_copyFile E src dst).
Proof. apply console_grows_io. Qed.

Lemma console_grows_Jimp_read path : console_grows (Jimp_read E path).
Proof. apply console_grows_io. Qed.

Lemma console_grows_Jimp_write path q : console_grows (Jimp_write E path q).
Proof. apply console_grows_io. Qed.

Lemma no_exit_fs_access path : no_exit (fs_access E path).
Proof. apply no_exit_io. intros fs c fs'. now case_bool_decide. Qed.

Lemma no_exit_fs_mkdir path : no_exit (fs_mkdir E path).
Proof. now apply no_exit_io. Qed.

Lemma no_exit_fs_writeFile path content :
  no_exit (fs_writeFile E path content).
Proof. now apply no_exit_io. Qed.

Lemma no_exit_fs_unlink path : no_exit (fs_unlink E path).
Proof. apply no_exit_io. intros fs c fs'. now case_bool_decide. Qed.

Lemma no_exit_fs_copyFile src dst : no_exit (fs_copyFile E src dst).
Proof. apply no_exit_io. intros fs c fs'. now case_bool_decide. Qed.

Lemma no_exit_Jimp_read path : no_exit (Jimp_read E path).
Proof. apply no_exit_io. intros fs c fs'. now case_bool_decide. Qed.

Lemma no_exit_Jimp_write path q : no_exit (Jimp_write E path q).
Proof. now apply no_exit_io. Qed.
End FileSystemFacts.

Create HintDb prog discriminated.

#[export] Hint Resolve
  emits_ret emits_throw emits_process_exit emits_console_log
  emits_console_error emits_read_clock emits_execAsync
  emits_fs_access emits_fs_mkdir emits_fs_writeFile emits_fs_unlink
  emits_fs_copyFile emits_Jimp_read emits_Jimp_write
  no_exit_ret no_exit_throw no_exit_console_log no_exit_console_error
  no_exit_read_clock no_exit_execAsync
  no_exit_fs_access no_exit_fs_mkdir no_exit_fs_writeFile no_exit_fs_unlink
  no_exit_fs_copyFile no_exit_Jimp_read no_exit_Jimp_write
  returns_ret returns_throw returns_process_exit
  total_ret total_console_log total_console_error total_read_clock
  total_swallow
  console_grows_ret console_grows_throw console_grows_console_log
  console_grows_console_error console_grows_read_clock
  console_grows_execAsync console_grows_fs_access console_grows_fs_writeFile
  console_grows_fs_unlink console_grows_fs_copyFile console_grows_Jimp_read
  console_grows_Jimp_write : prog.

(** Walks down a computation, one combinator or one branch at a time. *)
Ltac prog_step :=
  first
    [ apply emits_bind; [| intros ?]
    | apply emits_try_catch; [| intros ?]
    | apply no_exit_bind; [| intros ?]
    | apply no_exit_try_catch; [| intros ?]
    | apply returns_bind; intros ?
    | apply returns_try_catch; [| intros ?]
    | apply total_bind; [| intros ?]
    | apply total_try_catch; [| intros ?]
    | apply console_grows_bind; [| intros ?]
    | apply console_grows_try_catch; [| intros ?]
    | match goal with
      | |- console_grows (match ?t with _ => _ end) => destruct t
      | |- console_grows (swallow _) => unfold swallow
      | |- returns _ (match ?t with _ => _ end) => destruct t
      | |- total (match ?t with _ => _ end) => destruct t
      | |- emits _ (match ?t with _ => _ end) => destruct t
      | |- no_exit (match ?t with _ => _ end) => destruct t
      | |- emits _ (swallow _) => unfold swallow
      | |- no_exit (swallow _) => unfold swallow
      end ].

Ltac prog_auto :=
  repeat first [ solve [auto with prog] | prog_step ]; auto with prog.

#[export] Hint Extern 1 (capture_event _) => exact I : prog.
#[export] Hint Extern 1 (probe_event _) => exact I : prog.
#[export] Hint Extern 1 (any_event _) => exact I : prog.
#[export] Hint Extern 1 (no_codec _) => exact I : prog.
#[export] Hint Extern 1 (no_copy _) => exact I : prog.
#[export] Hint Extern 1 (named _ _ _ _ _) => exact I : prog.
#[export] Hint Extern 1 (enumeration_event _) => exact I : prog.

Section ProgramFacts.
Context (E : Env).

Lemma no_exit_detectPlatform : no_exit (detectPlatform E).
Proof. unfold detectPlatform. prog_auto. Qed.

Lemma no_exit_tempPath platform stem ext :
  no_exit (tempPath E platform stem ext).
Proof. unfold tempPath. prog_auto. Qed.

Lemma total_tempPath platform stem ext :
  total (tempPath E platform stem ext).
Proof. unfold tempPath. prog_auto. Qed.

Lemma no_exit_captureScreen monitor : no_exit (captureScreen E monitor).
Proof.
  unfold captureScreen.
  pose proof no_exit_detectPlatform. pose proof no_exit_tempPath.
  prog_auto.
Qed.

Lemma no_exit_convertImage i o f q : no_exit (convertImage E i o f q).
Proof. unfold convertImage. prog_auto. Qed.

Lemma no_exit_placeScreenshot f q s o : no_exit (placeScreenshot E f q s o).
Proof.
  unfold placeScreenshot. pose proof no_exit_convertImage. prog_auto.
Qed.

Lemma console_grows_captureScreen monitor :
  console_grows (captureScreen E monitor).
Proof. unfold captureScreen, detectPlatform, tempPath. prog_auto. Qed.

Lemma console_grows_placeScreenshot f q s o :
  console_grows (placeScreenshot E f q s o).
Proof. unfold placeScreenshot, convertImage. prog_auto. Qed.

Lemma console_grows_captureDisplay dir f q ts monitor :
  console_grows (captureDisplay E dir f q ts monitor).
Proof.
  unfold captureDisplay.
  pose proof console_grows_captureScreen.
  pose proof console_grows_placeScreenshot.
  prog_auto.
Qed.

Lemma no_exit_captureDisplay dir f q ts monitor :
  no_exit (captureDisplay E dir f q ts monitor).
Proof.
  unfold captureDisplay.
  pose proof no_exit_captureScreen. pose proof no_exit_placeScreenshot.
  prog_auto.
Qed.

Lemma emits_detectPlatform P :
  (forall p, P (EvAccess p)) -> emits P (detectPlatform E).
Proof. intros HP. unfold detectPlatform. prog_auto. Qed.

Lemma emits_tempPath P platform stem ext :
  (forall p, P (EvAccess p)) -> emits P (tempPath E platform stem ext).
Proof. intros HP. unfold tempPath. prog_auto. Qed.

Lemma emits_captureScreen monitor :
  emits capture_event (captureScreen E monitor).
Proof.
  unfold captureScreen.
  assert (forall p, capture_event (EvAccess p)) as HP by (intros; exact I).
  pose proof (emits_detectPlatform _ HP).
  pose proof (fun pf st ex => emits_tempPath _ pf st ex HP).
  prog_auto.
Qed.

Lemma emits_convertImage P i o f q :
  P (EvJimpRead i) -> (forall q', P (EvJimpWrite o q')) ->
  emits P (convertImage E i o f q).
Proof. intros Hr Hw. unfold convertImage. prog_auto. Qed.

Lemma emits_placeScreenshot P f q src dst :
  P (EvUnlink src) ->
  (f <> "png" -> P (EvJimpRead src) /\ forall q', P (EvJimpWrite dst q')) ->
  (f = "png" -> P (EvCopyFile src dst)) ->
  emits P (placeScreenshot E f q src dst).
Proof.
  intros Hu Hcodec Hcopy. unfold placeScreenshot.
  destruct (String.eqb_spec f "png") as [Heq | Hne]; simpl.
  - specialize (Hcopy Heq). prog_auto.
  - destruct (Hcodec Hne) as [Hr Hw].
    pose proof (emits_convertImage P src dst f q Hr Hw). prog_auto.
Qed.

Lemma emits_logFiles P l : emits P (logFiles l).
Proof. induction l as [| file l IH]; simpl; prog_auto. Qed.

Lemma emits_reportSaved P l : emits P (reportSaved l).
Proof. unfold reportSaved. pose proof (emits_logFiles P l). prog_auto. Qed.

Lemma emits_fatal {A} P e : emits P (@fatal A e).
Proof. unfold fatal. prog_auto. Qed.

(** Whatever the program does only adds to the trace. *)
Lemma emits_any_captureScreen monitor :
  emits any_event (captureScreen E monitor).
Proof.
  eapply emits_weaken; [| apply emits_captureScreen]. intros; exact I.
Qed.

Lemma emits_getScreenInfo P :
  (forall p, P (EvAccess p)) ->
  (forall p, P (EvWriteFile p GetMonitorsScript)) ->
  (forall p, P (EvUnlink p)) ->
  (forall cmd, P (EvExec cmd)) ->
  emits P (getScreenInfo E).
Proof.
  intros HPa HPw HPu HPe. unfold getScreenInfo.
  pose proof (emits_detectPlatform _ HPa).
  pose proof (fun pf st ex => emits_tempPath _ pf st ex HPa).
  prog_auto.
Qed.
End ProgramFacts.

(* ================================================================= *)
(** ** The runtime model on small inputs *)

Example Number_samples :
  map (fun s => toString (Number s))
      ["0"; " 12 "; "-1920"; "1.5"; "1e3"; "0x10"; ""; "abc"; "-Infinity"; "12px"]
  = ["0"; "12"; "-1920"; "1.5"; "1000"; "16"; "0"; "NaN"; "-Infinity"; "NaN"].
Proof. vm_compute. reflexivity. Qed.

Example parseInt_samples :
  map (fun s => toString (parseInt s))
      ["1920"; " 12px"; "-7"; "0x1f"; "x"; ""]
  = ["1920"; "12"; "-7"; "31"; "NaN"; "NaN"].
Proof. vm_compute. reflexivity. Qed.

(** [parseInt] rounds to the nearest binary64 number, ties to even, and
    a run of digits that is too long gives [Infinity]. *)
Example parseInt_binary64 :
  parseInt "9007199254740993" = of_Z 9007199254740992 /\
  parseInt "9007199254740995" = of_Z 9007199254740996 /\
  parseInt "12345678901234567890" = of_Z 12345678901234567168 /\
  parseInt (string_of_list_ascii (repeat "9"%char 310)) = PosInf /\
  parseInt (String "-" (string_of_list_ascii (repeat "9"%char 310))) = NegInf.
Proof. vm_compute. repeat split; reflexivity. Qed.

Example split_samples :
  split "," "0,-1080,1920,1080" = ["0"; "-1080"; "1920"; "1080"] /\
  split " x " "2560 x 1440" = ["2560"; "1440"] /\
  split "," "" = [""].
Proof. vm_compute. auto. Qed.

Example matchConnected_primary :
  matchConnected "eDP-1 connected primary 1920x1080+0+0 (normal left) 344mm x 194mm"
  = Some ("1920", "1080", "0", "0").
Proof. vm_compute. reflexivity. Qed.

Example matchConnected_disconnected :
  matchConnected "HDMI-1 disconnected (normal left inverted right x axis y axis)"
  = None.
Proof. vm_compute. reflexivity. Qed.

Example matchConnected_disabled :
  matchConnected "DP-2 connected (normal left inverted right x axis y axis)" = None.
Proof. vm_compute. reflexivity. Qed.

(** The screens of [windowsThreeScreens] in reading order: the one above,
    the one on the left, the primary one; the lines without a positive
    size are gone. *)
Example parseWindowsMonitors_sample :
  map (fun m => (index m, toString (x m), toString (y m),
                 toString (width m), toString (height m)))
      (parseWindowsMonitors
         ("0" ++ newline ++ "0,0,1920,1080" ++ newline
          ++ "-1920,0,1920,1080" ++ newline ++ "0,-1080,1920,1080" ++ newline
          ++ "3840,0,0,1080" ++ newline))
  = [(1, "0", "-1080", "1920", "1080");
     (2, "-1920", "0", "1920", "1080");
     (3, "0", "0", "1920", "1080")].
Proof. vm_compute. reflexivity. Qed.

Example generateFilename_sample :
  generateFilename "DesktopImage" "png" (timestampOf sampleDate)
  = "DesktopImage_2024-01-20_14-30-05.png".
Proof. vm_compute. reflexivity. Qed.

(** A default run on a Mac with two displays: three files, three copies,
    every temporary screenshot removed. *)
Example main_macTwoDisplays :
  let '(r, w) := main macTwoDisplays argvDefault emptyWorld in
  r = Ok ["/work/DesktopImage_2024-01-20_14-30-05.png";
          "/work/DisplayImage1_2024-01-20_14-30-05.png";
          "/work/DisplayImage2_2024-01-20_14-30-05.png"] /\
  elements (files w) =
    ["/work/DesktopImage_2024-01-20_14-30-05.png";
     "/work/DisplayImage1_2024-01-20_14-30-05.png";
     "/work/DisplayImage2_2024-01-20_14-30-05.png"; "/work"] /\
  exit_code r = 0%Z.
Proof. vm_compute. auto. Qed.

(* ================================================================= *)
(** ** Platform detection *)

Lemma total_detectPlatform E : total (detectPlatform E).
Proof. unfold detectPlatform. prog_auto. Qed.

(** C9.  [detectPlatform] always returns a value, in every environment and
    every world, and never throws or exits.  When the OS family is
    [linux] the value is [wsl] exactly when probing the bridge mount
    point [/mnt/c] succeeds and [linux] when it does not; any other family
    is returned as reported.  When no I/O error strikes the probe, it
    succeeds exactly when the mount point is present.  The probe leaves
    files and console as they were. *)
Theorem detectPlatform_never_fails (E : Env) (w : World) :
  exists platform w',
    detectPlatform E w = (Ok platform, w') /\
    platform =
      (if String.eqb (os_platform E) "linux"
       then if accessible E w "/mnt/c" then "wsl" else "linux"
       else os_platform E) /\
    (io_error E (tick w) (EvAccess "/mnt/c") = None ->
     (accessible E w "/mnt/c" = true <-> "/mnt/c" ∈ files w)) /\
    files w' = files w /\ console w' = console w.
Proof.
  assert (io_error E (tick w) (EvAccess "/mnt/c") = None ->
          (accessible E w "/mnt/c" = true <-> "/mnt/c" ∈ files w)) as Hpresent.
  { unfold accessible. intros ->. apply bool_decide_eq_true. }
  unfold detectPlatform, accessible in *.
  destruct (String.eqb (os_platform E) "linux").
  - unfold try_catch, bind, fs_access, io.
    destruct (io_error E (tick w) (EvAccess "/mnt/c")) as [msg |]; simpl.
    + now eexists _, _.
    + case_bool_decide; simpl; now eexists _, _.
  - now exists (os_platform E), w.
Qed.

(* ================================================================= *)
(** ** Facts about numbers *)

Lemma Qltb_lt p q : Qltb p q = true <-> (p < q)%Q.
Proof.
  unfold Qltb. rewrite Qlt_alt. destruct (p ?= q)%Q; split; congruence.
Qed.

Lemma Qltb_ge p q : Qltb p q = false <-> (q <= p)%Q.
Proof.
  pose proof (Qltb_lt p q) as H. pose proof (Qnot_lt_le p q) as H1.
  pose proof (Qle_not_lt q p) as H2.
  destruct (Qltb p q); split; intros; try congruence.
  - exfalso. apply H2; [assumption | now apply H].
  - apply H1. intros Hlt. apply H in Hlt. discriminate.
Qed.

(** Turns the boolean comparisons of the context and goal into rational
    (in)equalities, after splitting every number into its cases. *)
Ltac num_prop :=
  repeat match goal with
    | H : Qltb _ _ = true |- _ => apply Qltb_lt in H
    | H : Qltb _ _ = false |- _ => apply Qltb_ge in H
    | H : Qeq_bool _ _ = true |- _ => apply Qeq_bool_iff in H
    | H : Qeq_bool _ _ = false |- _ => apply Qeq_bool_neq in H
    | |- Qltb _ _ = true => apply Qltb_lt
    | |- Qltb _ _ = false => apply Qltb_ge
    | |- Qeq_bool _ _ = true => apply Qeq_bool_iff
    end.

Ltac num_cases :=
  repeat match goal with
    | a : number |- _ => destruct a
    end;
  simpl in *; try discriminate; try reflexivity.

Ltac bool_cases :=
  repeat match goal with
    | |- context [Qltb ?p ?q] => destruct (Qltb p q) eqn:?
    | |- context [Qeq_bool ?p ?q] => destruct (Qeq_bool p q) eqn:?
    | H : context [Qltb ?p ?q] |- _ =>
        lazymatch type of H with
        | Qltb _ _ = _ => fail
        | _ => destruct (Qltb p q) eqn:?
        end
    | H : context [Qeq_bool ?p ?q] |- _ =>
        lazymatch type of H with
        | Qeq_bool _ _ = _ => fail
        | _ => destruct (Qeq_bool p q) eqn:?
        end
    end;
  simpl in *; try discriminate; try reflexivity.

Ltac num_solve := num_cases; bool_cases; num_prop; try (exfalso; lra); try lra.

(** Away from [NaN], [a - b > 0] says [a > b]. *)
Lemma gt_sub a b :
  is_nan a = false -> is_nan b = false ->
  gt (sub a b) (Fin 0) = gt a b.
Proof. intros Ha Hb. unfold gt. num_solve. Qed.

Lemma lt_trans a b c : lt a b = true -> lt b c = true -> lt a c = true.
Proof. intros Hab Hbc. num_solve. Qed.

Lemma lt_asym a b : lt a b = true -> lt b a = false.
Proof. intros Hab. num_solve. Qed.

Lemma lt_not_eq a b : lt a b = true -> strict_eq a b = false.
Proof. intros Hab. num_solve. Qed.

Lemma strict_eq_sym a b : strict_eq a b = strict_eq b a.
Proof. num_solve. Qed.

Lemma strict_eq_trans a b c :
  strict_eq a b = true -> strict_eq b c = true -> strict_eq a c = true.
Proof. intros Hab Hbc. num_solve. Qed.

Lemma strict_eq_lt a b c :
  strict_eq a b = true -> lt b c = true -> lt a c = true.
Proof. intros Hab Hbc. num_solve. Qed.

Lemma lt_strict_eq a b c :
  lt a b = true -> strict_eq b c = true -> lt a c = true.
Proof. intros Hab Hbc. num_solve. Qed.

(** Numbers other than [NaN] are totally ordered. *)
Lemma trichotomy a b :
  is_nan a = false -> is_nan b = false ->
  lt a b = true \/ strict_eq a b = true \/ lt b a = true.
Proof.
  intros Ha Hb. num_cases; auto.
  match goal with
  | |- Qltb ?p ?q = true \/ _ =>
      destruct (Qltb p q) eqn:H1; [now left |];
      destruct (Qltb q p) eqn:H2; [now right; right |]
  end.
  right; left. num_prop. lra.
Qed.

Lemma le_not_gt a b :
  is_nan a = false -> is_nan b = false -> le a b = negb (gt a b).
Proof. intros Ha Hb. unfold le, gt. now rewrite Ha, Hb. Qed.

Lemma le_trans a b c : le a b = true -> le b c = true -> le a c = true.
Proof. unfold le. intros Hab Hbc. num_solve. Qed.

Lemma le_total a b :
  is_nan a = false -> is_nan b = false -> le a b = true \/ le b a = true.
Proof.
  unfold le. intros Ha Hb. num_cases; auto.
  match goal with
  | |- negb (Qltb ?p ?q) = true \/ _ =>
      destruct (Qltb p q) eqn:H1; [| now left]
  end.
  right. apply negb_true_iff. num_prop. lra.
Qed.

(** What [<= 0] and [> 0] say exclude each other. *)
Lemma gt_not_le a b : gt a b = true -> le a b = false.
Proof. unfold gt, le. intros Hab. rewrite Hab. now rewrite andb_false_r. Qed.

(* ================================================================= *)
(** ** Sorting and re-indexing *)

(** The insertion sort behind [Array_sort] orders every list on which the
    comparator behaves as a total preorder. *)
Section SortFacts.
Context {A : Type} (cmp : A -> A -> number) (good : A -> Prop).

Local Abbreviation leb a b := (gt (cmp a b) (Fin 0) = false).

Hypothesis leb_total :
  forall a b, good a -> good b -> leb a b \/ leb b a.
Hypothesis leb_trans :
  forall a b c, good a -> good b -> good c -> leb a b -> leb b c -> leb a c.

Lemma sort_insert_cons a b l :
  sort_insert cmp a (b :: l) =
    if gt (cmp a b) (Fin 0) then b :: sort_insert cmp a l else a :: b :: l.
Proof. reflexivity. Qed.

Lemma Array_sort_cons a l :
  Array_sort cmp (a :: l) = sort_insert cmp a (Array_sort cmp l).
Proof. reflexivity. Qed.

Lemma sort_insert_perm a l : Permutation (a :: l) (sort_insert cmp a l).
Proof.
  induction l as [| b l IH]; [| rewrite sort_insert_cons].
  - reflexivity.
  - destruct (gt (cmp a b) (Fin 0)).
    + transitivity (b :: a :: l); [apply perm_swap | now apply perm_skip].
    + reflexivity.
Qed.

Lemma Array_sort_perm l : Permutation l (Array_sort cmp l).
Proof.
  induction l as [| a l IH]; [| rewrite Array_sort_cons].
  - reflexivity.
  - transitivity (a :: Array_sort cmp l);
      [now apply perm_skip | apply sort_insert_perm].
Qed.

Lemma sort_insert_sorted a l :
  good a -> Forall good l ->
  StronglySorted (fun b c => leb b c) l ->
  StronglySorted (fun b c => leb b c) (sort_insert cmp a l).
Proof.
  intros Ha Hl Hs.
  induction Hs as [| b l Hs IH Hb]; [| rewrite sort_insert_cons].
  - repeat constructor.
  - apply Forall_cons in Hl as [Hgb Hgl].
    destruct (gt (cmp a b) (Fin 0)) eqn:Hab.
    + constructor; [now apply IH |].
      rewrite <- sort_insert_perm. constructor; [| exact Hb].
      destruct (leb_total a b Ha Hgb) as [H | H]; [| exact H].
      congruence.
    + constructor; [now constructor |].
      constructor; [exact Hab |].
      rewrite Forall_forall in Hb, Hgl |- *. intros c Hc.
      apply (leb_trans a b c); auto.
Qed.

Lemma Array_sort_sorted l :
  Forall good l -> StronglySorted (fun b c => leb b c) (Array_sort cmp l).
Proof.
  induction l as [| a l IH]; [| rewrite Array_sort_cons]; intros Hl.
  - constructor.
  - apply Forall_cons in Hl as [Ha Hl].
    apply sort_insert_sorted; [exact Ha | | now apply IH].
    now rewrite <- Array_sort_perm.
Qed.
End SortFacts.

Lemma StronglySorted_lookup {A} (R : A -> A -> Prop) (l : list A) i j a b :
  StronglySorted R l -> (i < j)%nat ->
  l !! i = Some a -> l !! j = Some b -> R a b.
Proof.
  intros Hs. revert i j. induction Hs as [| c l Hs IH Hc]; intros i j Hij Hi Hj.
  - discriminate.
  - destruct j as [| j]; [lia |]. simpl in Hj.
    destruct i as [| i]; simpl in Hi.
    + injection Hi as ->. rewrite Forall_forall in Hc. apply Hc.
      eapply list_elem_of_lookup_2. exact Hj.
    + apply (IH i j); [lia | assumption | assumption].
Qed.

(** On monitors with numeric coordinates the comparator decides the
    lexicographic order on [(y, x)]. *)
Lemma compareMonitors_lex a b :
  numeric a -> numeric b ->
  gt (compareMonitors a b) (Fin 0) = negb (lex_le a b).
Proof.
  intros [Hxa Hya] [Hxb Hyb]. unfold compareMonitors, lex_le.
  destruct (strict_eq (y a) (y b)) eqn:Heq; cbn [negb andb].
  - rewrite gt_sub, le_not_gt by assumption.
    destruct (lt (y a) (y b)) eqn:Hlt.
    + apply lt_not_eq in Hlt. congruence.
    + cbn [orb]. now rewrite negb_involutive.
  - rewrite gt_sub, orb_false_r by assumption. unfold gt.
    destruct (trichotomy (y a) (y b) Hya Hyb) as [H | [H | H]].
    + rewrite H. now rewrite (lt_asym _ _ H).
    + congruence.
    + rewrite H. now rewrite (lt_asym _ _ H).
Qed.

Lemma lex_le_total a b :
  numeric a -> numeric b -> lex_le a b = true \/ lex_le b a = true.
Proof.
  intros [Hxa Hya] [Hxb Hyb]. unfold lex_le.
  destruct (trichotomy (y a) (y b) Hya Hyb) as [H | [H | H]].
  - left. now rewrite H.
  - rewrite (strict_eq_sym (y b)), H. cbn [andb].
    destruct (le_total (x a) (x b) Hxa Hxb) as [H1 | H1]; rewrite H1.
    + left. apply orb_true_r.
    + right. apply orb_true_r.
  - right. now rewrite H.
Qed.

Lemma lex_le_trans a b c :
  lex_le a b = true -> lex_le b c = true -> lex_le a c = true.
Proof.
  unfold lex_le. intros Hab Hbc.
  apply orb_true_iff in Hab as [Hab | Hab];
    apply orb_true_iff in Hbc as [Hbc | Hbc];
    try apply andb_true_iff in Hab as [Hab Hab'];
    try apply andb_true_iff in Hbc as [Hbc Hbc'].
  - now rewrite (lt_trans _ _ _ Hab Hbc).
  - now rewrite (lt_strict_eq _ _ _ Hab Hbc).
  - now rewrite (strict_eq_lt _ _ _ Hab Hbc).
  - rewrite (strict_eq_trans _ _ _ Hab Hbc), (le_trans _ _ _ Hab' Hbc').
    apply orb_true_r.
Qed.

(* ================================================================= *)
(** ** Monitor enumeration *)

Lemma reindex_lookup l i m :
  reindex l !! i = Some m -> index m = i + 1.
Proof.
  unfold reindex. rewrite list_lookup_imap.
  destruct (l !! i); simpl; [| discriminate]. now intros [= <-].
Qed.

Lemma reindex_coords l m :
  m ∈ reindex l ->
  exists m0, m0 ∈ l /\ x m = x m0 /\ y m = y m0
             /\ width m = width m0 /\ height m = height m0.
Proof.
  intros Hm. apply list_elem_of_lookup in Hm as [i Hi].
  unfold reindex in Hi. rewrite list_lookup_imap in Hi.
  destruct (l !! i) as [m0 |] eqn:Hl; simpl in Hi; [| discriminate].
  injection Hi as <-. exists m0. split; [| now simpl].
  eapply list_elem_of_lookup_2, Hl.
Qed.

Lemma reindex_lookup_coords l i m :
  reindex l !! i = Some m ->
  exists m0, l !! i = Some m0 /\ x m = x m0 /\ y m = y m0.
Proof.
  unfold reindex. rewrite list_lookup_imap.
  destruct (l !! i) as [m0 |]; simpl; [| discriminate].
  intros [= <-]. now exists m0.
Qed.

(** Every monitor that [parseWindowsMonitors] returns went through the
    filter on positive sizes. *)
Lemma parseWindowsMonitors_positive stdout :
  Forall positive (parseWindowsMonitors stdout).
Proof.
  apply Forall_forall. intros m Hm. unfold parseWindowsMonitors in Hm.
  apply reindex_coords in Hm as (m0 & Hm0 & _ & _ & Hw & Hh).
  apply list_elem_of_In in Hm0.
  apply (Permutation_in _ (Permutation_sym (Array_sort_perm _ _))) in Hm0.
  apply filter_In in Hm0 as [_ Hpos].
  unfold positiveSize in Hpos. apply andb_true_iff in Hpos.
  unfold positive. now rewrite Hw, Hh.
Qed.

Lemma parseWindowsMonitors_index stdout i m :
  parseWindowsMonitors stdout !! i = Some m -> index m = i + 1.
Proof. apply reindex_lookup. Qed.

Lemma parseWindowsMonitors_sorted stdout i j a b :
  Forall numeric (parseWindowsMonitors stdout) ->
  (i < j)%nat ->
  parseWindowsMonitors stdout !! i = Some a ->
  parseWindowsMonitors stdout !! j = Some b ->
  lex_le a b = true.
Proof.
  unfold parseWindowsMonitors.
  set (kept := List.filter positiveSize _).
  intros Hnum Hij Hi Hj.
  assert (Forall numeric (Array_sort compareMonitors kept)) as Hsorted_num.
  { apply Forall_forall. intros m Hm.
    apply list_elem_of_lookup in Hm as [k Hk].
    assert (reindex (Array_sort compareMonitors kept) !! k
            = Some (set_index (k + 1) m)) as Hr.
    { unfold reindex. rewrite list_lookup_imap, Hk. reflexivity. }
    rewrite Forall_forall in Hnum.
    apply list_elem_of_lookup_2, Hnum in Hr. exact Hr. }
  assert (Forall numeric kept) as Hkept.
  { apply Forall_forall. intros m Hm. rewrite Forall_forall in Hsorted_num.
    apply Hsorted_num. apply list_elem_of_In.
    apply (Permutation_in _ (Array_sort_perm _ _)).
    now apply list_elem_of_In. }
  apply reindex_lookup_coords in Hi as (a0 & Hi & Hxa & Hya).
  apply reindex_lookup_coords in Hj as (b0 & Hj & Hxb & Hyb).
  assert (lex_le a0 b0 = true) as Hle.
  { assert (gt (compareMonitors a0 b0) (Fin 0) = false) as Hcmp.
    { apply (StronglySorted_lookup
               (fun m1 m2 => gt (compareMonitors m1 m2) (Fin 0) = false)
               (Array_sort compareMonitors kept) i j a0 b0);
        [| exact Hij | exact Hi | exact Hj].
      apply (Array_sort_sorted compareMonitors numeric); [| | exact Hkept].
      - intros m1 m2 H1 H2. rewrite !compareMonitors_lex by assumption.
        destruct (lex_le_total m1 m2 H1 H2) as [H | H]; rewrite H; auto.
      - intros m1 m2 m3 H1 H2 H3.
        rewrite !compareMonitors_lex by assumption.
        rewrite !negb_false_iff. apply lex_le_trans. }
    rewrite compareMonitors_lex in Hcmp.
    - now apply negb_false_iff in Hcmp.
    - rewrite Forall_forall in Hsorted_num.
      eapply Hsorted_num, list_elem_of_lookup_2, Hi.
    - rewrite Forall_forall in Hsorted_num.
      eapply Hsorted_num, list_elem_of_lookup_2, Hj. }
  unfold lex_le in *. now rewrite Hxa, Hya, Hxb, Hyb.
Qed.

Section EnumerationFacts.
Context (E : Env).

Lemma total_getScreenInfo : total (getScreenInfo E).
Proof.
  unfold getScreenInfo.
  pose proof (total_detectPlatform E). pose proof (total_tempPath E).
  prog_auto.
Qed.

Lemma getScreenInfo_windows w platform w1 monitors w' :
  detectPlatform E w = (Ok platform, w1) ->
  isWindowsFamily platform = true ->
  getScreenInfo E w = (Ok monitors, w') ->
  windowsResult monitors.
Proof.
  intros Hp Hwin. unfold getScreenInfo.
  rewrite (bind_ok _ _ _ _ _ Hp), Hwin.
  match goal with
  | |- ?m w1 = _ -> _ =>
      enough (returns windowsResult m) as Hret
        by (intros Hrun; exact (Hret _ _ _ Hrun))
  end.
  prog_auto; apply returns_ret; unfold windowsResult; eauto.
Qed.

Lemma windowsResult_positive monitors :
  windowsResult monitors -> Forall positive monitors.
Proof.
  intros [-> | [stdout ->]]; [constructor |].
  apply parseWindowsMonitors_positive.
Qed.
End EnumerationFacts.

Lemma positive_not_nonPositive m : positive m -> nonPositive m = false.
Proof.
  intros [Hw Hh]. unfold nonPositive.
  now rewrite (gt_not_le _ _ Hw), (gt_not_le _ _ Hh).
Qed.

(** C4, as amended.  On the Windows family ([win32] and [wsl]) the list
    that [getScreenInfo] returns (and it always returns one) holds only
    monitors whose width and height are above zero; none has a width or a
    height [<= 0]. *)
Theorem getScreenInfo_windows_positive (E : Env) (w w1 : World)
    (platform : string) :
  detectPlatform E w = (Ok platform, w1) ->
  isWindowsFamily platform = true ->
  exists monitors w',
    getScreenInfo E w = (Ok monitors, w') /\
    Forall positive monitors /\
    Forall (fun m => nonPositive m = false) monitors.
Proof.
  intros Hp Hwin.
  destruct (total_getScreenInfo E w) as (monitors & w' & Hrun).
  exists monitors, w'. split; [exact Hrun |].
  pose proof (windowsResult_positive _
                (getScreenInfo_windows E _ _ _ _ _ Hp Hwin Hrun)) as Hpos.
  split; [exact Hpos |].
  eapply Forall_impl; [exact Hpos | apply positive_not_nonPositive].
Qed.

Lemma getScreenInfo_windows_positive_witness :
  detectPlatform windowsThreeScreens emptyWorld = (Ok "win32", emptyWorld) /\
  isWindowsFamily "win32" = true /\
  exists monitors w',
    getScreenInfo windowsThreeScreens emptyWorld = (Ok monitors, w') /\
    Forall positive monitors /\
    Forall (fun m => nonPositive m = false) monitors.
Proof.
  split; [reflexivity |]. split; [reflexivity |].
  apply (getScreenInfo_windows_positive windowsThreeScreens emptyWorld
           emptyWorld "win32"); reflexivity.
Defined.

(** C4, the claim as stated, fails on native Linux: [xrandr] reporting a
    connected output of geometry [0x0+0+0] yields a monitor of width and
    height zero, which no filter removes. *)
Lemma getScreenInfo_linux_keeps_zero_size :
  ~ dropsNonPositive linuxZeroSize emptyWorld.
Proof.
  intros Hclaim.
  destruct (getScreenInfo linuxZeroSize emptyWorld) as [r w'] eqn:Hrun.
  vm_compute in Hrun. injection Hrun as <- <-.
  specialize (Hclaim _ _ eq_refl).
  apply Forall_cons in Hclaim as [_ Hclaim].
  apply Forall_cons in Hclaim as [Hzero _].
  vm_compute in Hzero. discriminate.
Qed.

(** The macOS branch keeps such a monitor as well. *)
Lemma getScreenInfo_darwin_keeps_zero_size :
  ~ dropsNonPositive darwinZeroSize emptyWorld.
Proof.
  intros Hclaim.
  destruct (getScreenInfo darwinZeroSize emptyWorld) as [r w'] eqn:Hrun.
  vm_compute in Hrun. injection Hrun as <- <-.
  specialize (Hclaim _ _ eq_refl).
  apply Forall_cons in Hclaim as [Hzero _].
  vm_compute in Hzero. discriminate.
Qed.

(** C5, as amended.  On the Windows family the list that [getScreenInfo]
    returns is indexed [1..N] in order, and, when none of its monitors has
    a coordinate that is [NaN], it is sorted by [(y, x)]: for all
    positions [i < j],
    [((monitor i).y, (monitor i).x) <= ((monitor j).y, (monitor j).x)]
    in the lexicographic order. *)
Theorem getScreenInfo_windows_sorted (E : Env) (w w1 : World)
    (platform : string) :
  detectPlatform E w = (Ok platform, w1) ->
  isWindowsFamily platform = true ->
  exists monitors w',
    getScreenInfo E w = (Ok monitors, w') /\
    (forall i m, monitors !! i = Some m -> index m = i + 1) /\
    (Forall numeric monitors ->
     forall i j a b, (i < j)%nat ->
       monitors !! i = Some a -> monitors !! j = Some b ->
       lex_le a b = true).
Proof.
  intros Hp Hwin.
  destruct (total_getScreenInfo E w) as (monitors & w' & Hrun).
  exists monitors, w'. split; [exact Hrun |].
  destruct (getScreenInfo_windows E _ _ _ _ _ Hp Hwin Hrun)
    as [-> | [stdout ->]].
  - split; intros; discriminate.
  - split.
    + apply parseWindowsMonitors_index.
    + intros Hnum i j a b. now apply parseWindowsMonitors_sorted.
Qed.

Lemma getScreenInfo_windows_sorted_witness :
  detectPlatform windowsThreeScreens emptyWorld = (Ok "win32", emptyWorld) /\
  isWindowsFamily "win32" = true /\
  exists monitors w',
    getScreenInfo windowsThreeScreens emptyWorld = (Ok monitors, w') /\
    length monitors = 3 /\
    Forall numeric monitors /\
    (forall i m, monitors !! i = Some m -> index m = i + 1) /\
    (forall i j a b, (i < j)%nat ->
       monitors !! i = Some a -> monitors !! j = Some b ->
       lex_le a b = true).
Proof.
  split; [reflexivity |]. split; [reflexivity |].
  destruct (getScreenInfo_windows_sorted windowsThreeScreens emptyWorld
              emptyWorld "win32" eq_refl eq_refl)
    as (monitors & w' & Hrun & Hindex & Hsorted).
  exists monitors, w'.
  assert (length monitors = 3 /\ Forall numeric monitors) as [Hlen Hnum].
  { vm_compute in Hrun. injection Hrun as <- _.
    split; [reflexivity |]. repeat constructor. }
  split; [exact Hrun |]. split; [exact Hlen |]. split; [exact Hnum |].
  split; [exact Hindex | exact (Hsorted Hnum)].
Defined.

(** C5, the claim as stated, fails when a line of the script's output has
    an [x] that does not read as a number: the comparator then yields
    [NaN], the monitor stays where it was, and the list
    [abc,0,11,11], [0,0,14,14] comes back in that order, the pair
    [(0, NaN)] before the pair [(0, 0)]. *)
Lemma getScreenInfo_windows_unsorted_on_NaN :
  ~ sortsByPosition windowsUnreadableX emptyWorld.
Proof.
  intros Hclaim.
  destruct (getScreenInfo windowsUnreadableX emptyWorld) as [r w'] eqn:Hrun.
  vm_compute in Hrun. injection Hrun as <- <-.
  specialize (Hclaim _ _ eq_refl 0 1 _ _ (Nat.lt_0_succ 0) eq_refl eq_refl).
  vm_compute in Hclaim. discriminate.
Qed.

(* ================================================================= *)
(** ** Capturing on the Windows family *)

Lemma Math_max_zero_nonneg a :
  is_nan a = false -> le (Fin 0) (Math_max (Fin 0) a) = true.
Proof.
  intros Ha. destruct a as [| | q |]; try discriminate; try reflexivity.
  unfold Math_max, le. simpl. destruct (Qltb 0 q) eqn:Hlt; simpl.
  - apply negb_true_iff, Qltb_ge. apply Qltb_lt in Hlt. lra.
  - reflexivity.
Qed.

Lemma Math_max_clamps a :
  is_nan a = false -> clampedFrom a (Math_max (Fin 0) a).
Proof.
  intros Ha. unfold clampedFrom.
  split; [| split; [| now apply Math_max_zero_nonneg]].
  - destruct a as [| | q |]; try discriminate; try reflexivity.
    unfold Math_max, lt. simpl. intros Hneg.
    destruct (Qltb 0 q) eqn:Hpos; [| reflexivity].
    apply Qltb_lt in Hneg, Hpos. lra.
  - destruct a as [| | q |]; try discriminate; try reflexivity.
    unfold Math_max, le, lt. simpl. intros Hle.
    apply negb_true_iff, Qltb_ge in Hle.
    destruct (Qltb 0 q) eqn:Hpos; simpl.
    + apply Qeq_bool_iff. reflexivity.
    + apply Qeq_bool_iff. apply Qltb_ge in Hpos. lra.
Qed.

Section CaptureFacts.
Context (E : Env).

(** The paths are chosen by probing only. *)
Lemma tempPath_run platform stem ext w :
  exists paths w' evs,
    tempPath E platform stem ext w = (Ok paths, w') /\
    trace w' = (trace w ++ evs)%list /\ Forall probe_event evs.
Proof.
  destruct (total_tempPath E platform stem ext w) as (paths & w' & Hrun).
  assert (forall p, probe_event (EvAccess p)) as HP by (intros; exact I).
  destruct (emits_tempPath E probe_event platform stem ext HP _ _ _ Hrun)
    as (evs & Htr & Hevs).
  now exists paths, w', evs.
Qed.

Lemma detectPlatform_probes w platform w1 :
  detectPlatform E w = (Ok platform, w1) ->
  exists evs, trace w1 = (trace w ++ evs)%list /\ Forall probe_event evs.
Proof.
  apply emits_detectPlatform. intros; exact I.
Qed.
End CaptureFacts.

(** C6, as amended.  On the Windows family, a capture asked for a monitor
    whose width or height is [<= 0] fails with the error [Invalid monitor
    dimensions: <width>x<height>] (under the prefix that [captureScreen]
    puts on all its errors), and up to that point the only calls made are
    path probes: no script is written and no tool is run.  For any other
    monitor the first call after the probes writes the capture script
    with the width and height of the monitor unchanged, and with
    coordinates that are those of the monitor clamped at zero whenever
    these are numbers: zero for a negative coordinate, the coordinate
    itself otherwise, and so never negative. *)
Theorem captureScreen_windows_validates (E : Env) (w w1 : World)
    (platform : string) (m : Monitor) :
  detectPlatform E w = (Ok platform, w1) ->
  isWindowsFamily platform = true ->
  (nonPositive m = true ->
   exists w' probes,
     captureScreen E (Some m) w =
       (Throw ("Failed to capture screen: Invalid monitor dimensions: "
                 ++ toString (width m) ++ "x" ++ toString (height m)), w') /\
     trace w' = (trace w ++ probes)%list /\ Forall probe_event probes) /\
  (nonPositive m = false ->
   exists r w' probes psScript sx sy out rest,
     captureScreen E (Some m) w = (r, w') /\
     trace w' =
       (trace w ++ probes ++
        EvWriteFile psScript
          (CaptureRectScript sx sy (width m) (height m) out) :: rest)%list /\
     Forall probe_event probes /\
     (is_nan (x m) = false -> clampedFrom (x m) sx) /\
     (is_nan (y m) = false -> clampedFrom (y m) sy)).
Proof.
  intros Hp Hwin.
  destruct (detectPlatform_probes E _ _ _ Hp) as (evs0 & Htr0 & Hevs0).
  destruct (tempPath_run E platform "screenshot" ".png" w1)
    as ([tempFile windowsTempFile] & w2 & evs1 & Ht1 & Htr1 & Hevs1).
  destruct (tempPath_run E platform "capture" ".ps1" w2)
    as ([psScript psScriptWin] & w3 & evs2 & Ht2 & Htr2 & Hevs2).
  assert (trace w3 = (trace w ++ (evs0 ++ evs1 ++ evs2))%list) as Htr3.
  { rewrite Htr2, Htr1, Htr0. now rewrite <- !app_assoc. }
  assert (Forall probe_event (evs0 ++ evs1 ++ evs2)) as Hprobes.
  { repeat apply Forall_app_2; assumption. }
  unfold captureScreen.
  rewrite (bind_ok _ _ _ _ _ Hp), (bind_ok _ _ _ _ _ Ht1), Hwin.
  rewrite (try_catch_bind2_ok _ _ _ _ _ _ _ Ht2).
  unfold nonPositive. split.
  - intros Hbad. exists w3, (evs0 ++ evs1 ++ evs2)%list.
    split; [| split; assumption].
    rewrite Hbad. reflexivity.
  - intros Hgood. rewrite Hgood.
    set (out := replace_all bs (String bs (String bs "")) windowsTempFile).
    set (script := CaptureRectScript (Math_max (Fin 0) (x m))
                     (Math_max (Fin 0) (y m)) (width m) (height m) out).
    match goal with
    | |- context [try_catch ?body ?h w3] => set (run := try_catch body h)
    end.
    assert (starts_with (EvWriteFile psScript script) run) as Hstart.
    { subst run. pose proof (emits_any_captureScreen E).
      apply starts_with_try_catch; [| intros; prog_auto].
      apply starts_with_bind; [| intros; prog_auto].
      apply starts_with_bind_ret.
      apply starts_with_bind; [apply starts_with_io | intros; prog_auto]. }
    destruct (run w3) as [r w'] eqn:Hrun.
    destruct (Hstart _ _ _ Hrun) as (rest & Htr).
    exists r, w', (evs0 ++ evs1 ++ evs2)%list, psScript,
      (Math_max (Fin 0) (x m)), (Math_max (Fin 0) (y m)), out, rest.
    split; [reflexivity |]. split.
    + rewrite Htr, Htr3. now rewrite <- app_assoc.
    + split; [assumption |]. split; apply Math_max_clamps.
Qed.

Lemma captureScreen_windows_validates_witness :
  detectPlatform windowsThreeScreens emptyWorld = (Ok "win32", emptyWorld) /\
  isWindowsFamily "win32" = true /\
  nonPositive flatMonitor = true /\
  nonPositive lowerLeftMonitor = false /\
  (exists w' probes,
     captureScreen windowsThreeScreens (Some flatMonitor) emptyWorld =
       (Throw "Failed to capture screen: Invalid monitor dimensions: 0x1080",
        w') /\
     trace w' = (trace emptyWorld ++ probes)%list /\
     Forall probe_event probes) /\
  (exists r w' probes psScript sx sy out rest,
     captureScreen windowsThreeScreens (Some lowerLeftMonitor) emptyWorld
       = (r, w') /\
     trace w' =
       (trace emptyWorld ++ probes ++
        EvWriteFile psScript
          (CaptureRectScript sx sy (of_nat 1920) (of_nat 1080) out)
          :: rest)%list /\
     Forall probe_event probes /\
     sx = Fin 0 /\
     strict_eq sy (of_nat 200) = true).
Proof.
  split; [reflexivity |]. split; [reflexivity |].
  split; [reflexivity |]. split; [reflexivity |].
  split.
  - apply (captureScreen_windows_validates windowsThreeScreens emptyWorld
             emptyWorld "win32" flatMonitor); reflexivity.
  - destruct (captureScreen_windows_validates windowsThreeScreens emptyWorld
                emptyWorld "win32" lowerLeftMonitor eq_refl eq_refl)
      as [_ Hgood].
    destruct (Hgood eq_refl)
      as (r & w' & probes & psScript & sx & sy & out & rest
          & Hrun & Htr & Hprobes & Hx & Hy).
    destruct (Hx eq_refl) as (Hneg & _ & _).
    destruct (Hy eq_refl) as (_ & Hkept & _).
    exists r, w', probes, psScript, sx, sy, out, rest.
    split; [exact Hrun |]. split; [exact Htr |]. split; [exact Hprobes |].
    split; [exact (Hneg eq_refl) | exact (Hkept eq_refl)].
Defined.

(** C6, the claim as stated, fails for a monitor of valid size whose [x]
    is not a number, such as the enumeration returns for the line
    [abc,0,11,11]: [Math.max(0, NaN)] is [NaN], and that is what the
    capture script is written with. *)
Lemma captureScreen_windows_keeps_NaN :
  nonPositive unreadableXMonitor = false /\
  ~ clampsCoordinates windowsThreeScreens emptyWorld unreadableXMonitor.
Proof.
  split; [reflexivity |]. intros Hclaim.
  destruct (captureScreen windowsThreeScreens (Some unreadableXMonitor)
              emptyWorld) as [r w'] eqn:Hrun.
  assert (exists psScript out,
            EvWriteFile psScript
              (CaptureRectScript NaN (Fin 0) (of_nat 11) (of_nat 11) out)
              ∈ trace w') as (psScript & out & Hin).
  { pose proof Hrun as H. vm_compute in H. injection H as _ <-.
    eexists _, _. apply list_elem_of_In. left. reflexivity. }
  destruct (Hclaim _ _ _ _ _ _ _ _ Hrun Hin) as [Hx _].
  discriminate Hx.
Qed.

(* ================================================================= *)
(** ** The orchestrator *)

Section MainFacts.
Context (E : Env).

Lemma getTimestamp_run w :
  exists w0, getTimestamp E w = (Ok (timestampAt E w), w0) /\
             trace w0 = trace w.
Proof. now eexists. Qed.

(** Once the enumeration phase has gone through, [main] is what is
    left of it: one of the two branches, the report, and the handler. *)
Lemma main_after_enumeration argv w monitors w2 :
  enumerationPhase E argv w = (Ok monitors, w2) ->
  main E argv w =
    try_catch
      (screenshots <-
         match display argv with
         | Some displayNumber =>
             singleDisplay E (outputDirOf E argv) (format argv)
               (quality argv) (timestampAt E w) monitors displayNumber
         | None =>
             allDisplays E (outputDirOf E argv) (format argv)
               (quality argv) (timestampAt E w) monitors
         end ;;
       reportSaved screenshots)
      fatal w2.
Proof.
  unfold enumerationPhase. intros Hrun.
  apply bind_ok_inv in Hrun as (ts & w0 & Hts & Hrun).
  apply bind_ok_inv in Hrun as ([] & w1 & Hmk & Hrun).
  unfold main. cbv zeta.
  rewrite (try_catch_bind_ok _ _ _ _ _ _ Hts).
  rewrite (try_catch_bind_ok _ _ _ _ _ _ Hmk).
  rewrite (try_catch_bind_ok _ _ _ _ _ _ Hrun).
  injection Hts as <- _. reflexivity.
Qed.

Lemma emits_enumerationPhase argv :
  emits enumeration_event (enumerationPhase E argv).
Proof.
  unfold enumerationPhase, getTimestamp.
  pose proof (emits_getScreenInfo E enumeration_event
                (fun _ => I) (fun _ => I) (fun _ => I) (fun _ => I)).
  prog_auto.
Qed.
End MainFacts.

Lemma isInteger_false q n :
  isInteger q = false -> strict_eq (of_nat n) (Fin q) = false.
Proof.
  unfold isInteger. intros Hq. simpl.
  destruct (Qeq_bool (inject_Z (Z.of_nat n)) q) eqn:Heq; [| reflexivity].
  apply Qeq_bool_iff in Heq. unfold Qeq in Heq. simpl in Heq.
  apply Z.eqb_neq in Hq. exfalso. apply Hq.
  replace (Qnum q) with (Z.of_nat n * Z.pos (Qden q))%Z by lia.
  apply Z_mod_mult.
Qed.

Lemma find_none_fractional q (monitors : list Monitor) :
  isInteger q = false ->
  List.find (fun m => strict_eq (of_nat (index m)) (Fin q)) monitors = None.
Proof.
  intros Hq. induction monitors as [| m l IH]; simpl; [reflexivity |].
  pose proof (isInteger_false q (index m) Hq) as H. simpl in H.
  now rewrite H.
Qed.

(** C3.  When [--display N] is given and [N] lies outside [1..count],
    [count] being the number of monitors that the enumeration phase
    returned, the run exits with code 1 after printing exactly
    [Error: Display <N> not found. Available displays: 1-<count>] on the
    error stream.  The world it leaves is the one the enumeration phase
    left, with that line added: no capture has been attempted, and none of
    the calls made so far copies or encodes a file. *)
Theorem main_display_out_of_range (E : Env) (argv : Argv) (w w2 : World)
    (displayNumber : number) (monitors : list Monitor) :
  display argv = Some displayNumber ->
  enumerationPhase E argv w = (Ok monitors, w2) ->
  lt displayNumber (Fin 1)
    || gt displayNumber (of_nat (length monitors)) = true ->
  main E argv w =
    (Exit 1,
     with_line (Err ("Error: Display " ++ toString displayNumber
                       ++ " not found. Available displays: 1-"
                       ++ string_of_nat (length monitors))) w2) /\
  exit_code (fst (main E argv w)) = 1%Z /\
  exists evs, trace w2 = (trace w ++ evs)%list /\
              Forall enumeration_event evs.
Proof.
  intros Hd Henum Hrange.
  assert (main E argv w =
    (Exit 1,
     with_line (Err ("Error: Display " ++ toString displayNumber
                       ++ " not found. Available displays: 1-"
                       ++ string_of_nat (length monitors))) w2)) as Hmain.
  { rewrite (main_after_enumeration E _ _ _ _ Henum), Hd.
    unfold singleDisplay. rewrite Hrange. reflexivity. }
  split; [exact Hmain |]. split; [now rewrite Hmain |].
  exact (emits_enumerationPhase E argv _ _ _ Henum).
Qed.

Lemma main_display_out_of_range_witness :
  exists monitors w2,
    display argvDisplay5 = Some (of_nat 5) /\
    enumerationPhase windowsThreeScreens argvDisplay5 emptyWorld
      = (Ok monitors, w2) /\
    length monitors = 3 /\
    lt (of_nat 5) (Fin 1) || gt (of_nat 5) (of_nat (length monitors)) = true /\
    main windowsThreeScreens argvDisplay5 emptyWorld =
      (Exit 1,
       with_line (Err "Error: Display 5 not found. Available displays: 1-3")
                 w2) /\
    exit_code (fst (main windowsThreeScreens argvDisplay5 emptyWorld)) = 1%Z.
Proof.
  destruct (enumerationPhase windowsThreeScreens argvDisplay5 emptyWorld)
    as [r w2] eqn:Henum.
  assert (exists monitors, r = Ok monitors /\ length monitors = 3)
    as (monitors & -> & Hlen).
  { pose proof Henum as H. vm_compute in H. injection H as <- _.
    eexists. split; reflexivity. }
  assert (lt (of_nat 5) (Fin 1) || gt (of_nat 5) (of_nat (length monitors))
          = true) as Hrange by (rewrite Hlen; reflexivity).
  exists monitors, w2.
  destruct (main_display_out_of_range windowsThreeScreens argvDisplay5
              emptyWorld w2 (of_nat 5) monitors eq_refl Henum Hrange)
    as (Hmain & Hcode & _).
  rewrite Hlen in Hmain.
  split; [reflexivity |]. split; [reflexivity |]. split; [exact Hlen |].
  split; [exact Hrange |]. split; [exact Hmain | exact Hcode].
Defined.

(** C10.  When [--display d] is given with [d] in [1..count] but not an
    integer, the range check passes and no monitor has index [d]; so
    [captureScreen] is called without a monitor, which is the capture of
    the whole desktop, and whatever its outcome the run then ends with
    exit code 1: on the error thrown by the capture, or, the capture
    having succeeded, on the [TypeError] raised by reading [index] of the
    monitor that was not found. *)
Theorem main_fractional_display (E : Env) (argv : Argv) (w w2 : World)
    (q : Q) (monitors : list Monitor) :
  display argv = Some (Fin q) ->
  isInteger q = false ->
  enumerationPhase E argv w = (Ok monitors, w2) ->
  le (Fin 1) (Fin q) = true ->
  le (Fin q) (of_nat (length monitors)) = true ->
  List.find (fun m => strict_eq (of_nat (index m)) (Fin q)) monitors = None /\
  exists r w3,
    captureScreen E None
      (with_line (Out ("Capturing display " ++ toString (Fin q) ++ "...")) w2)
      = (r, w3) /\
    main E argv w =
      (Exit 1, with_line (Err ("Error: " ++ messageOf r typeError_index)) w3) /\
    exit_code (fst (main E argv w)) = 1%Z.
Proof.
  intros Hd Hq Henum Hlo Hhi.
  pose proof (find_none_fractional q monitors Hq) as Hfind.
  split; [exact Hfind |].
  destruct (captureScreen E None
              (with_line (Out ("Capturing display " ++ toString (Fin q) ++ "..."))
                 w2)) as [r w3] eqn:Hcap.
  exists r, w3. split; [reflexivity |].
  assert (main E argv w =
    (Exit 1, with_line (Err ("Error: " ++ messageOf r typeError_index)) w3))
    as Hmain.
  { rewrite (main_after_enumeration E _ _ _ _ Henum), Hd.
    unfold singleDisplay.
    assert (lt (Fin q) (Fin 1) || gt (Fin q) (of_nat (length monitors))
            = false) as ->.
    { unfold le, of_nat in Hlo, Hhi. unfold gt, of_nat.
      cbn [is_nan negb andb] in Hlo, Hhi.
      apply negb_true_iff in Hlo, Hhi. now rewrite Hlo, Hhi. }
    rewrite Hfind. unfold with_line in Hcap |- *.
    unfold try_catch, bind, ret, console_log, throw. cbv beta iota zeta.
    rewrite Hcap.
    destruct r as [tmp | e | c]; try reflexivity.
    exfalso. exact (no_exit_captureScreen E None _ _ _ Hcap). }
  split; [exact Hmain | now rewrite Hmain].
Qed.

Lemma main_fractional_display_witness :
  exists monitors w2 r w3,
    display argvDisplayHalf = Some (Fin (3 # 2)) /\
    isInteger (3 # 2) = false /\
    enumerationPhase windowsThreeScreens argvDisplayHalf emptyWorld
      = (Ok monitors, w2) /\
    le (Fin 1) (Fin (3 # 2)) = true /\
    le (Fin (3 # 2)) (of_nat (length monitors)) = true /\
    captureScreen windowsThreeScreens None
      (with_line (Out "Capturing display 1.5...") w2) = (r, w3) /\
    In (EvWriteFile "C:\Temp\capture_1700000000007.ps1"
          (CaptureVirtualScript "C:\\Temp\\screenshot_1700000000006.png"))
       (trace w3) /\
    main windowsThreeScreens argvDisplayHalf emptyWorld =
      (Exit 1,
       with_line (Err ("Error: " ++ messageOf r typeError_index)) w3).
Proof.
  destruct (enumerationPhase windowsThreeScreens argvDisplayHalf emptyWorld)
    as [r0 w2] eqn:Henum.
  assert (exists monitors, r0 = Ok monitors /\ length monitors = 3)
    as (monitors & -> & Hlen).
  { pose proof Henum as H. vm_compute in H. injection H as <- _.
    eexists. split; reflexivity. }
  assert (le (Fin (3 # 2)) (of_nat (length monitors)) = true) as Hhi
    by (rewrite Hlen; reflexivity).
  destruct (main_fractional_display windowsThreeScreens argvDisplayHalf
              emptyWorld w2 (3 # 2) monitors eq_refl eq_refl Henum eq_refl Hhi)
    as (_ & r & w3 & Hcap & Hmain & _).
  exists monitors, w2, r, w3.
  split; [reflexivity |]. split; [reflexivity |]. split; [reflexivity |].
  split; [reflexivity |]. split; [exact Hhi |]. split; [exact Hcap |].
  split; [| exact Hmain].
  pose proof Henum as H. vm_compute in H. injection H as _ <-.
  vm_compute in Hcap. injection Hcap as _ <-.
  vm_compute. tauto.
Defined.

(* ================================================================= *)
(** ** Output files *)

(** The calls of [main], for a property [P] that holds of every call of
    a capture and of every call that places a screenshot under an output
    name. *)
Section Outputs.
Context (E : Env) (P : Event -> Prop).
Context (dir fmt : string) (q : number) (ts : Timestamp).

Hypothesis P_capture : forall ev, capture_event ev -> P ev.
Hypothesis P_place :
  forall src name, outputName name ->
    emits P (placeScreenshot E fmt q src
               (path_join E dir (generateFilename name fmt ts))).

Lemma emits_P_captureScreen monitor : emits P (captureScreen E monitor).
Proof. eapply emits_weaken; [exact P_capture | apply emits_captureScreen]. Qed.

Lemma P_place_display src i :
  emits P (placeScreenshot E fmt q src (displayFile E dir fmt ts i)).
Proof. apply P_place. right. now exists i. Qed.

Lemma P_place_desktop src :
  emits P (placeScreenshot E fmt q src (desktopFile E dir fmt ts)).
Proof. apply P_place. now left. Qed.

Lemma emits_captureDisplay monitor :
  emits P (captureDisplay E dir fmt q ts monitor).
Proof.
  unfold captureDisplay.
  pose proof emits_P_captureScreen. pose proof P_place_display.
  prog_auto.
Qed.

Lemma emits_captureEach monitors screenshots :
  emits P (captureEach E dir fmt q ts monitors screenshots).
Proof.
  revert screenshots.
  induction monitors as [| monitor rest IH]; intros screenshots; simpl.
  - prog_auto.
  - pose proof emits_captureDisplay. prog_auto.
Qed.

Lemma emits_singleDisplay monitors displayNumber :
  emits P (singleDisplay E dir fmt q ts monitors displayNumber).
Proof.
  unfold singleDisplay.
  pose proof emits_P_captureScreen. pose proof P_place_display.
  prog_auto.
Qed.

Lemma emits_allDisplays monitors :
  emits P (allDisplays E dir fmt q ts monitors).
Proof.
  unfold allDisplays.
  pose proof emits_P_captureScreen. pose proof P_place_desktop.
  pose proof emits_captureEach.
  prog_auto.
Qed.
End Outputs.

Lemma emits_main (E : Env) (P : Event -> Prop) (argv : Argv) (w : World) :
  (forall ev, capture_event ev -> P ev) ->
  (forall p, P (EvMkdir p)) ->
  (forall src name, outputName name ->
     emits P (placeScreenshot E (format argv) (quality argv) src
                (path_join E (outputDirOf E argv)
                   (generateFilename name (format argv) (timestampAt E w))))) ->
  forall r w', main E argv w = (r, w') ->
    exists evs, trace w' = (trace w ++ evs)%list /\ Forall P evs.
Proof.
  intros Hcap Hmk Hplace. unfold main.
  destruct (getTimestamp_run E w) as (w0 & Hts & Htr).
  apply (emits_try_catch_bind_ok P _ _ _ _ _ _ Hts Htr);
    [| intros; apply emits_fatal].
  cbv zeta.
  pose proof (emits_getScreenInfo E P
                (fun p => Hcap (EvAccess p) I)
                (fun p => Hcap (EvWriteFile p GetMonitorsScript) I)
                (fun p => Hcap (EvUnlink p) I)
                (fun c => Hcap (EvExec c) I)).
  pose proof (emits_singleDisplay E P _ _ _ _ Hcap Hplace).
  pose proof (emits_allDisplays E P _ _ _ _ Hcap Hplace).
  pose proof (emits_reportSaved P).
  prog_auto.
Qed.

Section PlaceFacts.
Context (E : Env).

Lemma starts_with_placeScreenshot_png q src dst :
  starts_with (EvCopyFile src dst) (placeScreenshot E "png" q src dst).
Proof.
  unfold placeScreenshot. simpl.
  apply starts_with_bind; [apply starts_with_io | intros; prog_auto].
Qed.

Lemma starts_with_placeScreenshot_codec f q src dst :
  f <> "png" ->
  starts_with (EvJimpRead src) (placeScreenshot E f q src dst).
Proof.
  intros Hne. unfold placeScreenshot.
  destruct (String.eqb_spec f "png") as [Heq | _]; [contradiction |].
  simpl. unfold convertImage.
  apply starts_with_bind; [| intros; prog_auto].
  apply starts_with_try_catch; [| intros; prog_auto].
  apply starts_with_bind; [apply starts_with_io | intros; prog_auto].
Qed.

Lemma main_png_no_codec argv w :
  format argv = "png" ->
  exists evs, trace (snd (main E argv w)) = (trace w ++ evs)%list /\
              Forall no_codec evs.
Proof.
  intros Hpng. destruct (main E argv w) as [r w'] eqn:Hrun.
  apply (emits_main E no_codec argv w) with (r := r).
  - now intros [].
  - intros; exact I.
  - intros src name _. apply emits_placeScreenshot.
    + exact I.
    + congruence.
    + intros; exact I.
  - exact Hrun.
Qed.

Lemma main_codec_no_copy argv w :
  format argv <> "png" ->
  exists evs, trace (snd (main E argv w)) = (trace w ++ evs)%list /\
              Forall no_copy evs.
Proof.
  intros Hne. destruct (main E argv w) as [r w'] eqn:Hrun.
  apply (emits_main E no_copy argv w) with (r := r).
  - now intros [].
  - intros; exact I.
  - intros src name _. apply emits_placeScreenshot.
    + exact I.
    + intros _. split; intros; exact I.
    + congruence.
  - exact Hrun.
Qed.
End PlaceFacts.

(** *** Names *)

Lemma pad2_twoDigits n : (n <= 99)%nat -> pad2 n = twoDigits n.
Proof.
  intros Hn.
  assert (forallb (fun k => String.eqb (pad2 k) (twoDigits k)) (seq 0 100)
          = true) as Hall by (vm_compute; reflexivity).
  rewrite forallb_forall in Hall.
  apply String.eqb_eq, Hall, in_seq. lia.
Qed.

Lemma year_fourDigits n :
  (1000 <= Z.of_nat n <= 9999)%Z -> string_of_nat n = fourDigits n.
Proof.
  intros Hn.
  assert (forallb (fun k => String.eqb (string_of_nat k) (fourDigits k))
                  (seq 1000 (90 * 100)) = true) as Hall
    by (vm_compute; reflexivity).
  rewrite forallb_forall in Hall.
  apply String.eqb_eq, Hall, in_seq. lia.
Qed.

Lemma generateFilename_shape prefix format now :
  validDate now ->
  generateFilename prefix format (timestampOf now) =
    prefix ++ "_" ++ fourDigits (getFullYear now) ++ "-"
      ++ twoDigits (getMonth now + 1) ++ "-" ++ twoDigits (getDate now)
      ++ "_" ++ twoDigits (getHours now) ++ "-" ++ twoDigits (getMinutes now)
      ++ "-" ++ twoDigits (getSeconds now) ++ "." ++ format.
Proof.
  intros (Hy & Hmo & Hd & Hh & Hmi & Hs).
  unfold generateFilename, timestampOf. cbn [year month day hours minutes seconds].
  rewrite (year_fourDigits _ Hy).
  rewrite !pad2_twoDigits by lia. reflexivity.
Qed.

(** The files reported as saved. *)
Section SavedFiles.
Context (E : Env) (dir fmt : string) (q : number) (ts : Timestamp).

Local Abbreviation Q := (Forall (savedAs E dir fmt ts)).

Lemma savedAs_display i : savedAs E dir fmt ts (displayFile E dir fmt ts i).
Proof.
  exists ("DisplayImage" ++ string_of_nat i). split; [| reflexivity].
  right. now exists i.
Qed.

Lemma savedAs_desktop : savedAs E dir fmt ts (desktopFile E dir fmt ts).
Proof. exists "DesktopImage". split; [now left | reflexivity]. Qed.

Lemma returns_captureDisplay monitor :
  returns (fun out => out = displayFile E dir fmt ts (index monitor))
          (captureDisplay E dir fmt q ts monitor).
Proof. unfold captureDisplay. prog_auto. Qed.

Lemma returns_captureEach monitors screenshots :
  Q screenshots ->
  returns Q (captureEach E dir fmt q ts monitors screenshots).
Proof.
  revert screenshots.
  induction monitors as [| monitor rest IH]; intros screenshots Hacc; simpl.
  - now apply returns_ret.
  - apply (returns_bind_of Q); [| intros acc Hacc'; now apply IH].
    apply returns_try_catch.
    + apply (returns_bind_of _ _ _ _ (returns_captureDisplay monitor)).
      intros out ->. apply returns_ret.
      apply Forall_app_2; [exact Hacc |].
      constructor; [apply savedAs_display | constructor].
    + intros e. prog_auto.
Qed.

Lemma returns_singleDisplay monitors displayNumber :
  returns Q (singleDisplay E dir fmt q ts monitors displayNumber).
Proof.
  unfold singleDisplay. prog_auto.
  apply returns_ret. constructor; [apply savedAs_display | constructor].
Qed.

Lemma returns_allDisplays monitors :
  returns Q (allDisplays E dir fmt q ts monitors).
Proof.
  assert (Q [desktopFile E dir fmt ts]) as Hmain
    by (constructor; [apply savedAs_desktop | constructor]).
  unfold allDisplays.
  pose proof (returns_captureEach monitors _ Hmain).
  prog_auto.
Qed.

Lemma returns_reportSaved screenshots :
  Q screenshots -> returns Q (reportSaved screenshots).
Proof. intros Hq. unfold reportSaved. prog_auto. Qed.
End SavedFiles.

Lemma returns_main (E : Env) (argv : Argv) (w : World) saved w' :
  main E argv w = (Ok saved, w') ->
  Forall (savedAs E (outputDirOf E argv) (format argv) (timestampAt E w)) saved.
Proof.
  unfold main.
  destruct (getTimestamp_run E w) as (w0 & Hts & _).
  apply (returns_try_catch_bind_ok _ _ _ _ _ _ _ Hts);
    [| intros; unfold fatal; prog_auto].
  cbv zeta. apply returns_bind. intros _. apply returns_bind. intros monitors.
  eapply returns_bind_of; [| intros l Hl; apply returns_reportSaved, Hl].
  destruct (display argv).
  - apply returns_singleDisplay.
  - apply returns_allDisplays.
Qed.

(** C7.  The timestamp of a run is read once, when [main] starts.  With
    it every output name has the shape
    [<prefix>_<YYYY>-<MM>-<DD>_<HH>-<MM>-<SS>.<format>], month, day, hours,
    minutes and seconds being written with two digits; every call of the
    run that produces an output file produces it under such a name, the
    prefix being [DesktopImage] or [DisplayImage<index>], and so is named
    every file that the run reports as saved: all with the same
    timestamp. *)
Theorem output_names (E : Env) (argv : Argv) (w : World) :
  validDate (new_Date E (tick w)) ->
  let now := new_Date E (tick w) in
  (forall prefix format,
     generateFilename prefix format (timestampAt E w) =
       prefix ++ "_" ++ fourDigits (getFullYear now) ++ "-"
         ++ twoDigits (getMonth now + 1) ++ "-" ++ twoDigits (getDate now)
         ++ "_" ++ twoDigits (getHours now) ++ "-"
         ++ twoDigits (getMinutes now) ++ "-" ++ twoDigits (getSeconds now)
         ++ "." ++ format) /\
  (exists evs,
     trace (snd (main E argv w)) = (trace w ++ evs)%list /\
     Forall (named E (outputDirOf E argv) (format argv) (timestampAt E w))
            evs) /\
  (forall saved,
     fst (main E argv w) = Ok saved ->
     Forall (savedAs E (outputDirOf E argv) (format argv) (timestampAt E w))
            saved).
Proof.
  intros Hvalid now. split; [| split].
  - intros prefix format. now apply generateFilename_shape.
  - destruct (main E argv w) as [r w'] eqn:Hrun.
    apply (emits_main E _ argv w) with (r := r); [| | | exact Hrun].
    + now intros [].
    + intros; exact I.
    + intros src name Hname. apply emits_placeScreenshot.
      * exact I.
      * intros _. split; [exact I |]. intros q'. now exists name.
      * intros _. now exists name.
  - destruct (main E argv w) as [r w'] eqn:Hrun. simpl. intros saved ->.
    exact (returns_main E argv w saved w' Hrun).
Qed.

Lemma output_names_witness :
  validDate (new_Date macTwoDisplays (tick emptyWorld)) /\
  generateFilename "DisplayImage2" "png" (timestampAt macTwoDisplays emptyWorld)
    = "DisplayImage2_2024-01-20_14-30-05.png" /\
  fst (main macTwoDisplays argvDefault emptyWorld) =
    Ok ["/work/DesktopImage_2024-01-20_14-30-05.png";
        "/work/DisplayImage1_2024-01-20_14-30-05.png";
        "/work/DisplayImage2_2024-01-20_14-30-05.png"] /\
  Forall (savedAs macTwoDisplays "/work" "png"
            (timestampAt macTwoDisplays emptyWorld))
    ["/work/DesktopImage_2024-01-20_14-30-05.png";
     "/work/DisplayImage1_2024-01-20_14-30-05.png";
     "/work/DisplayImage2_2024-01-20_14-30-05.png"].
Proof.
  assert (validDate (new_Date macTwoDisplays (tick emptyWorld))) as Hvalid.
  { unfold validDate. simpl. lia. }
  destruct (output_names macTwoDisplays argvDefault emptyWorld Hvalid)
    as (Hshape & _ & Hsaved).
  split; [exact Hvalid |]. split; [rewrite Hshape; reflexivity |].
  assert (fst (main macTwoDisplays argvDefault emptyWorld) =
    Ok ["/work/DesktopImage_2024-01-20_14-30-05.png";
        "/work/DisplayImage1_2024-01-20_14-30-05.png";
        "/work/DisplayImage2_2024-01-20_14-30-05.png"]) as Hrun
    by (vm_compute; reflexivity).
  split; [exact Hrun | exact (Hsaved _ Hrun)].
Defined.

(* ================================================================= *)
(** ** The all-displays branch *)

Lemma logFiles_run l w :
  exists w', logFiles l w = (Ok tt, w') /\
             exists lines, console w' = (console w ++ lines)%list.
Proof.
  revert w. induction l as [| file l IH]; intros w; simpl.
  - exists w. split; [reflexivity |]. exists []. now rewrite app_nil_r.
  - destruct (IH (with_line (Out ("  - " ++ file)) w)) as (w' & Hrun & l2 & Hl2).
    exists w'. split; [exact Hrun |].
    exists (Out ("  - " ++ file) :: l2). rewrite Hl2. simpl.
    now rewrite <- app_assoc.
Qed.

Lemma reportSaved_run l w :
  exists w', reportSaved l w = (Ok l, w') /\
             exists lines, console w' = (console w ++ lines)%list.
Proof.
  unfold reportSaved, bind, console_log, ret.
  match goal with
  | |- context [logFiles l ?w0] =>
      destruct (logFiles_run l w0) as (w' & Hrun & l2 & Hl2)
  end.
  exists w'. rewrite Hrun. split; [reflexivity |].
  eexists. rewrite Hl2. simpl. rewrite <- !app_assoc. reflexivity.
Qed.

#[local] Arguments String.append !_ _ / : simpl nomatch.

(* ================================================================= *)
(** ** Temporary files *)

(** C1, where the code falls short of it.  Three runs.  On a Mac where
    the codec fails, [main] ends with code 1 and the screenshot that the
    capture tool wrote is still there: [fs.unlink] comes after
    [convertImage] and is skipped when the conversion throws.  On a
    Windows machine where the capture script fails to run, [main] ends
    with code 1 and the script is still there: the handler of
    [captureScreen] rethrows without removing it.  The handler of
    [getScreenInfo], in the same situation, does remove its script. *)
Theorem temporary_files_left_behind :
  (exists w',
     main macCodecFails argvJpeg emptyWorld = (Exit 1, w') /\
     "/tmp/screenshot_1700000000003.png" ∈ files w') /\
  (exists w',
     main windowsCaptureFails argvDefault emptyWorld = (Exit 1, w') /\
     "C:\Temp\capture_1700000000007.ps1" ∈ files w') /\
  (exists w',
     getScreenInfo windowsEnumerationFails emptyWorld = (Ok [], w') /\
     In (EvWriteFile "C:\Temp\getmonitors_1700000000000.ps1" GetMonitorsScript)
        (trace w') /\
     files w' = ∅).
Proof.
  split; [| split].
  - destruct (main macCodecFails argvJpeg emptyWorld) as [r w'] eqn:Hrun.
    vm_compute in Hrun. injection Hrun as <- <-.
    eexists. split; [reflexivity |].
    apply (bool_decide_unpack _). vm_compute. exact I.
  - destruct (main windowsCaptureFails argvDefault emptyWorld)
      as [r w'] eqn:Hrun.
    vm_compute in Hrun. injection Hrun as <- <-.
    eexists. split; [reflexivity |].
    apply (bool_decide_unpack _). vm_compute. exact I.
  - destruct (getScreenInfo windowsEnumerationFails emptyWorld)
      as [r w'] eqn:Hrun.
    vm_compute in Hrun. injection Hrun as <- <-.
    eexists. split; [reflexivity |]. split; [simpl; tauto | reflexivity].
Qed.

(* ================================================================= *)
(** ** More reasoning about computations *)

Section MoreCombinators.
Context {A B : Type}.
Implicit Types (m : M A) (k : A -> M B).

Lemma ensures_bind (Q : B -> World -> Prop) m k :
  (forall a, ensures Q (k a)) -> ensures Q (bind m k).
Proof.
  intros Hk w b w'. unfold bind.
  destruct (m w) as [[a | e | c] w1]; try discriminate. apply Hk.
Qed.

Lemma exits_on_error_bind m k :
  exits_on_error m -> (forall a, exits_on_error (k a)) ->
  exits_on_error (bind m k).
Proof.
  intros Hm Hk w c w'. unfold bind.
  destruct (m w) as [[a | e | c1] w1] eqn:Hrun.
  - apply Hk.
  - discriminate.
  - intros [= <- <-]. exact (Hm _ _ _ Hrun).
Qed.

Lemma never_throws_bind m k :
  never_throws m -> (forall a, never_throws (k a)) -> never_throws (bind m k).
Proof.
  intros Hm Hk w e w'. unfold bind.
  destruct (m w) as [[a | e1 | c] w1] eqn:Hrun.
  - apply Hk.
  - now apply Hm in Hrun.
  - discriminate.
Qed.

Lemma throws_only_bind (Q : string -> Prop) m k :
  throws_only Q m -> (forall a, throws_only Q (k a)) ->
  throws_only Q (bind m k).
Proof.
  intros Hm Hk w e w'. unfold bind.
  destruct (m w) as [[a | e1 | c] w1] eqn:Hrun.
  - apply Hk.
  - intros [= <- <-]. exact (Hm _ _ _ Hrun).
  - discriminate.
Qed.
End MoreCombinators.

Section MoreHandlers.
Context {A : Type}.
Implicit Types (m : M A) (h : string -> M A).

Lemma ensures_try_catch (Q : A -> World -> Prop) m h :
  ensures Q m -> (forall e, ensures Q (h e)) -> ensures Q (try_catch m h).
Proof.
  intros Hm Hh w a w'. unfold try_catch.
  destruct (m w) as [[a1 | e | c] w1] eqn:Hrun.
  - intros [= <- <-]. exact (Hm _ _ _ Hrun).
  - apply Hh.
  - discriminate.
Qed.

Lemma ensures_throw (Q : A -> World -> Prop) e : ensures Q (throw e).
Proof. intros w a w'. discriminate. Qed.

Lemma ensures_process_exit (Q : A -> World -> Prop) c :
  ensures Q (process_exit c).
Proof. intros w a w'. discriminate. Qed.

Lemma exits_on_error_try_catch m h :
  exits_on_error m -> (forall e, exits_on_error (h e)) ->
  exits_on_error (try_catch m h).
Proof.
  intros Hm Hh w c w'. unfold try_catch.
  destruct (m w) as [[a1 | e | c1] w1] eqn:Hrun.
  - discriminate.
  - apply Hh.
  - intros [= <- <-]. exact (Hm _ _ _ Hrun).
Qed.

Lemma no_exit_exits_on_error m : no_exit m -> exits_on_error m.
Proof. intros Hm w c w' Hrun. now apply Hm in Hrun. Qed.

Lemma total_never_throws m : total m -> never_throws m.
Proof.
  intros Hm w e w' Hrun. destruct (Hm w) as (a & w1 & Hok). congruence.
Qed.

Lemma never_throws_throws_only (Q : string -> Prop) m :
  never_throws m -> throws_only Q m.
Proof. intros Hm w e w' Hrun. now apply Hm in Hrun. Qed.
End MoreHandlers.

Section MorePrimitives.
Context {A : Type}.

Lemma total_no_exit (m : M A) : total m -> no_exit m.
Proof.
  intros Hm w c w' Hrun. destruct (Hm w) as (a & w1 & Hok). congruence.
Qed.

Lemma never_throws_try_catch (m : M A) h :
  (forall e, never_throws (h e)) -> never_throws (try_catch m h).
Proof.
  intros Hh w e w'. unfold try_catch.
  destruct (m w) as [[a | e1 | c] w1]; try discriminate. apply Hh.
Qed.

Lemma never_throws_ret (a : A) : never_throws (ret a).
Proof. intros w e w'. discriminate. Qed.

Lemma never_throws_process_exit c : never_throws (@process_exit A c).
Proof. intros w e w'. discriminate. Qed.

Lemma never_throws_fatal e : never_throws (@fatal A e).
Proof. intros w e' w'. discriminate. Qed.

Lemma exits_on_error_fatal e : exits_on_error (@fatal A e).
Proof.
  intros w c w'. unfold fatal, bind, console_error, process_exit.
  intros [= <- <-]. split; [reflexivity |].
  exists e. cbn. apply last_last.
Qed.

Lemma throws_only_ret (Q : string -> Prop) (a : A) : throws_only Q (ret a).
Proof. intros w e w'. discriminate. Qed.

Lemma throws_only_throw (Q : string -> Prop) e :
  Q e -> throws_only Q (@throw A e).
Proof. intros He w e' w'. now intros [= <- _]. Qed.

Lemma throws_only_try_catch (Q : string -> Prop) (m : M A) h :
  (forall e, throws_only Q (h e)) -> throws_only Q (try_catch m h).
Proof.
  intros Hh w e w'. unfold try_catch.
  destruct (m w) as [[a | e1 | c] w1]; try discriminate. apply Hh.
Qed.
End MorePrimitives.

Lemma never_throws_console_log s : never_throws (console_log s).
Proof. intros w e w'. discriminate. Qed.

Lemma never_throws_console_error s : never_throws (console_error s).
Proof. intros w e w'. discriminate. Qed.

Lemma never_throws_read_clock {A} (f : nat -> A) : never_throws (read_clock f).
Proof. intros w e w'. discriminate. Qed.

Lemma no_exit_logFiles l : no_exit (logFiles l).
Proof.
  intros w c w' Hrun. destruct (logFiles_run l w) as (w1 & Hok & _). congruence.
Qed.

Lemma no_exit_reportSaved l : no_exit (reportSaved l).
Proof.
  intros w c w' Hrun. destruct (reportSaved_run l w) as (w1 & Hok & _).
  congruence.
Qed.

Section MoreProgramFacts.
Context (E : Env).

Lemma no_exit_getScreenInfo : no_exit (getScreenInfo E).
Proof. apply total_no_exit, total_getScreenInfo. Qed.

Lemma no_exit_getTimestamp : no_exit (getTimestamp E).
Proof. unfold getTimestamp. prog_auto. Qed.

Lemma no_exit_captureEach dir f q ts monitors screenshots :
  no_exit (captureEach E dir f q ts monitors screenshots).
Proof.
  revert screenshots.
  induction monitors as [| monitor rest IH]; intros screenshots; simpl.
  - prog_auto.
  - pose proof (no_exit_captureDisplay E dir f q ts monitor).
    apply no_exit_bind; [prog_auto | intros ?; apply IH].
Qed.

Lemma no_exit_allDisplays dir f q ts monitors :
  no_exit (allDisplays E dir f q ts monitors).
Proof.
  unfold allDisplays.
  pose proof (no_exit_captureScreen E None).
  pose proof (fun s o => no_exit_placeScreenshot E f q s o).
  pose proof (no_exit_captureEach dir f q ts monitors).
  prog_auto.
Qed.

Lemma exits_on_error_singleDisplay dir f q ts monitors d :
  exits_on_error (singleDisplay E dir f q ts monitors d).
Proof.
  unfold singleDisplay.
  apply exits_on_error_bind.
  - destruct (lt d (Fin 1) || gt d (of_nat (length monitors))).
    + intros w c w'. unfold bind, console_error, process_exit.
      intros [= <- <-]. split; [reflexivity |].
      eexists. cbn. rewrite last_last. reflexivity.
    + apply no_exit_exits_on_error. prog_auto.
  - intros _. apply no_exit_exits_on_error.
    pose proof (fun m => no_exit_captureScreen E m).
    pose proof (fun s o => no_exit_placeScreenshot E f q s o).
    prog_auto.
Qed.
End MoreProgramFacts.

(* ================================================================= *)
(** ** How a run ends *)

Lemma never_throws_main (E : Env) (argv : Argv) : never_throws (main E argv).
Proof.
  unfold main. apply never_throws_try_catch. intros e.
  apply never_throws_fatal.
Qed.

Lemma exits_on_error_main (E : Env) (argv : Argv) :
  exits_on_error (main E argv).
Proof.
  unfold main. apply exits_on_error_try_catch;
    [| intros e; apply exits_on_error_fatal].
  apply exits_on_error_bind;
    [apply no_exit_exits_on_error, no_exit_getTimestamp | intros ts].
  apply exits_on_error_bind;
    [apply no_exit_exits_on_error; prog_auto | intros _].
  apply exits_on_error_bind;
    [apply no_exit_exits_on_error, no_exit_getScreenInfo | intros monitors].
  apply exits_on_error_bind;
    [| intros saved; apply no_exit_exits_on_error, no_exit_reportSaved].
  destruct (display argv) as [d |].
  - apply exits_on_error_singleDisplay.
  - apply no_exit_exits_on_error, no_exit_allDisplays.
Qed.

(** X1.  Whatever the machine, the options and the starting world, a run
    of [main] ends in one of two ways: it returns normally, or it ends the
    process with code 1 just after printing a line that starts with
    [Error: ] on the error stream.  It never rejects, so the handler
    attached to the call of [main] at the bottom of the file has nothing to
    catch, and no other exit code is ever used. *)
Theorem main_returns_or_exits_on_error (E : Env) (argv : Argv) (w : World) :
  (exists saved w', main E argv w = (Ok saved, w')) \/
  (exists w', main E argv w = (Exit 1, w') /\ endsOnError w').
Proof.
  destruct (main E argv w) as [[saved | e | c] w'] eqn:Hrun.
  - left. now exists saved, w'.
  - exfalso. exact (never_throws_main E argv _ _ _ Hrun).
  - right. exists w'.
    destruct (exits_on_error_main E argv _ _ _ Hrun) as [-> Hline].
    now split.
Qed.

(* ================================================================= *)
(** ** The files a successful run reports *)

Lemma try_catch_ok_inv {A} (m : M A) h w a w' :
  try_catch m h w = (Ok a, w') ->
  m w = (Ok a, w') \/ exists e w1, m w = (Throw e, w1) /\ h e w1 = (Ok a, w').
Proof.
  unfold try_catch. destruct (m w) as [[a1 | e | c] w1].
  - now left.
  - right. now exists e, w1.
  - discriminate.
Qed.

Lemma logFiles_console l w :
  exists w', logFiles l w = (Ok tt, w') /\
    console w' = (console w ++ map (fun file => Out ("  - " ++ file)) l)%list.
Proof.
  revert w. induction l as [| file l IH]; intros w; simpl.
  - exists w. split; [reflexivity |]. now rewrite app_nil_r.
  - destruct (IH (with_line (Out ("  - " ++ file)) w)) as (w' & Hrun & Hl).
    exists w'. split; [exact Hrun |].
    rewrite Hl. simpl. now rewrite <- app_assoc.
Qed.

Lemma reportSaved_console l w :
  exists w', reportSaved l w = (Ok l, w') /\
             console w' = (console w ++ reportLines l)%list.
Proof.
  unfold reportSaved, bind, console_log, ret.
  match goal with
  | |- context [logFiles l ?w0] =>
      destruct (logFiles_console l w0) as (w' & Hrun & Hl)
  end.
  exists w'. rewrite Hrun. split; [reflexivity |].
  rewrite Hl. simpl. rewrite <- !app_assoc. reflexivity.
Qed.

Section SuccessfulRuns.
Context (E : Env).

(** A run of [main] that returns went through the enumeration, through
    one of the two branches and through the report. *)
Lemma main_ok_inv argv w saved w' :
  main E argv w = (Ok saved, w') ->
  exists monitors w2 w3,
    enumerationPhase E argv w = (Ok monitors, w2) /\
    match display argv with
    | Some displayNumber =>
        singleDisplay E (outputDirOf E argv) (format argv) (quality argv)
          (timestampAt E w) monitors displayNumber
    | None =>
        allDisplays E (outputDirOf E argv) (format argv) (quality argv)
          (timestampAt E w) monitors
    end w2 = (Ok saved, w3) /\
    console w' = (console w3 ++ reportLines saved)%list.
Proof.
  unfold main. intros Hrun.
  apply try_catch_ok_inv in Hrun as [Hrun | (e & w1 & _ & Hrun)];
    [| discriminate].
  apply bind_ok_inv in Hrun as (ts & w0 & Hts & Hrun). cbv zeta in Hrun.
  apply bind_ok_inv in Hrun as ([] & w1 & Hmk & Hrun).
  apply bind_ok_inv in Hrun as (monitors & w2 & Hmon & Hrun).
  apply bind_ok_inv in Hrun as (files & w3 & Hbranch & Hrun).
  destruct (reportSaved_console files w3) as (w4 & Hrep & Hcon).
  rewrite Hrep in Hrun. injection Hrun as <- <-.
  exists monitors, w2, w3. split; [| split].
  - unfold enumerationPhase.
    rewrite (bind_ok _ _ _ _ _ Hts), (bind_ok _ _ _ _ _ Hmk). exact Hmon.
  - injection Hts as <- _. exact Hbranch.
  - exact Hcon.
Qed.

Context (dir fmt : string) (q : number) (ts : Timestamp).

Local Abbreviation fileOf := (fun m => displayFile E dir fmt ts (index m)).

Lemma singleDisplay_saved monitors d :
  returns (fun saved => exists m, m ∈ monitors /\
                          strict_eq (of_nat (index m)) d = true /\
                          saved = [fileOf m])
          (singleDisplay E dir fmt q ts monitors d).
Proof.
  unfold singleDisplay.
  apply returns_bind. intros _. apply returns_bind. intros _.
  apply returns_bind. intros shot.
  destruct (List.find _ monitors) as [m |] eqn:Hfind.
  - apply find_some in Hfind as [Hin Heq].
    apply (returns_bind_of (fun i => i = index m));
      [now apply returns_ret | intros i ->].
    apply returns_bind. intros _. apply returns_bind. intros _.
    apply returns_ret. exists m. split; [| now split].
    now apply list_elem_of_In.
  - apply (returns_bind_of (fun _ => False)); [apply returns_throw | tauto].
Qed.

Lemma captureEach_saved_sublist monitors screenshots :
  returns (fun saved => exists shown, sublist shown monitors /\
                          saved = (screenshots ++ map fileOf shown)%list)
          (captureEach E dir fmt q ts monitors screenshots).
Proof.
  revert screenshots.
  induction monitors as [| monitor rest IH]; intros screenshots; simpl.
  - apply returns_ret. exists []. split; [constructor |].
    now rewrite app_nil_r.
  - apply (returns_bind_of
             (fun acc => acc = (screenshots ++ [fileOf monitor])%list
                         \/ acc = screenshots)).
    + apply returns_try_catch.
      * apply (returns_bind_of _ _ _ _ (returns_captureDisplay E dir fmt q ts monitor)).
        intros out ->. apply returns_ret. now left.
      * intros e. apply returns_bind. intros _. apply returns_ret. now right.
    + intros acc Hacc w saved w' Hrun.
      destruct (IH acc w saved w' Hrun) as (shown & Hsub & ->).
      destruct Hacc as [-> | ->].
      * exists (monitor :: shown). split; [now constructor |].
        simpl. now rewrite <- app_assoc.
      * exists shown. split; [now constructor | reflexivity].
Qed.

Lemma allDisplays_saved monitors :
  returns (fun saved => exists shown, sublist shown monitors /\
             saved = desktopFile E dir fmt ts :: map fileOf shown)
          (allDisplays E dir fmt q ts monitors).
Proof.
  unfold allDisplays.
  apply returns_bind. intros _. apply returns_bind. intros shot.
  apply returns_bind. intros _. apply returns_bind. intros _.
  destruct monitors as [| monitor rest].
  - apply returns_ret. exists []. split; [constructor | reflexivity].
  - apply returns_bind. intros _.
    apply (captureEach_saved_sublist (monitor :: rest)
             [desktopFile E dir fmt ts]).
Qed.
End SuccessfulRuns.

(** X2.  When [--display d] is given and the run returns, exactly one file
    is reported as saved: the [DisplayImage] file of an enumerated monitor
    whose index is [d]. *)
Theorem main_single_display_saves_one (E : Env) (argv : Argv) (w w' : World)
    (d : number) (saved : list string) :
  display argv = Some d ->
  main E argv w = (Ok saved, w') ->
  exists monitors w2 m,
    enumerationPhase E argv w = (Ok monitors, w2) /\
    m ∈ monitors /\
    strict_eq (of_nat (index m)) d = true /\
    saved = [displayFile E (outputDirOf E argv) (format argv)
               (timestampAt E w) (index m)].
Proof.
  intros Hd Hrun.
  apply main_ok_inv in Hrun as (monitors & w2 & w3 & Henum & Hbranch & _).
  rewrite Hd in Hbranch.
  apply singleDisplay_saved in Hbranch as (m & Hin & Heq & ->).
  now exists monitors, w2, m.
Qed.

Lemma main_single_display_saves_one_witness :
  exists w',
    main macTwoDisplays argvDisplay2 emptyWorld
      = (Ok ["/work/DisplayImage2_2024-01-20_14-30-05.png"], w') /\
    exists monitors w2 m,
      enumerationPhase macTwoDisplays argvDisplay2 emptyWorld
        = (Ok monitors, w2) /\
      m ∈ monitors /\
      strict_eq (of_nat (index m)) (of_nat 2) = true /\
      ["/work/DisplayImage2_2024-01-20_14-30-05.png"]
        = [displayFile macTwoDisplays (outputDirOf macTwoDisplays argvDisplay2)
             (format argvDisplay2) (timestampAt macTwoDisplays emptyWorld)
             (index m)].
Proof.
  destruct (main macTwoDisplays argvDisplay2 emptyWorld) as [r w'] eqn:Hrun.
  assert (r = Ok ["/work/DisplayImage2_2024-01-20_14-30-05.png"]) as ->.
  { pose proof Hrun as H. vm_compute in H. injection H as <- _. reflexivity. }
  exists w'. split; [reflexivity |].
  exact (main_single_display_saves_one macTwoDisplays argvDisplay2 emptyWorld
           w' (of_nat 2) _ eq_refl Hrun).
Defined.

(** X4.  A run that returns ends its output with the closing report: the
    line [✓ All screenshots captured successfully!] after a blank line,
    the line [Files saved:], and one line per saved file, in order. *)
Theorem main_prints_report (E : Env) (argv : Argv) (w w' : World)
    (saved : list string) :
  main E argv w = (Ok saved, w') ->
  exists before, console w' = (before ++ reportLines saved)%list.
Proof.
  intros Hrun.
  apply main_ok_inv in Hrun as (monitors & w2 & w3 & _ & _ & Hcon).
  now exists (console w3).
Qed.

Lemma main_prints_report_witness :
  exists w',
    main macTwoDisplays argvDisplay2 emptyWorld
      = (Ok ["/work/DisplayImage2_2024-01-20_14-30-05.png"], w') /\
    exists before,
      console w' =
        (before
           ++ reportLines ["/work/DisplayImage2_2024-01-20_14-30-05.png"])%list.
Proof.
  destruct (main macTwoDisplays argvDisplay2 emptyWorld) as [r w'] eqn:Hrun.
  assert (r = Ok ["/work/DisplayImage2_2024-01-20_14-30-05.png"]) as ->.
  { pose proof Hrun as H. vm_compute in H. injection H as <- _. reflexivity. }
  exists w'. split; [reflexivity |].
  exact (main_prints_report macTwoDisplays argvDisplay2 emptyWorld w' _ Hrun).
Defined.

(* ================================================================= *)
(** ** Display numbers *)

Lemma indexed_nil : indexed [].
Proof. intros i m. now rewrite lookup_nil. Qed.

Lemma indexed_parseWindowsMonitors stdout :
  indexed (parseWindowsMonitors stdout).
Proof. intros i m. apply reindex_lookup. Qed.

Lemma parseDarwinDisplay_index i display m :
  parseDarwinDisplay i display = Some m -> index m = i + 1 /\ atOrigin m.
Proof.
  unfold parseDarwinDisplay.
  destruct (resolutionPart 0 (of_nat 1920) display),
    (resolutionPart 1 (of_nat 1080) display);
    try discriminate.
  intros [= <-]. now repeat split.
Qed.

Lemma parseDarwinMonitors_lookup data l i m :
  parseDarwinMonitors data = Some l -> l !! i = Some m ->
  index m = i + 1 /\ atOrigin m.
Proof.
  unfold parseDarwinMonitors.
  destruct (get_prop "SPDisplaysDataType" data) as [v |]; [| discriminate].
  destruct (get_index 0 v) as [[first |] |]; try discriminate.
  destruct (get_prop "spdisplays_ndrvs" first) as [displays |];
    [| discriminate].
  destruct (truthy displays).
  - destruct displays as [[| | | | entries |] |]; try discriminate.
    intros Hmap Hl. apply mapM_Some in Hmap.
    destruct (Forall2_lookup_r _ _ _ _ _ Hmap Hl) as (o & Ho & Hid).
    rewrite list_lookup_imap in Ho.
    destruct (entries !! i) as [display |]; [| discriminate].
    injection Ho as <-. now apply parseDarwinDisplay_index in Hid.
  - intros [= <-]. now rewrite lookup_nil.
Qed.

Lemma indexed_parseXrandrLines lines monitors :
  indexed monitors -> indexed (parseXrandrLines lines monitors).
Proof.
  revert monitors. induction lines as [| line rest IH]; intros monitors Hm;
    simpl; [exact Hm |].
  destruct (matchConnected line) as [[[[g2 g3] g4] g5] |]; [| now apply IH].
  apply IH. intros i m Hi.
  destruct (decide (i < length monitors)%nat) as [Hlt | Hge].
  - rewrite lookup_app_l in Hi by exact Hlt. now apply Hm.
  - rewrite lookup_app_r in Hi by lia.
    destruct (i - length monitors)%nat as [| k] eqn:Hk; [| discriminate].
    injection Hi as <-. simpl. lia.
Qed.

Section Numbering.
Context (E : Env).

Lemma returns_indexed_getScreenInfo : returns indexed (getScreenInfo E).
Proof.
  unfold getScreenInfo. apply returns_bind. intros platform.
  destruct (isWindowsFamily platform).
  { pose proof indexed_nil. pose proof indexed_parseWindowsMonitors.
    prog_auto. }
  destruct (String.eqb platform "darwin").
  { apply returns_try_catch;
      [| intros e; apply returns_ret, indexed_nil].
    apply returns_bind. intros [stdout stderr].
    destruct (JSON_parse E stdout) as [data |]; [| apply returns_throw].
    destruct (parseDarwinMonitors data) as [displays |] eqn:Hparse;
      [| apply returns_throw].
    apply returns_ret. intros i m Hi.
    now destruct (parseDarwinMonitors_lookup _ _ _ _ Hparse Hi). }
  destruct (String.eqb platform "linux").
  { apply returns_try_catch;
      [| intros e; apply returns_ret, indexed_nil].
    apply returns_bind. intros [stdout stderr].
    apply returns_ret, indexed_parseXrandrLines, indexed_nil. }
  apply returns_ret, indexed_nil.
Qed.
End Numbering.

Lemma of_nat_strict_eq a b : strict_eq (of_nat a) (of_nat b) = Nat.eqb a b.
Proof.
  unfold strict_eq, of_nat.
  destruct (Nat.eqb_spec a b) as [-> | Hne].
  - apply Qeq_bool_iff. reflexivity.
  - destruct (Qeq_bool _ _) eqn:Heq; [| reflexivity].
    apply Qeq_bool_iff in Heq. unfold Qeq in Heq. simpl in Heq. lia.
Qed.

Lemma find_indexed_from (l : list Monitor) off k m :
  (forall i m, l !! i = Some m -> index m = off + i + 1) ->
  l !! k = Some m ->
  List.find (fun m => strict_eq (of_nat (index m)) (of_nat (off + k + 1))) l
    = Some m.
Proof.
  revert off k. induction l as [| a l IH]; intros off k Hidx Hk;
    [now rewrite lookup_nil in Hk |].
  cbn [List.find]. rewrite of_nat_strict_eq. destruct k as [| k].
  - injection Hk as ->. rewrite (Hidx 0 m eq_refl).
    now rewrite Nat.eqb_refl.
  - rewrite (Hidx 0 a eq_refl).
    destruct (Nat.eqb_spec (off + 0 + 1) (off + S k + 1)) as [Heq | _];
      [lia |].
    replace (off + S k + 1) with (S off + k + 1) by lia.
    apply IH; [| exact Hk].
    intros i m' Hi. rewrite (Hidx (S i) m' Hi). lia.
Qed.

(** X5.  On every platform the monitors that [getScreenInfo] returns are
    numbered [1..N] in the order of the list, so each display number [k]
    from 1 to N designates exactly one monitor: the lookup
    [monitors.find(m => m.index === k)] made by [main] yields the monitor
    at position [k], whose index is [k]. *)
Theorem getScreenInfo_numbers_displays (E : Env) (w w' : World)
    (monitors : list Monitor) (k : nat) :
  getScreenInfo E w = (Ok monitors, w') ->
  1 <= k <= length monitors ->
  exists m,
    monitors !! (k - 1) = Some m /\
    index m = k /\
    List.find (fun m => strict_eq (of_nat (index m)) (of_nat k)) monitors
      = Some m.
Proof.
  intros Hrun Hk.
  pose proof (returns_indexed_getScreenInfo E _ _ _ Hrun) as Hidx.
  destruct (lookup_lt_is_Some_2 monitors (k - 1)) as [m Hm]; [lia |].
  exists m. split; [exact Hm |]. split.
  - rewrite (Hidx _ _ Hm). lia.
  - assert (forall i m', monitors !! i = Some m' -> index m' = 0 + i + 1)
      as Hfrom by (intros i m' Hi; now rewrite (Hidx _ _ Hi)).
    pose proof (find_indexed_from monitors 0 (k - 1) m Hfrom Hm) as Hfind.
    replace (0 + (k - 1) + 1) with k in Hfind by lia. exact Hfind.
Qed.

Lemma getScreenInfo_numbers_displays_witness :
  exists monitors w',
    getScreenInfo windowsThreeScreens emptyWorld = (Ok monitors, w') /\
    1 <= 3 <= length monitors /\
    exists m,
      monitors !! (3 - 1) = Some m /\
      index m = 3 /\
      List.find (fun m => strict_eq (of_nat (index m)) (of_nat 3)) monitors
        = Some m.
Proof.
  destruct (getScreenInfo windowsThreeScreens emptyWorld) as [r w'] eqn:Hrun.
  assert (exists a b c, r = Ok [a; b; c]) as (a & b & c & ->).
  { pose proof Hrun as H. vm_compute in H. injection H as <- _.
    now eexists _, _, _. }
  exists [a; b; c], w'. split; [reflexivity |].
  assert (1 <= 3 <= length [a; b; c]) as Hk by (simpl; lia).
  split; [exact Hk |].
  exact (getScreenInfo_numbers_displays windowsThreeScreens emptyWorld w'
           [a; b; c] 3 Hrun Hk).
Defined.

(** X6.  On macOS every enumerated monitor is placed at the origin:
    whatever the display profiler reports, [x] and [y] are 0, so the
    capture rectangle of every display starts at the top left corner of
    the main screen. *)
Theorem getScreenInfo_darwin_at_origin (E : Env) (w w' : World)
    (monitors : list Monitor) :
  os_platform E = "darwin" ->
  getScreenInfo E w = (Ok monitors, w') ->
  Forall atOrigin monitors.
Proof.
  intros Hp Hrun. unfold getScreenInfo in Hrun.
  apply bind_ok_inv in Hrun as (platform & w1 & Hdet & Hrun).
  unfold detectPlatform in Hdet. rewrite Hp in Hdet.
  change (String.eqb "darwin" "linux") with false in Hdet.
  injection Hdet as <- <-.
  change (isWindowsFamily "darwin") with false in Hrun.
  change (String.eqb "darwin" "darwin") with true in Hrun.
  cbv iota in Hrun.
  apply try_catch_ok_inv in Hrun as [Hrun | (e & w1 & _ & Hrun)];
    [| injection Hrun as <- _; constructor].
  apply bind_ok_inv in Hrun as ([stdout stderr] & w1 & _ & Hrun).
  destruct (JSON_parse E stdout) as [data |]; [| discriminate].
  destruct (parseDarwinMonitors data) as [displays |] eqn:Hparse;
    [| discriminate].
  injection Hrun as <- _.
  apply Forall_lookup. intros i m Hi.
  now destruct (parseDarwinMonitors_lookup _ _ _ _ Hparse Hi).
Qed.

Lemma getScreenInfo_darwin_at_origin_witness :
  exists w',
    os_platform macTwoDisplays = "darwin" /\
    getScreenInfo macTwoDisplays emptyWorld
      = (Ok [firstDisplay; secondDisplay], w') /\
    Forall atOrigin [firstDisplay; secondDisplay].
Proof.
  destruct (getScreenInfo macTwoDisplays emptyWorld) as [r w'] eqn:Hrun.
  assert (r = Ok [firstDisplay; secondDisplay]) as ->.
  { pose proof Hrun as H. vm_compute in H. injection H as <- _. reflexivity. }
  exists w'. split; [reflexivity |]. split; [reflexivity |].
  exact (getScreenInfo_darwin_at_origin macTwoDisplays emptyWorld w' _
           eq_refl Hrun).
Defined.

(* ================================================================= *)
(** ** From the lines of the enumeration script to the monitors *)

Lemma geometry_reindex l : map geometry (reindex l) = map geometry l.
Proof.
  apply list_eq. intros i. unfold reindex.
  rewrite !list_lookup_fmap, list_lookup_imap.
  now destruct (l !! i).
Qed.

(** X7.  On the Windows family, sorting and renumbering neither drop,
    duplicate nor alter a rectangle: the rectangles of the returned
    monitors are, up to their order, those read from the lines of the
    output that have a positive width and a positive height. *)
Theorem parseWindowsMonitors_keeps_rectangles (stdout : string) :
  Permutation
    (map geometry (parseWindowsMonitors stdout))
    (map geometry
       (List.filter positiveSize
          (imap parseMonitorLine (outputLines stdout)))).
Proof.
  unfold parseWindowsMonitors. cbv zeta. rewrite geometry_reindex.
  apply Permutation_map, Permutation_sym, Array_sort_perm.
Qed.

Lemma nth_short {A} (l : list A) n d : length l <= n -> nth n l d = d.
Proof. apply nth_overflow. Qed.

(** X8.  On the Windows family every returned monitor was read from a
    line of the output that has at least four comma-separated fields; its
    rectangle is made of the first four fields read by [Number], and any
    further field is ignored.  A line with fewer fields (such as the
    status printed by the DPI call) never yields a monitor. *)
Theorem parseWindowsMonitors_provenance (stdout : string) (m : Monitor) :
  m ∈ parseWindowsMonitors stdout ->
  exists line fx fy fw fh more,
    line ∈ outputLines stdout /\
    split "," (trim line) = fx :: fy :: fw :: fh :: more /\
    geometry m = (Number fx, Number fy, Number fw, Number fh).
Proof.
  intros Hm. unfold parseWindowsMonitors in Hm.
  apply reindex_coords in Hm as (m0 & Hm0 & Hx & Hy & Hw & Hh).
  apply list_elem_of_In in Hm0.
  apply (Permutation_in _ (Permutation_sym (Array_sort_perm _ _))) in Hm0.
  apply filter_In in Hm0 as [Hin Hpos].
  apply list_elem_of_In, list_elem_of_lookup in Hin as [i Hi].
  rewrite list_lookup_imap in Hi.
  destruct (outputLines stdout !! i) as [line |] eqn:Hline; [| discriminate].
  injection Hi as <-.
  unfold positiveSize, parseMonitorLine in Hpos. cbn [width height] in Hpos.
  apply andb_true_iff in Hpos as [_ Hpos].
  unfold geometry. rewrite Hx, Hy, Hw, Hh. unfold parseMonitorLine.
  cbn [x y width height].
  destruct (split "," (trim line)) as [| fx [| fy [| fw [| fh more]]]]
    eqn:Hfields; try discriminate Hpos.
  exists line, fx, fy, fw, fh, more.
  split; [eapply list_elem_of_lookup_2, Hline |].
  split; [exact Hfields | reflexivity].
Qed.

Lemma parseWindowsMonitors_provenance_witness :
  exists m line fx fy fw fh more,
    m ∈ parseWindowsMonitors ("0" ++ newline ++ "0,0,1920,1080,primary") /\
    line ∈ outputLines ("0" ++ newline ++ "0,0,1920,1080,primary") /\
    split "," (trim line) = fx :: fy :: fw :: fh :: more /\
    geometry m = (Number fx, Number fy, Number fw, Number fh).
Proof.
  assert ({| index := 1; x := Fin 0; y := Fin 0;
             width := of_nat 1920; height := of_nat 1080 |}
          ∈ parseWindowsMonitors ("0" ++ newline ++ "0,0,1920,1080,primary"))
    as Hm.
  { apply list_elem_of_In. vm_compute. left. reflexivity. }
  destruct (parseWindowsMonitors_provenance _ _ Hm)
    as (line & fx & fy & fw & fh & more & H).
  eexists. exists line, fx, fy, fw, fh, more. split; [exact Hm | exact H].
Defined.

(* ================================================================= *)
(** ** The geometry read from [xrandr] *)

Section RegexFacts.
Context {R : Type}.

Lemma re_search_some (m : string -> option R) s r :
  re_search m s = Some r -> exists s', m s' = Some r.
Proof.
  induction s as [| c s IH]; simpl.
  - destruct (m "") eqn:Hm; [| discriminate].
    intros [= <-]. now exists "".
  - destruct (m (String c s)) eqn:Hm; [| exact IH].
    intros [= <-]. now exists (String c s).
Qed.

Lemma re_lit_some p (k : string -> option R) s r :
  re_lit p k s = Some r -> exists rest, k rest = Some r.
Proof.
  unfold re_lit. destruct (String.prefix p s); [| discriminate].
  intros Hk. eexists. exact Hk.
Qed.

Lemma re_star_lazy_some cls (k : string -> option R) s r :
  re_star_lazy cls k s = Some r -> exists s', k s' = Some r.
Proof.
  induction s as [| c s IH]; simpl.
  - destruct (k "") eqn:Hk; [| discriminate].
    intros [= <-]. now exists "".
  - destruct (k (String c s)) eqn:Hk.
    + intros [= <-]. now exists (String c s).
    + destruct (cls c); [exact IH | discriminate].
Qed.

Lemma re_star_greedy_some cls (k : string -> string -> option R) acc s r :
  re_star_greedy cls k acc s = Some r ->
  exists g rest, forallb cls g = true /\
                 k (string_of_list_ascii (rev acc ++ g)) rest = Some r.
Proof.
  revert acc. induction s as [| c s IH]; intros acc; simpl.
  - intros Hk. exists [], "". now rewrite app_nil_r.
  - destruct (cls c) eqn:Hc.
    + destruct (re_star_greedy cls k (c :: acc) s) as [r' |] eqn:Hrec.
      * intros [= <-]. apply IH in Hrec as (g & rest & Hg & Hk).
        exists (c :: g), rest. simpl in Hk |- *. rewrite Hc, Hg.
        now rewrite <- app_assoc in Hk.
      * intros Hk. exists [], (String c s). now rewrite app_nil_r.
    + intros Hk. exists [], (String c s). now rewrite app_nil_r.
Qed.

Lemma re_plus_group_some cls (k : string -> string -> option R) s r :
  re_plus_group cls k s = Some r ->
  exists c g rest, forallb cls (c :: g) = true /\
                   k (string_of_list_ascii (c :: g)) rest = Some r.
Proof.
  unfold re_plus_group. destruct s as [| c s]; [discriminate |].
  destruct (cls c) eqn:Hc; [| discriminate].
  intros Hrun. apply re_star_greedy_some in Hrun as (g & rest & Hg & Hk).
  exists c, g, rest. simpl. now rewrite Hc, Hg.
Qed.
End RegexFacts.

Lemma re_digit_cases c :
  re_digit c = true ->
  In c ["0"; "1"; "2"; "3"; "4"; "5"; "6"; "7"; "8"; "9"]%char.
Proof.
  destruct c as [[] [] [] [] [] [] [] []]; vm_compute; intros H;
    try discriminate H; tauto.
Qed.

Lemma digit_of_digit c :
  re_digit c = true -> exists v, digit_of c = Some v /\ (0 <= v < 10)%Z.
Proof.
  intros Hc. apply re_digit_cases in Hc. simpl in Hc.
  repeat (destruct Hc as [<- | Hc];
          [eexists; split; [vm_compute; reflexivity | lia] |]).
  destruct Hc.
Qed.

Lemma digits_prefix_all l len acc :
  forallb re_digit l = true -> (0 <= acc)%Z ->
  exists v, (0 <= v)%Z /\
    digits_prefix 10 (string_of_list_ascii l) len acc
      = ((len + length l)%nat, v, "").
Proof.
  revert len acc. induction l as [| c l IH]; intros len acc Hl Hacc; simpl.
  - exists acc. split; [exact Hacc |]. now rewrite Nat.add_0_r.
  - simpl in Hl. apply andb_true_iff in Hl as [Hc Hl].
    destruct (digit_of_digit c Hc) as (v & -> & Hv).
    destruct (Z.ltb_spec v 10) as [_ | Hge]; [| lia].
    destruct (IH (S len) (acc * 10 + v)%Z Hl) as (v' & Hv' & ->); [lia |].
    exists v'. split; [exact Hv' |]. f_equal. f_equal. lia.
Qed.

Lemma round_binary64_nonneg z :
  (0 <= z)%Z -> naturalOrInfinite (round_binary64 z).
Proof.
  intros Hz. unfold round_binary64.
  set (a := Z.abs z). set (e := (Z.log2 a - 52)%Z).
  set (q := Z.shiftr a e).
  set (q' := if _ : bool then (q + 1)%Z else q).
  set (m := if (e <=? 0)%Z then a else Z.shiftl q' e).
  assert (0 <= m)%Z as Hm.
  { subst m. destruct (e <=? 0)%Z; [apply Z.abs_nonneg |].
    apply Z.shiftl_nonneg.
    assert (0 <= q)%Z by (apply Z.shiftr_nonneg, Z.abs_nonneg).
    subst q'. destruct (_ : bool); lia. }
  destruct (2 ^ 1024 <=? m)%Z.
  - right. destruct (Z.ltb_spec z 0); [lia | reflexivity].
  - left. exists (Z.to_nat (Z.sgn z * m)). unfold of_Z, of_nat.
    rewrite Z2Nat.id; [reflexivity |].
    apply Z.mul_nonneg_nonneg; [apply Z.sgn_nonneg, Hz | exact Hm].
Qed.

(** [parseInt] on a non-empty run of decimal digits. *)
Lemma parseInt_digits c l :
  forallb re_digit (c :: l) = true ->
  naturalOrInfinite (parseInt (string_of_list_ascii (c :: l))).
Proof.
  intros Hall.
  destruct (digits_prefix_all (c :: l) 0 0 Hall) as (v & Hv & Hrun); [lia |].
  assert (parseInt (string_of_list_ascii (c :: l)) = round_binary64 (1 * v))
    as ->.
  { unfold parseInt.
    assert (trimStart (string_of_list_ascii (c :: l))
            = string_of_list_ascii (c :: l)) as ->.
    { simpl in Hall |- *. apply andb_true_iff in Hall as [Hc _].
      apply re_digit_cases in Hc. simpl in Hc.
      repeat (destruct Hc as [<- | Hc]; [reflexivity |]). destruct Hc. }
    assert (take_sign (string_of_list_ascii (c :: l))
            = (1%Z, string_of_list_ascii (c :: l))) as ->.
    { simpl in Hall |- *. apply andb_true_iff in Hall as [Hc _].
      apply re_digit_cases in Hc. simpl in Hc.
      repeat (destruct Hc as [<- | Hc]; [reflexivity |]). destruct Hc. }
    assert (match string_of_list_ascii (c :: l) with
            | String "0" (String c2 r) =>
                if Ascii.eqb c2 "x" || Ascii.eqb c2 "X"
                then (16%Z, r) else (10%Z, string_of_list_ascii (c :: l))
            | _ => (10%Z, string_of_list_ascii (c :: l))
            end = (10%Z, string_of_list_ascii (c :: l))) as ->.
    { simpl in Hall |- *. apply andb_true_iff in Hall as [Hc Hl].
      destruct l as [| c2 l]; simpl.
      - apply re_digit_cases in Hc. simpl in Hc.
        repeat (destruct Hc as [<- | Hc]; [reflexivity |]). destruct Hc.
      - simpl in Hl. apply andb_true_iff in Hl as [Hc2 _].
        apply re_digit_cases in Hc2. simpl in Hc2.
        apply re_digit_cases in Hc. simpl in Hc.
        repeat (destruct Hc as [<- | Hc]; [try reflexivity |]);
          [| destruct Hc].
        repeat (destruct Hc2 as [<- | Hc2]; [reflexivity |]). destruct Hc2. }
    rewrite Hrun. reflexivity. }
  apply round_binary64_nonneg. lia.
Qed.

Lemma matchConnected_digits line g2 g3 g4 g5 :
  matchConnected line = Some (g2, g3, g4, g5) ->
  naturalOrInfinite (parseInt g2) /\ naturalOrInfinite (parseInt g3) /\
  naturalOrInfinite (parseInt g4) /\ naturalOrInfinite (parseInt g5).
Proof.
  unfold matchConnected. intros H.
  apply re_search_some in H as (s0 & H).
  apply re_plus_group_some in H as (c1 & l1 & r1 & _ & H).
  apply re_lit_some in H as (s1 & H).
  apply re_star_lazy_some in H as (s2 & H).
  apply re_plus_group_some in H as (c2 & l2 & r2 & H2 & H).
  apply re_lit_some in H as (s3 & H).
  apply re_plus_group_some in H as (c3 & l3 & r3 & H3 & H).
  apply re_lit_some in H as (s4 & H).
  apply re_plus_group_some in H as (c4 & l4 & r4 & H4 & H).
  apply re_lit_some in H as (s5 & H).
  apply re_plus_group_some in H as (c5 & l5 & r5 & H5 & H).
  injection H as <- <- <- <-.
  repeat split; now apply parseInt_digits.
Qed.

Lemma parseXrandrLines_natural lines monitors :
  Forall naturalGeometry monitors ->
  Forall naturalGeometry (parseXrandrLines lines monitors).
Proof.
  revert monitors. induction lines as [| line rest IH]; intros monitors Hm;
    simpl; [exact Hm |].
  destruct (matchConnected line) as [[[[g2 g3] g4] g5] |] eqn:Hmatch;
    [| now apply IH].
  apply IH, Forall_app_2; [exact Hm |].
  apply matchConnected_digits in Hmatch as (H2 & H3 & H4 & H5).
  constructor; [| constructor]. now repeat split.
Qed.

(** X9.  On native Linux every enumerated monitor has a rectangle made of
    non-negative integers, or of [Infinity] where a run of digits is too
    long for a binary64 number: the four numbers come from non-empty runs
    of decimal digits of an [xrandr] line, so none of them is [NaN],
    negative or fractional.  (Zero is possible.) *)
Theorem getScreenInfo_linux_natural_geometry (E : Env) (w w1 w' : World)
    (monitors : list Monitor) :
  detectPlatform E w = (Ok "linux", w1) ->
  getScreenInfo E w = (Ok monitors, w') ->
  Forall naturalGeometry monitors.
Proof.
  intros Hp Hrun. unfold getScreenInfo in Hrun.
  rewrite (bind_ok _ _ _ _ _ Hp) in Hrun.
  change (isWindowsFamily "linux") with false in Hrun.
  change (String.eqb "linux" "darwin") with false in Hrun.
  change (String.eqb "linux" "linux") with true in Hrun.
  cbv iota in Hrun.
  apply try_catch_ok_inv in Hrun as [Hrun | (e & w2 & _ & Hrun)];
    [| injection Hrun as <- _; constructor].
  apply bind_ok_inv in Hrun as ([stdout stderr] & w2 & _ & Hrun).
  injection Hrun as <- _.
  apply parseXrandrLines_natural. constructor.
Qed.

Lemma getScreenInfo_linux_natural_geometry_witness :
  exists w1 monitors w',
    detectPlatform linuxZeroSize emptyWorld = (Ok "linux", w1) /\
    getScreenInfo linuxZeroSize emptyWorld = (Ok monitors, w') /\
    length monitors = 2 /\
    Forall naturalGeometry monitors.
Proof.
  destruct (detectPlatform linuxZeroSize emptyWorld) as [p w1] eqn:Hp.
  assert (p = Ok "linux") as ->.
  { pose proof Hp as H. vm_compute in H. injection H as <- _. reflexivity. }
  destruct (getScreenInfo linuxZeroSize emptyWorld) as [r w'] eqn:Hrun.
  assert (exists a b, r = Ok [a; b]) as (a & b & ->).
  { pose proof Hrun as H. vm_compute in H. injection H as <- _.
    now eexists _, _. }
  exists w1, [a; b], w'. split; [reflexivity |]. split; [reflexivity |].
  split; [reflexivity |].
  exact (getScreenInfo_linux_natural_geometry linuxZeroSize emptyWorld w1 w'
           _ Hp Hrun).
Defined.

(* ================================================================= *)
(** ** Placing a screenshot *)

(** X10.  A placement that succeeds moves the screenshot: the temporary
    file existed before, and afterwards the set of existing paths is the
    former one with the output file added and the temporary file removed;
    no other path is touched, whatever the format. *)
Theorem placeScreenshot_moves (E : Env) (format : string) (quality : number)
    (src dst : string) (w w' : World) :
  placeScreenshot E format quality src dst w = (Ok tt, w') ->
  src ∈ files w /\ files w' = ({[ dst ]} ∪ files w) ∖ {[ src ]}.
Proof.
  unfold placeScreenshot, convertImage, bind, try_catch, throw,
    fs_copyFile, fs_unlink, Jimp_read, Jimp_write, io.
  cbn [tick files].
  intros Hrun.
  repeat (case_match; simplify_eq; cbn [tick files] in * ); simplify_eq;
    cbn [files]; repeat case_bool_decide; simplify_eq; auto.
Qed.

Lemma placeScreenshot_moves_witness :
  exists w',
    placeScreenshot macTwoDisplays "jpg" (of_nat 85) "/tmp/shot.png"
      "/work/DesktopImage.jpg" (worldWith ["/tmp/shot.png"]) = (Ok tt, w') /\
    "/tmp/shot.png" ∈ files (worldWith ["/tmp/shot.png"]) /\
    files w' = ({[ "/work/DesktopImage.jpg" ]}
                  ∪ files (worldWith ["/tmp/shot.png"])) ∖ {[ "/tmp/shot.png" ]}.
Proof.
  destruct (placeScreenshot macTwoDisplays "jpg" (of_nat 85) "/tmp/shot.png"
              "/work/DesktopImage.jpg" (worldWith ["/tmp/shot.png"]))
    as [r w'] eqn:Hrun.
  assert (r = Ok tt) as ->.
  { pose proof Hrun as H. vm_compute in H. injection H as <- _. reflexivity. }
  exists w'. split; [reflexivity |].
  exact (placeScreenshot_moves macTwoDisplays "jpg" (of_nat 85) _ _ _ w' Hrun).
Defined.

(* ================================================================= *)
(** ** What a capture leaves and reports *)

Lemma fs_access_ok E path w w' :
  fs_access E path w = (Ok tt, w') -> path ∈ files w'.
Proof.
  unfold fs_access, io. destruct (io_error E (tick w) (EvAccess path));
    [discriminate |].
  case_bool_decide; [| discriminate]. now intros [= <-].
Qed.

(** X11.  On the Windows family a capture that returns a path has checked
    it: the returned temporary file exists when [captureScreen]
    returns. *)
Theorem captureScreen_windows_returns_existing (E : Env) (w w1 w' : World)
    (platform : string) (monitor : option Monitor) (tempFile : string) :
  detectPlatform E w = (Ok platform, w1) ->
  isWindowsFamily platform = true ->
  captureScreen E monitor w = (Ok tempFile, w') ->
  tempFile ∈ files w'.
Proof.
  intros Hp Hwin Hrun. unfold captureScreen in Hrun.
  rewrite (bind_ok _ _ _ _ _ Hp), Hwin in Hrun.
  apply bind_ok_inv in Hrun as ([temp windowsTemp] & w2 & _ & Hrun).
  apply try_catch_ok_inv in Hrun as [Hrun | (e & w3 & _ & Hrun)];
    [| discriminate].
  apply bind_ok_inv in Hrun as ([] & w3 & Hbody & Hrun).
  injection Hrun as <- <-.
  apply bind_ok_inv in Hbody as ([psScript psScriptWin] & w4 & _ & Hbody).
  apply bind_ok_inv in Hbody as ([] & w5 & _ & Hbody).
  apply bind_ok_inv in Hbody as ([] & w6 & _ & Hbody).
  apply bind_ok_inv in Hbody as ([stdout stderr] & w7 & _ & Hbody).
  apply bind_ok_inv in Hbody as ([] & w8 & _ & Hbody).
  apply bind_ok_inv in Hbody as ([] & w9 & _ & Hbody).
  exact (fs_access_ok _ _ _ _ Hbody).
Qed.

Lemma captureScreen_windows_returns_existing_witness :
  exists w',
    detectPlatform windowsThreeScreens emptyWorld = (Ok "win32", emptyWorld) /\
    isWindowsFamily "win32" = true /\
    captureScreen windowsThreeScreens None emptyWorld
      = (Ok "C:\Temp\screenshot_1700000000000.png", w') /\
    "C:\Temp\screenshot_1700000000000.png" ∈ files w'.
Proof.
  destruct (captureScreen windowsThreeScreens None emptyWorld)
    as [r w'] eqn:Hrun.
  assert (r = Ok "C:\Temp\screenshot_1700000000000.png") as ->.
  { pose proof Hrun as H. vm_compute in H. injection H as <- _. reflexivity. }
  exists w'. split; [reflexivity |]. split; [reflexivity |].
  split; [reflexivity |].
  exact (captureScreen_windows_returns_existing windowsThreeScreens
           emptyWorld emptyWorld w' "win32" None _ eq_refl eq_refl Hrun).
Defined.

(** X12.  Every error that leaves [captureScreen] carries its prefix:
    whatever fails inside (the probes of the temporary directory cannot,
    their failures are absorbed), the message thrown starts with
    [Failed to capture screen: ]. *)
Theorem captureScreen_errors_prefixed (E : Env) (monitor : option Monitor)
    (w w' : World) (e : string) :
  captureScreen E monitor w = (Throw e, w') ->
  exists cause, e = "Failed to capture screen: " ++ cause.
Proof.
  revert w e w'.
  change (throws_only
            (fun e => exists cause, e = "Failed to capture screen: " ++ cause)
            (captureScreen E monitor)).
  unfold captureScreen.
  apply throws_only_bind.
  { apply never_throws_throws_only, total_never_throws, total_detectPlatform. }
  intros platform. apply throws_only_bind.
  { apply never_throws_throws_only, total_never_throws, total_tempPath. }
  intros [tempFile windowsTempFile].
  apply throws_only_try_catch. intros cause.
  apply throws_only_throw. now exists cause.
Qed.

Lemma captureScreen_errors_prefixed_witness :
  exists w',
    captureScreen windowsCaptureFails None emptyWorld
      = (Throw "Failed to capture screen: Command failed: powershell", w') /\
    exists cause,
      "Failed to capture screen: Command failed: powershell"
        = "Failed to capture screen: " ++ cause.
Proof.
  destruct (captureScreen windowsCaptureFails None emptyWorld)
    as [r w'] eqn:Hrun.
  assert (r = Throw "Failed to capture screen: Command failed: powershell")
    as ->.
  { pose proof Hrun as H. vm_compute in H. injection H as <- _. reflexivity. }
  exists w'. split; [reflexivity |].
  exact (captureScreen_errors_prefixed windowsCaptureFails None emptyWorld w'
           _ Hrun).
Defined.

(** X13.  The option [--quality] reaches the codec for JPEG only: in a
    whole run, every file written by the codec is written with the
    requested quality when the format is [jpg] or [jpeg], and with no
    quality setting for any other format. *)
Theorem main_quality_for_jpeg_only (E : Env) (argv : Argv) (w w' : World)
    (r : Result (list string)) :
  main E argv w = (r, w') ->
  exists evs, trace w' = (trace w ++ evs)%list /\
              Forall (codec_quality (format argv) (quality argv)) evs.
Proof.
  apply emits_main.
  - now intros [].
  - intros p. exact I.
  - intros src name _. unfold placeScreenshot, convertImage.
    assert (forall p, codec_quality (format argv) (quality argv) (EvUnlink p))
      by (intros; exact I).
    assert (forall p, codec_quality (format argv) (quality argv) (EvJimpRead p))
      by (intros; exact I).
    assert (forall p q, codec_quality (format argv) (quality argv)
                          (EvCopyFile p q)) by (intros; exact I).
    destruct (negb (String.eqb (format argv) "png")).
    + apply emits_bind; [| intros; prog_auto].
      apply emits_try_catch; [| intros; prog_auto].
      apply emits_bind; [prog_auto | intros _].
      destruct (String.eqb (format argv) "jpg" || String.eqb (format argv) "jpeg")
        eqn:Hjpeg; apply emits_Jimp_write; simpl; now rewrite Hjpeg.
    + prog_auto.
Qed.

Lemma main_quality_for_jpeg_only_witness :
  exists r w' evs,
    main macTwoDisplays argvJpeg emptyWorld = (r, w') /\
    trace w' = (trace emptyWorld ++ evs)%list /\
    Forall (codec_quality "jpg" (of_nat 85)) evs /\
    EvJimpWrite "/work/DesktopImage_2024-01-20_14-30-05.jpg" (Some (of_nat 85))
      ∈ evs.
Proof.
  destruct (main macTwoDisplays argvJpeg emptyWorld) as [r w'] eqn:Hrun.
  destruct (main_quality_for_jpeg_only macTwoDisplays argvJpeg emptyWorld w' r
              Hrun) as (evs & Htr & Hall).
  exists r, w', evs. split; [reflexivity |]. split; [exact Htr |].
  split; [exact Hall |].
  pose proof Hrun as H. vm_compute in H. injection H as _ <-.
  simpl in Htr. subst evs. apply list_elem_of_In. vm_compute. tauto.
Defined.

(* ================================================================= *)
(** ** A platform without a capture tool *)

Section Unsupported.
Context (E : Env).
Hypothesis Hplatform : supported (os_platform E) = false.

Lemma unsupported_eqb :
  String.eqb (os_platform E) "win32" = false /\
  String.eqb (os_platform E) "wsl" = false /\
  String.eqb (os_platform E) "darwin" = false /\
  String.eqb (os_platform E) "linux" = false.
Proof.
  unfold supported in Hplatform.
  repeat (apply orb_false_iff in Hplatform as [Hplatform ?]).
  now repeat split.
Qed.

Lemma getScreenInfo_unsupported w : getScreenInfo E w = (Ok [], w).
Proof.
  destruct unsupported_eqb as (Hwin & Hwsl & Hmac & Hlinux).
  unfold getScreenInfo, detectPlatform, isWindowsFamily, bind, ret.
  repeat (first [rewrite Hlinux | rewrite Hwin | rewrite Hwsl | rewrite Hmac];
          cbv beta iota zeta; cbn [orb]).
  reflexivity.
Qed.

Lemma captureScreen_unsupported monitor w :
  captureScreen E monitor w =
    (Throw ("Failed to capture screen: Unsupported platform: "
              ++ os_platform E),
     {| files := files w; console := console w; trace := trace w;
        tick := S (tick w) |}).
Proof.
  destruct unsupported_eqb as (Hwin & Hwsl & Hmac & Hlinux).
  unfold captureScreen, detectPlatform, tempPath, isWindowsFamily, bind,
    ret, read_clock, try_catch, throw.
  repeat (first [rewrite Hlinux | rewrite Hwin | rewrite Hwsl | rewrite Hmac];
          cbv beta iota zeta; cbn [orb]).
  reflexivity.
Qed.

Lemma captureScreen_unsupported_never_returns monitor :
  returns (fun _ => False) (captureScreen E monitor).
Proof. intros w a w'. now rewrite captureScreen_unsupported. Qed.

Lemma main_unsupported_never_returns argv :
  returns (fun _ => False) (main E argv).
Proof.
  unfold main. apply returns_try_catch; [| intros e w a w'; discriminate].
  apply returns_bind. intros ts. cbv zeta.
  apply returns_bind. intros _. apply returns_bind. intros monitors.
  apply (returns_bind_of (fun _ => False)); [| tauto].
  destruct (display argv) as [d |].
  - unfold singleDisplay.
    apply returns_bind. intros _. apply returns_bind. intros _.
    apply (returns_bind_of (fun _ => False)); [| tauto].
    apply captureScreen_unsupported_never_returns.
  - unfold allDisplays. apply returns_bind. intros _.
    apply (returns_bind_of (fun _ => False)); [| tauto].
    apply captureScreen_unsupported_never_returns.
Qed.
End Unsupported.

(** X14.  On a platform other than Windows, WSL, macOS and Linux the
    enumeration returns no monitor without making any call, every capture
    fails with [Unsupported platform: <platform>] under the prefix of
    [captureScreen] without making any call either, and so every run of
    [main] ends the process with code 1 after an error line. *)
Theorem unsupported_platform_fails (E : Env) (argv : Argv) (w : World) :
  supported (os_platform E) = false ->
  getScreenInfo E w = (Ok [], w) /\
  (forall monitor, exists w1,
     captureScreen E monitor w =
       (Throw ("Failed to capture screen: Unsupported platform: "
                 ++ os_platform E), w1) /\
     trace w1 = trace w /\ files w1 = files w) /\
  exists w', main E argv w = (Exit 1, w') /\ endsOnError w'.
Proof.
  intros Hp. split; [now apply getScreenInfo_unsupported |]. split.
  - intros monitor. eexists. split; [now apply captureScreen_unsupported |].
    now split.
  - destruct (main E argv w) as [[saved | e | c] w'] eqn:Hrun.
    + destruct (main_unsupported_never_returns E Hp argv _ _ _ Hrun).
    + destruct (never_throws_main E argv _ _ _ Hrun).
    + destruct (exits_on_error_main E argv _ _ _ Hrun) as [-> Hline].
      now exists w'.
Qed.

Lemma unsupported_platform_fails_witness :
  supported (os_platform freebsd) = false /\
  getScreenInfo freebsd emptyWorld = (Ok [], emptyWorld) /\
  (forall monitor, exists w1,
     captureScreen freebsd monitor emptyWorld =
       (Throw ("Failed to capture screen: Unsupported platform: "
                 ++ os_platform freebsd), w1) /\
     trace w1 = trace emptyWorld /\ files w1 = files emptyWorld) /\
  exists w', main freebsd argvDefault emptyWorld = (Exit 1, w') /\
             endsOnError w'.
Proof.
  split; [reflexivity |].
  exact (unsupported_platform_fails freebsd argvDefault emptyWorld eq_refl).
Defined.

(* ================================================================= *)
(** ** Temporary paths *)

Lemma swallow_unlink_removes E path w :
  io_error E (tick w) (EvUnlink path) = None ->
  exists w', swallow (fs_unlink E path) w = (Ok tt, w') /\
             (path ∉ files w') /\ (EvUnlink path ∈ trace w').
Proof.
  intros Hno. unfold swallow, try_catch, fs_unlink, io, ret. rewrite Hno.
  destruct (decide (path ∈ files w)) as [Hin | Hout].
  - rewrite bool_decide_true by exact Hin.
    eexists. split; [reflexivity |]. cbn [files trace]. split.
    + apply not_elem_of_difference. right. now apply elem_of_singleton.
    + apply elem_of_app. right. constructor.
  - rewrite bool_decide_false by exact Hout.
    eexists. split; [reflexivity |]. cbn [files trace]. split.
    + exact Hout.
    + apply elem_of_app. right. constructor.
Qed.

(** X15.  On the Windows family the enumeration cleans up after itself:
    unless an I/O error strikes the removal, the script written by
    [getScreenInfo] does not exist when it returns, whether the script
    ran, failed, or could not even be written. *)
Theorem getScreenInfo_windows_removes_script (E : Env) (w w1 w2 w' : World)
    (platform psScript psScriptWin : string) (r : Result (list Monitor)) :
  detectPlatform E w = (Ok platform, w1) ->
  isWindowsFamily platform = true ->
  tempPath E platform "getmonitors" ".ps1" w1
    = (Ok (psScript, psScriptWin), w2) ->
  (forall t, io_error E t (EvUnlink psScript) = None) ->
  getScreenInfo E w = (r, w') ->
  (psScript ∉ files w') /\ (EvUnlink psScript ∈ trace w').
Proof.
  intros Hp Hwin Htemp Hunlink. unfold getScreenInfo.
  rewrite (bind_ok _ _ _ _ _ Hp), Hwin, (bind_ok _ _ _ _ _ Htemp).
  unfold try_catch at 1.
  match goal with
  | |- context [match ?body w2 with _ => _ end] =>
      assert (no_exit body) as Hnoexit by prog_auto;
      destruct (body w2) as [[a | e | c] w3] eqn:Hbody
  end.
  - intros [= <- <-].
    apply bind_ok_inv in Hbody as ([] & w4 & _ & Hbody).
    apply bind_ok_inv in Hbody as ([stdout stderr] & w5 & _ & Hbody).
    apply bind_ok_inv in Hbody as ([] & w6 & _ & Hbody).
    apply bind_ok_inv in Hbody as ([] & w7 & Hsw & Hbody).
    destruct (swallow_unlink_removes E psScript w6 (Hunlink _))
      as (w8 & Hsw' & Hgone & Hcalled).
    rewrite Hsw in Hsw'. injection Hsw' as <-.
    destruct (String.eqb stdout "" || String.eqb (trim stdout) "");
      injection Hbody as _ <-; now split.
  - unfold bind, console_error, ret.
    match goal with
    | |- context [swallow _ ?w0] =>
        destruct (swallow_unlink_removes E psScript w0 (Hunlink _))
          as (w8 & -> & Hgone & Hcalled)
    end.
    intros [= _ <-]. now split.
  - now apply Hnoexit in Hbody.
Qed.

Lemma getScreenInfo_windows_removes_script_witness :
  exists w2 r w',
    detectPlatform windowsEnumerationFails emptyWorld
      = (Ok "win32", emptyWorld) /\
    isWindowsFamily "win32" = true /\
    tempPath windowsEnumerationFails "win32" "getmonitors" ".ps1" emptyWorld
      = (Ok ("C:\Temp\getmonitors_1700000000000.ps1",
             "C:\Temp\getmonitors_1700000000000.ps1"), w2) /\
    getScreenInfo windowsEnumerationFails emptyWorld = (r, w') /\
    ("C:\Temp\getmonitors_1700000000000.ps1" ∉ files w') /\
    (EvUnlink "C:\Temp\getmonitors_1700000000000.ps1" ∈ trace w').
Proof.
  destruct (tempPath windowsEnumerationFails "win32" "getmonitors" ".ps1"
              emptyWorld) as [p w2] eqn:Htemp.
  assert (p = Ok ("C:\Temp\getmonitors_1700000000000.ps1",
                  "C:\Temp\getmonitors_1700000000000.ps1")) as ->.
  { pose proof Htemp as H. vm_compute in H. injection H as <- _. reflexivity. }
  destruct (getScreenInfo windowsEnumerationFails emptyWorld)
    as [r w'] eqn:Hrun.
  exists w2, r, w'. split; [reflexivity |]. split; [reflexivity |].
  split; [reflexivity |]. split; [reflexivity |].
  exact (getScreenInfo_windows_removes_script windowsEnumerationFails
           emptyWorld emptyWorld w2 w' "win32" _ _ r eq_refl eq_refl Htemp
           (fun _ => eq_refl) Hrun).
Defined.

Lemma replace_all_no_slash s :
  includes "/" (replace_all "/" (String bs "") s) = false.
Proof.
  induction s as [| c s IH]; [reflexivity |].
  cbn [replace_all]. destruct (Ascii.eqb_spec "/" c) as [<- | Hne].
  - exact IH.
  - cbn [includes String.prefix]. rewrite IH.
    destruct (ascii_dec "/" c) as [Heq | _]; [now destruct Hne | reflexivity].
Qed.

Lemma prefix_append a b : String.prefix a (a ++ b) = true.
Proof.
  induction a as [| c a IH]; [now destruct b |].
  cbn [String.append String.prefix].
  destruct (ascii_dec c c) as [_ | Hne]; [exact IH | now destruct Hne].
Qed.

Section Translation.
#[local] Arguments String.append !_ _ / : simpl nomatch.

(** X16.  The path handed to the Windows side.  Outside WSL it is the
  path the program itself uses.  On WSL it is either that same path,
  under [/tmp/], when the Windows temporary directory cannot be
  reached, or the translation of a path under [/mnt/c/Users/]: a
  Windows path that starts with [C:\Users\] and contains no forward
  slash. *)
Theorem tempPath_windows_side (E : Env) (platform stem ext : string)
  (w w' : World) (p pw : string) :
tempPath E platform stem ext w = (Ok (p, pw), w') ->
(platform <> "wsl" /\ pw = p) \/
(platform = "wsl" /\ String.prefix "/tmp/" p = true /\ pw = p) \/
(platform = "wsl" /\ String.prefix "/mnt/c/Users/" p = true /\
 String.prefix "C:\Users\" pw = true /\ includes "/" pw = false).
Proof.
unfold tempPath.
destruct (String.eqb_spec platform "wsl") as [-> | Hne].
- intros Hrun. right.
  apply try_catch_ok_inv in Hrun as [Hrun | (e & w1 & _ & Hrun)].
  + right. split; [reflexivity |].
    apply bind_ok_inv in Hrun as ([] & w1 & _ & Hrun).
    unfold bind, read_clock, ret in Hrun. injection Hrun as <- <- _.
    split; [cbn; apply (prefix_append "/mnt/c/Users/") |].
    split; [cbn; apply (prefix_append "C:\Users\") |].
    apply replace_all_no_slash.
  + left. split; [reflexivity |].
    unfold bind, read_clock, ret in Hrun. injection Hrun as <- <- _.
    split; [cbn; apply (prefix_append "/tmp/") | reflexivity].
- intros Hrun. left. split; [exact Hne |].
  unfold bind, read_clock, ret in Hrun. now injection Hrun as <- <- _.
Qed.
End Translation.

Lemma tempPath_windows_side_witness :
  exists w',
    tempPath wslMachine "wsl" "capture" ".ps1" wslWorld
      = (Ok ("/mnt/c/Users/user/AppData/Local/Temp/capture_1700000000001.ps1",
             "C:\Users\user\AppData\Local\Temp\capture_1700000000001.ps1"),
         w') /\
    (("wsl" <> "wsl" /\
      "C:\Users\user\AppData\Local\Temp\capture_1700000000001.ps1"
        = "/mnt/c/Users/user/AppData/Local/Temp/capture_1700000000001.ps1") \/
     ("wsl" = "wsl" /\
      String.prefix "/tmp/"
        "/mnt/c/Users/user/AppData/Local/Temp/capture_1700000000001.ps1"
        = true /\
      "C:\Users\user\AppData\Local\Temp\capture_1700000000001.ps1"
        = "/mnt/c/Users/user/AppData/Local/Temp/capture_1700000000001.ps1") \/
     ("wsl" = "wsl" /\
      String.prefix "/mnt/c/Users/"
        "/mnt/c/Users/user/AppData/Local/Temp/capture_1700000000001.ps1"
        = true /\
      String.prefix "C:\Users\"
        "C:\Users\user\AppData\Local\Temp\capture_1700000000001.ps1" = true /\
      includes "/" "C:\Users\user\AppData\Local\Temp\capture_1700000000001.ps1"
        = false)).
Proof.
  destruct (tempPath wslMachine "wsl" "capture" ".ps1" wslWorld)
    as [r w'] eqn:Hrun.
  assert (r = Ok ("/mnt/c/Users/user/AppData/Local/Temp/capture_1700000000001.ps1",
                  "C:\Users\user\AppData\Local\Temp\capture_1700000000001.ps1"))
    as ->.
  { pose proof Hrun as H. vm_compute in H. injection H as <- _. reflexivity. }
  exists w'. split; [reflexivity |].
  exact (tempPath_windows_side wslMachine "wsl" "capture" ".ps1" wslWorld w'
           _ _ Hrun).
Defined.

(* ================================================================= *)
(** ** Output names never collide *)

Lemma append_inj_l a b c : a ++ b = a ++ c -> b = c.
Proof.
  induction a as [| ch a IH]; [trivial |].
  cbn [String.append]. intros [= H]. now apply IH.
Qed.

Lemma length_append a b :
  String.length (a ++ b) = String.length a + String.length b.
Proof.
  induction a as [| ch a IH]; [reflexivity |].
  cbn [String.append String.length]. now rewrite IH.
Qed.

Lemma append_inj_r a b s : a ++ s = b ++ s -> a = b.
Proof.
  revert b. induction a as [| ch a IH]; intros [| ch' b];
    cbn [String.append]; intros H.
  - reflexivity.
  - apply (f_equal String.length) in H.
    cbn [String.length] in H. rewrite length_append in H. lia.
  - apply (f_equal String.length) in H.
    cbn [String.length] in H. rewrite length_append in H. lia.
  - injection H as -> H. f_equal. now apply IH.
Qed.

Lemma string_of_Z_inj a b : string_of_Z a = string_of_Z b -> a = b.
Proof.
  unfold string_of_Z. intros H.
  assert (forall z, Z.to_int z <> Decimal.Pos Decimal.Nil /\
                    Z.to_int z <> Decimal.Neg Decimal.Nil) as Hnz.
  { intros [| p | p]; simpl; split; try discriminate;
      intros [= Hp]; now apply DecimalPos.Unsigned.to_uint_nonnil in Hp. }
  apply DecimalZ.to_int_inj.
  assert (Some (Z.to_int a) = Some (Z.to_int b)) as [= Heq]; [| exact Heq].
  rewrite <- (NilZero.isi (Z.to_int a)), <- (NilZero.isi (Z.to_int b))
    by apply Hnz.
  now rewrite H.
Qed.

Lemma string_of_nat_inj i j : string_of_nat i = string_of_nat j -> i = j.
Proof. unfold string_of_nat. intros H. apply string_of_Z_inj in H. lia. Qed.

Lemma generateFilename_inj p1 p2 fmt ts :
  generateFilename p1 fmt ts = generateFilename p2 fmt ts -> p1 = p2.
Proof. unfold generateFilename. apply append_inj_r. Qed.

Section Names.
Context (E : Env) (dir fmt : string) (ts : Timestamp).

Lemma displayFile_inj i j :
  displayFile E dir fmt ts i = displayFile E dir fmt ts j -> i = j.
Proof.
  unfold displayFile, path_join. intros H.
  do 2 apply append_inj_l in H. apply generateFilename_inj in H.
  apply append_inj_l in H. now apply string_of_nat_inj.
Qed.

Lemma displayFile_not_desktop i :
  displayFile E dir fmt ts i <> desktopFile E dir fmt ts.
Proof.
  unfold displayFile, desktopFile, path_join. intros H.
  do 2 apply append_inj_l in H. apply generateFilename_inj in H.
  change ("DisplayImage" ++ string_of_nat i)
    with (String "D" (String "i" ("splayImage" ++ string_of_nat i))) in H.
  discriminate H.
Qed.

Lemma indexed_NoDup monitors :
  indexed monitors -> NoDup (index <$> monitors).
Proof.
  intros Hidx. apply NoDup_alt. intros i j n Hi Hj.
  rewrite list_lookup_fmap in Hi, Hj.
  destruct (monitors !! i) as [a |] eqn:Ha; [| discriminate].
  destruct (monitors !! j) as [b |] eqn:Hb; [| discriminate].
  injection Hi as <-. injection Hj as Hj.
  rewrite (Hidx _ _ Ha), (Hidx _ _ Hb) in Hj. lia.
Qed.

Lemma saved_NoDup monitors shown :
  indexed monitors -> sublist shown monitors ->
  NoDup (desktopFile E dir fmt ts
           :: map (fun m => displayFile E dir fmt ts (index m)) shown).
Proof.
  intros Hidx Hsub.
  assert (NoDup (index <$> shown)) as Hnd.
  { apply (sublist_NoDup _ (index <$> monitors));
      [now apply indexed_NoDup | now apply fmap_sublist]. }
  change (map (fun m => displayFile E dir fmt ts (index m)) shown)
    with ((fun m => displayFile E dir fmt ts (index m)) <$> shown).
  apply NoDup_cons. split.
  - intros Hin. apply list_elem_of_fmap in Hin as (m & Heq & _).
    symmetry in Heq. now apply displayFile_not_desktop in Heq.
  - rewrite (list_fmap_compose index (displayFile E dir fmt ts)).
    apply NoDup_fmap_2_strong; [| exact Hnd].
    intros i j _ _. apply displayFile_inj.
Qed.
End Names.

(** X17.  The files that a run reports as saved are pairwise distinct:
    the monitors are numbered without repetition and the number is part of
    the name, so within one run no output overwrites another. *)
Theorem main_saved_files_distinct (E : Env) (argv : Argv) (w w' : World)
    (saved : list string) :
  main E argv w = (Ok saved, w') -> NoDup saved.
Proof.
  intros Hrun.
  apply main_ok_inv in Hrun as (monitors & w2 & w3 & Henum & Hbranch & _).
  destruct (display argv) as [d |].
  - apply singleDisplay_saved in Hbranch as (m & _ & _ & ->).
    apply NoDup_singleton.
  - apply allDisplays_saved in Hbranch as (shown & Hsub & ->).
    apply saved_NoDup with monitors; [| exact Hsub].
    unfold enumerationPhase in Henum.
    apply bind_ok_inv in Henum as (ts & w0 & _ & Henum).
    apply bind_ok_inv in Henum as ([] & w1 & _ & Henum).
    exact (returns_indexed_getScreenInfo E _ _ _ Henum).
Qed.

Lemma main_saved_files_distinct_witness :
  exists w',
    main macTwoDisplays argvDefault emptyWorld
      = (Ok ["/work/DesktopImage_2024-01-20_14-30-05.png";
             "/work/DisplayImage1_2024-01-20_14-30-05.png";
             "/work/DisplayImage2_2024-01-20_14-30-05.png"], w') /\
    NoDup ["/work/DesktopImage_2024-01-20_14-30-05.png";
           "/work/DisplayImage1_2024-01-20_14-30-05.png";
           "/work/DisplayImage2_2024-01-20_14-30-05.png"].
Proof.
  destruct (main macTwoDisplays argvDefault emptyWorld) as [r w'] eqn:Hrun.
  assert (r = Ok ["/work/DesktopImage_2024-01-20_14-30-05.png";
                  "/work/DisplayImage1_2024-01-20_14-30-05.png";
                  "/work/DisplayImage2_2024-01-20_14-30-05.png"]) as ->.
  { pose proof Hrun as H. vm_compute in H. injection H as <- _. reflexivity. }
  exists w'. split; [reflexivity |].
  exact (main_saved_files_distinct macTwoDisplays argvDefault emptyWorld w' _
           Hrun).
Defined.

(* ================================================================= *)
(** ** The first call, the fallback of the enumeration, a fatal failure *)

Section FirstCall.
Context (E : Env).

Lemma emits_any_placeScreenshot f q src dst :
  emits any_event (placeScreenshot E f q src dst).
Proof.
  apply emits_placeScreenshot; intros; try split; intros; exact I.
Qed.

Lemma emits_any_after_mkdir argv ts :
  emits any_event
    (monitors <- getScreenInfo E ;;
     screenshots <-
       match display argv with
       | Some displayNumber =>
           singleDisplay E (outputDirOf E argv) (format argv)
             (quality argv) ts monitors displayNumber
       | None =>
           allDisplays E (outputDirOf E argv) (format argv)
             (quality argv) ts monitors
       end ;;
     reportSaved screenshots).
Proof.
  pose proof (emits_getScreenInfo E any_event
                (fun _ => I) (fun _ => I) (fun _ => I) (fun _ => I)).
  pose proof (emits_singleDisplay E any_event (outputDirOf E argv)
                (format argv) (quality argv) ts (fun _ _ => I)
                (fun src name _ => emits_any_placeScreenshot _ _ src _)).
  pose proof (emits_allDisplays E any_event (outputDirOf E argv)
                (format argv) (quality argv) ts (fun _ _ => I)
                (fun src name _ => emits_any_placeScreenshot _ _ src _)).
  pose proof (emits_reportSaved any_event).
  prog_auto.
Qed.
End FirstCall.

(** X18.  The first call of every run creates the output directory (the
    value of [--output], or the current directory when the option is
    absent or empty): it happens before the monitors are enumerated and
    whatever the platform, so the directory is created even by a run that
    captures nothing. *)
Theorem main_creates_output_directory_first (E : Env) (argv : Argv)
    (w w' : World) (r : Result (list string)) :
  main E argv w = (r, w') ->
  exists rest,
    trace w' = (trace w ++ EvMkdir (outputDirOf E argv) :: rest)%list.
Proof.
  unfold main.
  destruct (getTimestamp_run E w) as (w0 & Hts & Htr).
  rewrite (try_catch_bind_ok _ _ _ _ _ _ Hts). cbv zeta.
  rewrite <- Htr. revert w0 r w' Hts Htr. intros w0 r w' _ _. revert w0 r w'.
  change (starts_with (EvMkdir (outputDirOf E argv))
    (try_catch
       (fs_mkdir E (outputDirOf E argv) ;;
        monitors <- getScreenInfo E ;;
        screenshots <-
          match display argv with
          | Some displayNumber =>
              singleDisplay E (outputDirOf E argv) (format argv)
                (quality argv) (timestampAt E w) monitors displayNumber
          | None =>
              allDisplays E (outputDirOf E argv) (format argv)
                (quality argv) (timestampAt E w) monitors
          end ;;
        reportSaved screenshots)
       fatal)).
  apply starts_with_try_catch; [| intros e; apply emits_fatal].
  apply starts_with_bind; [apply starts_with_io |].
  intros _. apply emits_any_after_mkdir.
Qed.

Lemma main_creates_output_directory_first_witness :
  exists r w' rest,
    main freebsd argvDefault emptyWorld = (r, w') /\
    trace w' = (trace emptyWorld
                  ++ EvMkdir (outputDirOf freebsd argvDefault) :: rest)%list.
Proof.
  destruct (main freebsd argvDefault emptyWorld) as [r w'] eqn:Hrun.
  destruct (main_creates_output_directory_first freebsd argvDefault
              emptyWorld w' r Hrun) as (rest & Htr).
  now exists r, w', rest.
Defined.

Section Fallback.
Context (E : Env).
Hypothesis Hfails : forall t cmd, exec_error (exec_outcome E t cmd) <> None.

Lemma execAsync_never_returns cmd :
  returns (fun _ => False) (execAsync E cmd).
Proof.
  intros w a w'. unfold execAsync.
  destruct (exec_error (exec_outcome E (tick w) cmd)) eqn:Herr;
    [discriminate | now apply Hfails in Herr].
Qed.

Lemma getScreenInfo_returns_nothing :
  returns (fun monitors => monitors = []) (getScreenInfo E).
Proof.
  unfold getScreenInfo. apply returns_bind. intros platform.
  destruct (isWindowsFamily platform).
  { apply returns_bind. intros [psScript psScriptWin].
    apply returns_try_catch.
    - apply returns_bind. intros _.
      apply (returns_bind_of (fun _ => False));
        [apply execAsync_never_returns | tauto].
    - intros e. prog_auto. }
  destruct (String.eqb platform "darwin").
  { apply returns_try_catch; [| intros e; now apply returns_ret].
    apply (returns_bind_of (fun _ => False));
      [apply execAsync_never_returns | tauto]. }
  destruct (String.eqb platform "linux").
  { apply returns_try_catch; [| intros e; now apply returns_ret].
    apply (returns_bind_of (fun _ => False));
      [apply execAsync_never_returns | tauto]. }
  now apply returns_ret.
Qed.
End Fallback.

(** X19.  The enumeration never fails, and it falls back on the empty
    list: on every platform [getScreenInfo] returns a list, and when the
    enumeration tool cannot be run the list is empty. *)
Theorem getScreenInfo_never_fails (E : Env) (w : World) :
  exists monitors w',
    getScreenInfo E w = (Ok monitors, w') /\
    ((forall t cmd, exec_error (exec_outcome E t cmd) <> None) ->
     monitors = []).
Proof.
  destruct (total_getScreenInfo E w) as (monitors & w' & Hrun).
  exists monitors, w'. split; [exact Hrun |].
  intros Hfails. exact (getScreenInfo_returns_nothing E Hfails _ _ _ Hrun).
Qed.

Lemma getScreenInfo_never_fails_witness :
  exists monitors w',
    getScreenInfo windowsEnumerationFails emptyWorld = (Ok monitors, w') /\
    (forall t cmd,
       exec_error (exec_outcome windowsEnumerationFails t cmd) <> None) /\
    monitors = [].
Proof.
  destruct (getScreenInfo_never_fails windowsEnumerationFails emptyWorld)
    as (monitors & w' & Hrun & Hempty).
  assert (forall t cmd,
            exec_error (exec_outcome windowsEnumerationFails t cmd) <> None)
    as Hfails by (intros t cmd; discriminate).
  exists monitors, w'. split; [exact Hrun |]. split; [exact Hfails |].
  exact (Hempty Hfails).
Defined.

(** X20.  Without [--display], a failure of the desktop capture is
    fatal: the run prints [Error: <message>] and ends with code 1 at
    once, without attempting the capture of any display, although the
    failure of a display capture is tolerated. *)
Theorem main_desktop_failure_is_fatal (E : Env) (argv : Argv)
    (w w2 w3 : World) (monitors : list Monitor) (e : string) :
  display argv = None ->
  enumerationPhase E argv w = (Ok monitors, w2) ->
  captureScreen E None (with_line (Out "Capturing desktop screenshot...") w2)
    = (Throw e, w3) ->
  main E argv w = (Exit 1, with_line (Err ("Error: " ++ e)) w3).
Proof.
  intros Hd Henum Hcap.
  rewrite (main_after_enumeration E argv w monitors w2 Henum), Hd.
  unfold allDisplays.
  unfold with_line in Hcap |- *.
  unfold try_catch, bind, console_log. cbv beta iota zeta.
  rewrite Hcap. reflexivity.
Qed.

Lemma main_desktop_failure_is_fatal_witness :
  exists monitors w2 w3,
    display argvDefault = None /\
    enumerationPhase windowsCaptureFails argvDefault emptyWorld
      = (Ok monitors, w2) /\
    length monitors = 1 /\
    captureScreen windowsCaptureFails None
      (with_line (Out "Capturing desktop screenshot...") w2)
      = (Throw "Failed to capture screen: Command failed: powershell", w3) /\
    main windowsCaptureFails argvDefault emptyWorld
      = (Exit 1,
         with_line
           (Err "Error: Failed to capture screen: Command failed: powershell")
           w3).
Proof.
  destruct (enumerationPhase windowsCaptureFails argvDefault emptyWorld)
    as [r w2] eqn:Henum.
  assert (exists m, r = Ok [m]) as (m & ->).
  { pose proof Henum as H. vm_compute in H. injection H as <- _.
    now eexists. }
  destruct (captureScreen windowsCaptureFails None
              (with_line (Out "Capturing desktop screenshot...") w2))
    as [c w3] eqn:Hcap.
  assert (c = Throw "Failed to capture screen: Command failed: powershell")
    as ->.
  { pose proof Henum as H. vm_compute in H. injection H as _ <-.
    pose proof Hcap as H'. vm_compute in H'. injection H' as <- _.
    reflexivity. }
  exists [m], w2, w3. split; [reflexivity |]. split; [reflexivity |].
  split; [reflexivity |]. split; [exact Hcap |].
  exact (main_desktop_failure_is_fatal windowsCaptureFails argvDefault
           emptyWorld w2 w3 [m] _ eq_refl Henum Hcap).
Defined.

(* ================================================================= *)
(** ** The warning listener *)

Lemma prefix_inv a s : String.prefix a s = true -> exists b, s = a ++ b.
Proof.
  revert s. induction a as [| c a IH]; intros s.
  - intros _. now exists s.
  - destruct s as [| d s]; [discriminate |].
    cbn [String.prefix].
    destruct (ascii_dec c d) as [<- | _]; [| discriminate].
    intros H. apply IH in H as (b & ->). now exists b.
Qed.

Lemma includes_unfold sub s :
  includes sub s =
    String.prefix sub s
    || match s with
       | EmptyString => false
       | String _ s' => includes sub s'
       end.
Proof. now destruct s. Qed.

(** [s.includes(sub)] holds exactly when [sub] occurs in [s]. *)
Lemma includes_spec sub s :
  includes sub s = true <-> exists a b, s = a ++ sub ++ b.
Proof.
  split.
  - induction s as [| c s IH]; rewrite includes_unfold;
      intros H; apply orb_true_iff in H as [H | H].
    + apply prefix_inv in H as (b & ->). now exists "", b.
    + discriminate.
    + apply prefix_inv in H as (b & ->). now exists "", b.
    + apply IH in H as (a & b & ->). now exists (String c a), b.
  - intros (a & b & ->). induction a as [| c a IH].
    + rewrite includes_unfold. change ("" ++ sub ++ b) with (sub ++ b).
      now rewrite prefix_append.
    + change (String c a ++ sub ++ b) with (String c (a ++ sub ++ b)).
      cbn [includes]. rewrite IH. apply orb_true_r.
Qed.

(** X21.  The warning listener is silent for exactly one kind of warning:
    a [DeprecationWarning] whose message contains [punycode] prints
    nothing, and the message of every other warning is printed unchanged
    on the error stream. *)
Theorem onWarning_filters_punycode (name message : string) (w : World) :
  (name = "DeprecationWarning" /\
   (exists a b, message = a ++ "punycode" ++ b) ->
   onWarning name message w = (Ok tt, w)) /\
  (~ (name = "DeprecationWarning" /\
      exists a b, message = a ++ "punycode" ++ b) ->
   onWarning name message w = (Ok tt, with_line (Err message) w)).
Proof.
  unfold onWarning. split.
  - intros [-> Hsub]. apply includes_spec in Hsub. now rewrite Hsub.
  - intros Hnot.
    destruct (String.eqb_spec name "DeprecationWarning") as [-> | Hne];
      [| reflexivity].
    destruct (includes "punycode" message) eqn:Hinc; [| reflexivity].
    destruct Hnot. split; [reflexivity | now apply includes_spec].
Qed.

Lemma onWarning_filters_punycode_witness :
  onWarning "DeprecationWarning"
    "The `punycode` module is deprecated. Please use a userland alternative."
    emptyWorld = (Ok tt, emptyWorld) /\
  onWarning "ExperimentalWarning" "The fs.promises API is experimental"
    emptyWorld
    = (Ok tt,
       with_line (Err "The fs.promises API is experimental") emptyWorld).
Proof.
  split.
  - apply (onWarning_filters_punycode "DeprecationWarning"
             "The `punycode` module is deprecated. Please use a userland alternative."
             emptyWorld).
    split; [reflexivity |].
    exists "The `", "` module is deprecated. Please use a userland alternative.".
    reflexivity.
  - apply (onWarning_filters_punycode "ExperimentalWarning"
             "The fs.promises API is experimental" emptyWorld).
    intros [H _]. discriminate H.
Defined.

(* ================================================================= *)
(** ** The capture script on the success path *)

Lemma fs_access_files E path w r w' :
  fs_access E path w = (r, w') -> files w' = files w.
Proof.
  unfold fs_access, io.
  destruct (io_error E (tick w) (EvAccess path)); [now intros [= _ <-] |].
  destruct (bool_decide (path ∈ files w)); now intros [= _ <-].
Qed.

(** X22.  On the Windows family a capture that succeeds leaves no script
    behind: unless an I/O error strikes the removal, the capture script
    does not exist when [captureScreen] returns a path. *)
Theorem captureScreen_windows_success_removes_script (E : Env)
    (w w1 w2 w3 w' : World) (platform : string) (monitor : option Monitor)
    (temp windowsTemp psScript psScriptWin tempFile : string) :
  detectPlatform E w = (Ok platform, w1) ->
  isWindowsFamily platform = true ->
  tempPath E platform "screenshot" ".png" w1 = (Ok (temp, windowsTemp), w2) ->
  tempPath E platform "capture" ".ps1" w2 = (Ok (psScript, psScriptWin), w3) ->
  (forall t, io_error E t (EvUnlink psScript) = None) ->
  captureScreen E monitor w = (Ok tempFile, w') ->
  (psScript ∉ files w') /\ (EvUnlink psScript ∈ trace w').
Proof.
  intros Hp Hwin Ht1 Ht2 Hunlink Hrun. unfold captureScreen in Hrun.
  rewrite (bind_ok _ _ _ _ _ Hp), (bind_ok _ _ _ _ _ Ht1), Hwin in Hrun.
  apply try_catch_ok_inv in Hrun as [Hrun | (e & w4 & _ & Hrun)];
    [| discriminate].
  apply bind_ok_inv in Hrun as ([] & w4 & Hbody & Hrun).
  injection Hrun as _ <-.
  rewrite (bind_ok _ _ _ _ _ Ht2) in Hbody.
  apply bind_ok_inv in Hbody as ([] & w5 & _ & Hbody).
  apply bind_ok_inv in Hbody as ([] & w6 & _ & Hbody).
  apply bind_ok_inv in Hbody as ([stdout stderr] & w7 & _ & Hbody).
  apply bind_ok_inv in Hbody as ([] & w8 & _ & Hbody).
  apply bind_ok_inv in Hbody as ([] & w9 & Hsw & Hacc).
  destruct (swallow_unlink_removes E psScript w8 (Hunlink _))
    as (w10 & Hsw' & Hgone & Hcalled).
  rewrite Hsw in Hsw'. injection Hsw' as <-.
  rewrite (fs_access_files _ _ _ _ _ Hacc). split; [exact Hgone |].
  unfold fs_access, io in Hacc.
  destruct (io_error E (tick w9) (EvAccess temp)); [discriminate |].
  destruct (bool_decide (temp ∈ files w9)); [| discriminate].
  injection Hacc as <-. cbn [trace]. apply elem_of_app. now left.
Qed.

Lemma captureScreen_windows_success_removes_script_witness :
  exists w2 w3 w',
    detectPlatform windowsThreeScreens emptyWorld = (Ok "win32", emptyWorld) /\
    isWindowsFamily "win32" = true /\
    tempPath windowsThreeScreens "win32" "screenshot" ".png" emptyWorld
      = (Ok ("C:\Temp\screenshot_1700000000000.png",
             "C:\Temp\screenshot_1700000000000.png"), w2) /\
    tempPath windowsThreeScreens "win32" "capture" ".ps1" w2
      = (Ok ("C:\Temp\capture_1700000000001.ps1",
             "C:\Temp\capture_1700000000001.ps1"), w3) /\
    captureScreen windowsThreeScreens None emptyWorld
      = (Ok "C:\Temp\screenshot_1700000000000.png", w') /\
    ("C:\Temp\capture_1700000000001.ps1" ∉ files w') /\
    (EvUnlink "C:\Temp\capture_1700000000001.ps1" ∈ trace w').
Proof.
  destruct (tempPath windowsThreeScreens "win32" "screenshot" ".png"
              emptyWorld) as [p1 w2] eqn:Ht1.
  assert (p1 = Ok ("C:\Temp\screenshot_1700000000000.png",
                   "C:\Temp\screenshot_1700000000000.png")) as ->.
  { pose proof Ht1 as H. vm_compute in H. injection H as <- _. reflexivity. }
  destruct (tempPath windowsThreeScreens "win32" "capture" ".ps1" w2)
    as [p2 w3] eqn:Ht2.
  assert (p2 = Ok ("C:\Temp\capture_1700000000001.ps1",
                   "C:\Temp\capture_1700000000001.ps1")) as ->.
  { pose proof Ht1 as H1. vm_compute in H1. injection H1 as <-.
    pose proof Ht2 as H. vm_compute in H. injection H as <- _. reflexivity. }
  destruct (captureScreen windowsThreeScreens None emptyWorld)
    as [r w'] eqn:Hrun.
  assert (r = Ok "C:\Temp\screenshot_1700000000000.png") as ->.
  { pose proof Hrun as H. vm_compute in H. injection H as <- _. reflexivity. }
  exists w2, w3, w'. split; [reflexivity |]. split; [reflexivity |].
  split; [reflexivity |]. split; [exact Ht2 |]. split; [reflexivity |].
  exact (captureScreen_windows_success_removes_script windowsThreeScreens
           emptyWorld emptyWorld w2 w3 w' "win32" None _ _ _ _ _
           eq_refl eq_refl Ht1 Ht2 (fun _ => eq_refl) Hrun).
Defined.

(* ================================================================= *)
(** ** Where the monitors of [xrandr] come from *)

Lemma string_app_assoc a b c : (a ++ b) ++ c = a ++ b ++ c.
Proof.
  induction a as [| ch a IH]; [reflexivity |].
  cbn [String.append]. now rewrite IH.
Qed.

Lemma drop_append p b : drop (String.length p) (p ++ b) = b.
Proof. induction p as [| c p IH]; [now destruct b | exact IH]. Qed.

Section RegexSplits.
Context {R : Type}.

Lemma re_search_split (m : string -> option R) s r :
  re_search m s = Some r -> exists pre s', s = pre ++ s' /\ m s' = Some r.
Proof.
  induction s as [| c s IH]; simpl.
  - destruct (m "") eqn:Hm; [| discriminate].
    intros [= <-]. now exists "", "".
  - destruct (m (String c s)) eqn:Hm.
    + intros [= <-]. now exists "", (String c s).
    + intros H. apply IH in H as (pre & s' & -> & H).
      now exists (String c pre), s'.
Qed.

Lemma re_lit_split p (k : string -> option R) s r :
  re_lit p k s = Some r -> exists rest, s = p ++ rest /\ k rest = Some r.
Proof.
  unfold re_lit. destruct (String.prefix p s) eqn:Hp; [| discriminate].
  apply prefix_inv in Hp as (rest & ->). rewrite drop_append.
  intros Hk. now exists rest.
Qed.

Lemma re_star_greedy_split cls (k : string -> string -> option R) acc s r :
  re_star_greedy cls k acc s = Some r ->
  exists g rest, s = string_of_list_ascii g ++ rest /\
                 k (string_of_list_ascii (rev acc ++ g)) rest = Some r.
Proof.
  revert acc. induction s as [| c s IH]; intros acc; simpl.
  - intros Hk. exists [], "". now rewrite app_nil_r.
  - destruct (cls c).
    + destruct (re_star_greedy cls k (c :: acc) s) as [r' |] eqn:Hrec.
      * intros [= <-]. apply IH in Hrec as (g & rest & -> & Hk).
        exists (c :: g), rest. split; [reflexivity |].
        simpl in Hk. now rewrite <- app_assoc in Hk.
      * intros Hk. exists [], (String c s). now rewrite app_nil_r.
    + intros Hk. exists [], (String c s). now rewrite app_nil_r.
Qed.

Lemma re_plus_group_split cls (k : string -> string -> option R) s r :
  re_plus_group cls k s = Some r ->
  exists g rest, s = g ++ rest /\ k g rest = Some r.
Proof.
  unfold re_plus_group. destruct s as [| c s]; [discriminate |].
  destruct (cls c); [| discriminate].
  intros Hrun. apply re_star_greedy_split in Hrun as (g & rest & -> & Hk).
  now exists (string_of_list_ascii (c :: g)), rest.
Qed.
End RegexSplits.

Lemma matchConnected_connected line groups :
  matchConnected line = Some groups ->
  exists a b, line = a ++ " connected" ++ b.
Proof.
  unfold matchConnected. intros H.
  apply re_search_split in H as (pre & s0 & -> & H).
  apply re_plus_group_split in H as (g1 & r1 & -> & H).
  apply re_lit_split in H as (r2 & -> & _).
  exists (pre ++ g1), r2. now rewrite string_app_assoc.
Qed.

Lemma parseXrandrLines_provenance lines monitors m :
  m ∈ parseXrandrLines lines monitors ->
  m ∈ monitors \/
  exists line g2 g3 g4 g5,
    line ∈ lines /\
    matchConnected line = Some (g2, g3, g4, g5) /\
    geometry m = (parseInt g4, parseInt g5, parseInt g2, parseInt g3).
Proof.
  revert monitors. induction lines as [| line rest IH]; intros monitors;
    simpl; [now left |].
  destruct (matchConnected line) as [[[[g2 g3] g4] g5] |] eqn:Hmatch.
  - intros Hm. apply IH in Hm as [Hm | (l & h2 & h3 & h4 & h5 & Hl & H)].
    + apply elem_of_app in Hm as [Hm | Hm]; [now left |].
      apply list_elem_of_singleton in Hm as ->. right.
      exists line, g2, g3, g4, g5. split; [constructor |]. now split.
    + right. exists l, h2, h3, h4, h5. split; [now constructor | exact H].
  - intros Hm. apply IH in Hm as [Hm | (l & h2 & h3 & h4 & h5 & Hl & H)];
      [now left |].
    right. exists l, h2, h3, h4, h5. split; [now constructor | exact H].
Qed.

(** X23.  On native Linux every enumerated monitor was read from a line
    of the output of [xrandr --query] that contains [ connected]: the
    line matches the pattern of the program, and the monitor takes its
    width and height from the first two numbers of the geometry and its
    position from the last two.  A disconnected output, or a line without
    a geometry, yields no monitor. *)
Theorem getScreenInfo_linux_provenance (E : Env) (w w1 w' : World)
    (monitors : list Monitor) (m : Monitor) :
  detectPlatform E w = (Ok "linux", w1) ->
  getScreenInfo E w = (Ok monitors, w') ->
  m ∈ monitors ->
  exists line g2 g3 g4 g5,
    line ∈ split (String lf "")
             (exec_stdout (exec_outcome E (tick w1) "xrandr --query")) /\
    (exists a b, line = a ++ " connected" ++ b) /\
    matchConnected line = Some (g2, g3, g4, g5) /\
    geometry m = (parseInt g4, parseInt g5, parseInt g2, parseInt g3).
Proof.
  intros Hp Hrun Hm. unfold getScreenInfo in Hrun.
  rewrite (bind_ok _ _ _ _ _ Hp) in Hrun.
  change (isWindowsFamily "linux") with false in Hrun.
  change (String.eqb "linux" "darwin") with false in Hrun.
  change (String.eqb "linux" "linux") with true in Hrun.
  cbv iota in Hrun.
  apply try_catch_ok_inv in Hrun as [Hrun | (e & w2 & _ & Hrun)];
    [| injection Hrun as <- _; now apply elem_of_nil in Hm].
  apply bind_ok_inv in Hrun as ([stdout stderr] & w2 & Hexec & Hrun).
  injection Hrun as <- _.
  unfold execAsync in Hexec.
  destruct (exec_error (exec_outcome E (tick w1) "xrandr --query"));
    [discriminate |].
  injection Hexec as <- _ _.
  apply parseXrandrLines_provenance in Hm
    as [Hm | (line & g2 & g3 & g4 & g5 & Hline & Hmatch & Hgeo)];
    [now apply elem_of_nil in Hm |].
  exists line, g2, g3, g4, g5. split; [exact Hline |].
  split; [now apply matchConnected_connected in Hmatch |]. now split.
Qed.

Lemma getScreenInfo_linux_provenance_witness :
  exists w1 monitors w' m line g2 g3 g4 g5,
    detectPlatform linuxZeroSize emptyWorld = (Ok "linux", w1) /\
    getScreenInfo linuxZeroSize emptyWorld = (Ok monitors, w') /\
    m ∈ monitors /\
    line ∈ split (String lf "")
             (exec_stdout
                (exec_outcome linuxZeroSize (tick w1) "xrandr --query")) /\
    (exists a b, line = a ++ " connected" ++ b) /\
    matchConnected line = Some (g2, g3, g4, g5) /\
    geometry m = (parseInt g4, parseInt g5, parseInt g2, parseInt g3).
Proof.
  destruct (detectPlatform linuxZeroSize emptyWorld) as [p w1] eqn:Hp.
  assert (p = Ok "linux") as ->.
  { pose proof Hp as H. vm_compute in H. injection H as <- _. reflexivity. }
  destruct (getScreenInfo linuxZeroSize emptyWorld) as [r w'] eqn:Hrun.
  assert (exists a b, r = Ok [a; b]) as (a & b & ->).
  { pose proof Hrun as H. vm_compute in H. injection H as <- _.
    now eexists _, _. }
  assert (a ∈ [a; b]) as Hm by constructor.
  destruct (getScreenInfo_linux_provenance linuxZeroSize emptyWorld w1 w'
              [a; b] a Hp Hrun Hm)
    as (line & g2 & g3 & g4 & g5 & H).
  exists w1, [a; b], w', a, line, g2, g3, g4, g5.
  split; [reflexivity |]. split; [reflexivity |]. split; [exact Hm |]. exact H.
Defined.

(* ================================================================= *)
(** ** The values of [--display] *)

(** X24.  When [--display] is [NaN] (the option was given a value that is
    not a number), both comparisons of the range check are false, so the
    check passes whatever the number of monitors; no monitor is found,
    [captureScreen] is called without a monitor, which captures the whole
    desktop, and the run then ends with exit code 1: on the error of the
    capture, or on the [TypeError] raised by reading [index] of the
    monitor that was not found. *)
Theorem main_nan_display (E : Env) (argv : Argv) (w w2 : World)
    (monitors : list Monitor) :
  display argv = Some NaN ->
  enumerationPhase E argv w = (Ok monitors, w2) ->
  exists r w3,
    captureScreen E None (with_line (Out "Capturing display NaN...") w2)
      = (r, w3) /\
    main E argv w =
      (Exit 1, with_line (Err ("Error: " ++ messageOf r typeError_index)) w3).
Proof.
  intros Hd Henum.
  destruct (captureScreen E None
              (with_line (Out "Capturing display NaN...") w2))
    as [r w3] eqn:Hcap.
  exists r, w3. split; [reflexivity |].
  rewrite (main_after_enumeration E _ _ _ _ Henum), Hd.
  unfold singleDisplay.
  change (lt NaN (Fin 1) || gt NaN (of_nat (length monitors))) with false.
  assert (List.find (fun m => strict_eq (of_nat (index m)) NaN) monitors
          = None) as ->.
  { clear. induction monitors as [| m l IH]; [reflexivity | exact IH]. }
  change (toString NaN) with "NaN".
  unfold with_line in Hcap |- *.
  unfold try_catch, bind, ret, console_log, throw. cbv beta iota zeta.
  change ("Capturing display " ++ "NaN" ++ "...")
    with "Capturing display NaN...".
  rewrite Hcap.
  destruct r as [tmp | e | c]; try reflexivity.
  exfalso. exact (no_exit_captureScreen E None _ _ _ Hcap).
Qed.

Lemma main_nan_display_witness :
  exists monitors w2 r w3,
    display argvDisplayNaN = Some NaN /\
    enumerationPhase macTwoDisplays argvDisplayNaN emptyWorld
      = (Ok monitors, w2) /\
    captureScreen macTwoDisplays None
      (with_line (Out "Capturing display NaN...") w2) = (r, w3) /\
    main macTwoDisplays argvDisplayNaN emptyWorld =
      (Exit 1, with_line (Err ("Error: " ++ messageOf r typeError_index)) w3).
Proof.
  destruct (enumerationPhase macTwoDisplays argvDisplayNaN emptyWorld)
    as [r0 w2] eqn:Henum.
  assert (exists monitors, r0 = Ok monitors) as (monitors & ->).
  { pose proof Henum as H. vm_compute in H. injection H as <- _.
    now eexists. }
  destruct (main_nan_display macTwoDisplays argvDisplayNaN emptyWorld w2
              monitors eq_refl Henum) as (r & w3 & Hcap & Hmain).
  exists monitors, w2, r, w3.
  split; [reflexivity |]. split; [reflexivity |]. now split.
Defined.

Lemma of_nat_lt a b : lt (of_nat a) (of_nat b) = (a <? b)%nat.
Proof.
  unfold lt, of_nat. destruct (Nat.ltb_spec a b).
  - apply Qltb_lt. rewrite <- Zlt_Qlt. lia.
  - apply Qltb_ge. rewrite <- Zle_Qle. lia.
Qed.

(** X25.  When [--display k] is given with [k] an integer in [1..count],
    the range check passes and the monitor captured is the one at
    position [k] of the enumeration, whose index is [k].  If that capture
    fails the run ends with exit code 1 on its error, and a run that
    returns has saved [DisplayImage<k>] and nothing else. *)
Theorem main_valid_display (E : Env) (argv : Argv) (w w2 : World)
    (monitors : list Monitor) (k : nat) :
  display argv = Some (of_nat k) ->
  enumerationPhase E argv w = (Ok monitors, w2) ->
  1 <= k <= length monitors ->
  exists m r w3,
    monitors !! (k - 1) = Some m /\
    index m = k /\
    captureScreen E (Some m)
      (with_line (Out ("Capturing display " ++ toString (of_nat k) ++ "..."))
         w2) = (r, w3) /\
    (forall e, r = Throw e ->
       main E argv w = (Exit 1, with_line (Err ("Error: " ++ e)) w3)) /\
    (forall saved w', main E argv w = (Ok saved, w') ->
       saved = [displayFile E (outputDirOf E argv) (format argv)
                  (timestampAt E w) k]).
Proof.
  intros Hd Henum Hk.
  assert (indexed monitors) as Hidx.
  { pose proof Henum as H. unfold enumerationPhase in H.
    apply bind_ok_inv in H as (ts & w0 & _ & H).
    apply bind_ok_inv in H as ([] & w1 & _ & H).
    exact (returns_indexed_getScreenInfo E _ _ _ H). }
  destruct (lookup_lt_is_Some_2 monitors (k - 1)) as [m Hm]; [lia |].
  assert (index m = k) as Hindex by (rewrite (Hidx _ _ Hm); lia).
  assert (List.find (fun m => strict_eq (of_nat (index m)) (of_nat k))
            monitors = Some m) as Hfind.
  { assert (forall i m', monitors !! i = Some m' -> index m' = 0 + i + 1)
      as Hfrom by (intros i m' Hi; now rewrite (Hidx _ _ Hi)).
    pose proof (find_indexed_from monitors 0 (k - 1) m Hfrom Hm) as H.
    replace (0 + (k - 1) + 1) with k in H by lia. exact H. }
  destruct (captureScreen E (Some m)
              (with_line
                 (Out ("Capturing display " ++ toString (of_nat k) ++ "..."))
                 w2)) as [r w3] eqn:Hcap.
  exists m, r, w3. split; [exact Hm |]. split; [exact Hindex |].
  split; [exact Hcap |]. split.
  - intros e ->.
    rewrite (main_after_enumeration E _ _ _ _ Henum), Hd.
    unfold singleDisplay.
    assert (lt (of_nat k) (Fin 1) || gt (of_nat k) (of_nat (length monitors))
            = false) as ->.
    { change (Fin 1) with (of_nat 1). unfold gt. rewrite !of_nat_lt.
      apply orb_false_iff. split; apply Nat.ltb_ge; lia. }
    rewrite Hfind. unfold with_line in Hcap |- *.
    unfold try_catch, bind, ret, console_log. cbv beta iota zeta.
    rewrite Hcap. reflexivity.
  - intros saved w' Hrun.
    apply main_ok_inv in Hrun as (monitors' & w2' & w3' & Henum' & Hbranch & _).
    rewrite Hd in Hbranch.
    apply singleDisplay_saved in Hbranch as (m' & _ & Heq & ->).
    rewrite of_nat_strict_eq in Heq. apply Nat.eqb_eq in Heq.
    now rewrite Heq.
Qed.

Lemma main_valid_display_witness :
  exists monitors w2 m r w3,
    display argvDisplay2 = Some (of_nat 2) /\
    enumerationPhase macTwoDisplays argvDisplay2 emptyWorld
      = (Ok monitors, w2) /\
    1 <= 2 <= length monitors /\
    monitors !! (2 - 1) = Some m /\
    index m = 2 /\
    captureScreen macTwoDisplays (Some m)
      (with_line (Out ("Capturing display " ++ toString (of_nat 2) ++ "..."))
         w2) = (r, w3) /\
    (forall saved w',
       main macTwoDisplays argvDisplay2 emptyWorld = (Ok saved, w') ->
       saved = [displayFile macTwoDisplays
                  (outputDirOf macTwoDisplays argvDisplay2)
                  (format argvDisplay2)
                  (timestampAt macTwoDisplays emptyWorld) 2]).
Proof.
  destruct (enumerationPhase macTwoDisplays argvDisplay2 emptyWorld)
    as [r0 w2] eqn:Henum.
  assert (r0 = Ok [firstDisplay; secondDisplay]) as ->.
  { pose proof Henum as H. vm_compute in H. injection H as <- _. reflexivity. }
  assert (1 <= 2 <= length [firstDisplay; secondDisplay]) as Hk
    by (simpl; lia).
  destruct (main_valid_display macTwoDisplays argvDisplay2 emptyWorld w2
              [firstDisplay; secondDisplay] 2 eq_refl Henum Hk)
    as (m & r & w3 & Hm & Hindex & Hcap & _ & Hsaved).
  exists [firstDisplay; secondDisplay], w2, m, r, w3.
  split; [reflexivity |]. split; [reflexivity |]. split; [exact Hk |].
  split; [exact Hm |]. split; [exact Hindex |]. split; [exact Hcap |].
  exact Hsaved.
Defined.

(* ================================================================= *)
(** ** The worlds of a run *)

Lemma later_refl w : later w w.
Proof.
  split; [exists []; now rewrite app_nil_r |].
  split; [exists []; now rewrite app_nil_r | auto].
Qed.

Lemma later_trans w1 w2 w3 : later w1 w2 -> later w2 w3 -> later w1 w3.
Proof.
  intros ((l1 & Hl1) & (e1 & He1) & Hf1) ((l2 & Hl2) & (e2 & He2) & Hf2).
  split; [exists (l1 ++ l2)%list; now rewrite Hl2, Hl1, app_assoc |].
  split; [exists (e1 ++ e2)%list; now rewrite He2, He1, app_assoc |].
  auto.
Qed.

Lemma later_with_line l w : later w (with_line l w).
Proof.
  split; [now exists [l] |].
  split; [exists []; cbn [trace with_line]; now rewrite app_nil_r | auto].
Qed.

Lemma later_console w w' l : later w w' -> l ∈ console w -> l ∈ console w'.
Proof.
  intros ((lines & ->) & _) Hl. apply elem_of_app. now left.
Qed.

Lemma later_files w w' path :
  later w w' -> ~ temporaryPath path -> path ∈ files w -> path ∈ files w'.
Proof. intros (_ & _ & Hf) Hnot Hin. now apply Hf. Qed.

Lemma later_trace w w' :
  later w w' -> exists evs, trace w' = (trace w ++ evs)%list.
Proof. now intros (_ & He & _). Qed.

Section Advances.
Context {A B : Type}.
Implicit Types (m : M A) (k : A -> M B).

Lemma advances_ret (a : A) : advances (ret a).
Proof. intros w r w' [= <- <-]. apply later_refl. Qed.

Lemma advances_throw e : advances (@throw A e).
Proof. intros w r w' [= <- <-]. apply later_refl. Qed.

Lemma advances_process_exit c : advances (@process_exit A c).
Proof. intros w r w' [= <- <-]. apply later_refl. Qed.

Lemma advances_bind_of (R : A -> Prop) m k :
  returns R m -> advances m -> (forall a, R a -> advances (k a)) ->
  advances (bind m k).
Proof.
  intros HR Hm Hk w r w'. unfold bind.
  destruct (m w) as [[a | e | c] w1] eqn:Hrun.
  - intros Hrun2. apply later_trans with w1; [exact (Hm _ _ _ Hrun) |].
    exact (Hk a (HR _ _ _ Hrun) _ _ _ Hrun2).
  - intros [= <- <-]. exact (Hm _ _ _ Hrun).
  - intros [= <- <-]. exact (Hm _ _ _ Hrun).
Qed.

Lemma advances_bind m k :
  advances m -> (forall a, advances (k a)) -> advances (bind m k).
Proof.
  intros Hm Hk. apply (advances_bind_of (fun _ => True)); auto.
  intros w a w' _. exact I.
Qed.

Lemma advances_try_catch m (h : string -> M A) :
  advances m -> (forall e, advances (h e)) -> advances (try_catch m h).
Proof.
  intros Hm Hh w r w'. unfold try_catch.
  destruct (m w) as [[a | e | c] w1] eqn:Hrun.
  - intros [= <- <-]. exact (Hm _ _ _ Hrun).
  - intros Hrun2. apply later_trans with w1; [exact (Hm _ _ _ Hrun) |].
    exact (Hh _ _ _ _ Hrun2).
  - intros [= <- <-]. exact (Hm _ _ _ Hrun).
Qed.
End Advances.

Lemma advances_console_log s : advances (console_log s).
Proof. intros w r w' [= <- <-]. apply (later_with_line (Out s)). Qed.

Lemma advances_console_error s : advances (console_error s).
Proof. intros w r w' [= <- <-]. apply (later_with_line (Err s)). Qed.

Lemma advances_read_clock {A} (f : nat -> A) : advances (read_clock f).
Proof.
  intros w r w' [= <- <-].
  split; [exists []; cbn [console]; now rewrite app_nil_r |].
  split; [exists []; cbn [trace]; now rewrite app_nil_r | auto].
Qed.

Section AdvancesPrimitives.
Context (E : Env).

(** An external call whose effect on the files keeps every path that
    is not temporary. *)
Lemma advances_io {A} ev (run : gset string -> Result A * gset string) :
  (forall fs path, path ∈ fs -> ~ temporaryPath path -> path ∈ snd (run fs)) ->
  advances (io E ev run).
Proof.
  intros Hrun w r w'. unfold io.
  destruct (io_error E (tick w) ev) as [msg |].
  - intros [= <- <-].
    split; [exists []; cbn [console]; now rewrite app_nil_r |].
    split; [now exists [ev] | auto].
  - destruct (run (files w)) as [r0 fs] eqn:Hfs. intros [= <- <-].
    split; [exists []; cbn [console]; now rewrite app_nil_r |].
    split; [now exists [ev] |].
    intros path Hin Hnot. cbn [files].
    specialize (Hrun (files w) path Hin Hnot). now rewrite Hfs in Hrun.
Qed.

Lemma advances_fs_access path : advances (fs_access E path).
Proof.
  apply advances_io. intros fs p Hin _.
  now destruct (bool_decide (path ∈ fs)).
Qed.

Lemma advances_fs_mkdir path : advances (fs_mkdir E path).
Proof.
  apply advances_io. intros fs p Hin _. cbn [snd].
  apply elem_of_union. now right.
Qed.

Lemma advances_fs_writeFile path content :
  advances (fs_writeFile E path content).
Proof.
  apply advances_io. intros fs p Hin _. cbn [snd].
  apply elem_of_union. now right.
Qed.

Lemma advances_fs_copyFile src dst : advances (fs_copyFile E src dst).
Proof.
  apply advances_io. intros fs p Hin _.
  destruct (bool_decide (src ∈ fs)); cbn [snd]; [| exact Hin].
  apply elem_of_union. now right.
Qed.

Lemma advances_Jimp_read path : advances (Jimp_read E path).
Proof.
  apply advances_io. intros fs p Hin _.
  now destruct (bool_decide (path ∈ fs)).
Qed.

Lemma advances_Jimp_write path quality :
  advances (Jimp_write E path quality).
Proof.
  apply advances_io. intros fs p Hin _. cbn [snd].
  apply elem_of_union. now right.
Qed.

(** Removing a file; it advances the world when the file is a
    temporary one. *)
Lemma advances_fs_unlink path :
  temporaryPath path -> advances (fs_unlink E path).
Proof.
  intros Htemp. apply advances_io. intros fs p Hin Hnot.
  destruct (bool_decide (path ∈ fs)); cbn [snd]; [| exact Hin].
  apply elem_of_difference. split; [exact Hin |].
  intros Heq. apply elem_of_singleton in Heq. now subst p.
Qed.

Lemma advances_execAsync cmd : advances (execAsync E cmd).
Proof.
  intros w r w'. unfold execAsync. intros [= <- <-].
  split; [exists []; cbn [console]; now rewrite app_nil_r |].
  split; [now exists [EvExec cmd] |].
  intros p Hin _. cbn [files]. apply elem_of_union. now right.
Qed.
End AdvancesPrimitives.

Create HintDb adv discriminated.

#[export] Hint Resolve
  advances_ret advances_throw advances_process_exit
  advances_console_log advances_console_error advances_read_clock
  advances_fs_access advances_fs_mkdir advances_fs_writeFile
  advances_fs_copyFile advances_Jimp_read advances_Jimp_write
  advances_fs_unlink advances_execAsync : adv.

(** Walks down a computation that advances the world. *)
Ltac adv_auto :=
  repeat first
    [ solve [auto with adv]
    | apply advances_bind; [| intros ?]
    | apply advances_try_catch; [| intros ?]
    | match goal with
      | |- advances (match ?t with _ => _ end) => destruct t
      | |- advances (swallow _) => unfold swallow
      end ];
  auto with adv.

Section AdvancesProgram.
Context (E : Env).

Lemma advances_detectPlatform : advances (detectPlatform E).
Proof. unfold detectPlatform. adv_auto. Qed.

Lemma advances_tempPath platform stem ext :
  advances (tempPath E platform stem ext).
Proof. unfold tempPath. adv_auto. Qed.

(** The paths chosen for temporary files have the temporary shape. *)
Lemma returns_tempPath platform stem ext :
  returns (fun paths => temporaryName ext (fst paths))
          (tempPath E platform stem ext).
Proof.
  unfold tempPath. destruct (String.eqb platform "wsl").
  - cbv zeta. apply returns_try_catch.
    + apply returns_bind. intros _. apply returns_bind. intros now.
      apply returns_ret. cbn [fst].
      exists (("/mnt/c/Users/" ++ path_basename (os_homedir E)
                 ++ "/AppData/Local/Temp") ++ "/" ++ stem), now.
      now rewrite !string_app_assoc.
    + intros e. apply returns_bind. intros now.
      apply returns_ret. cbn [fst].
      exists ("/tmp/" ++ stem), now. now rewrite !string_app_assoc.
  - apply returns_bind. intros now. apply returns_ret. cbn [fst].
    unfold path_join.
    exists (os_tmpdir E
              ++ (if String.eqb (os_platform E) "win32"
                  then String bs "" else "/") ++ stem), now.
    now rewrite !string_app_assoc.
Qed.

Lemma returns_captureScreen monitor :
  returns (temporaryName ".png") (captureScreen E monitor).
Proof.
  unfold captureScreen. apply returns_bind. intros platform.
  apply (returns_bind_of _ _ _ _
           (returns_tempPath platform "screenshot" ".png")).
  intros [tempFile windowsTempFile] Htemp. cbn [fst] in Htemp.
  apply returns_try_catch; [| intros e; apply returns_throw].
  apply returns_bind. intros _. now apply returns_ret.
Qed.

Lemma advances_captureScreen monitor : advances (captureScreen E monitor).
Proof.
  unfold captureScreen.
  pose proof advances_detectPlatform. pose proof advances_tempPath.
  apply advances_bind; [assumption | intros platform].
  apply advances_bind; [auto | intros [tempFile windowsTempFile]].
  apply advances_try_catch; [| intros e; auto with adv].
  apply advances_bind; [| intros; auto with adv].
  destruct (isWindowsFamily platform); [| adv_auto].
  apply (advances_bind_of _ _ _
           (returns_tempPath platform "capture" ".ps1")); [auto |].
  intros [psScript psScriptWin] Htemp. cbn [fst] in Htemp.
  assert (temporaryPath psScript) by now right.
  adv_auto.
Qed.

Lemma advances_placeScreenshot f q src dst :
  temporaryPath src -> advances (placeScreenshot E f q src dst).
Proof. intros Htemp. unfold placeScreenshot, convertImage. adv_auto. Qed.

Lemma advances_captureDisplay dir f q ts monitor :
  advances (captureDisplay E dir f q ts monitor).
Proof.
  unfold captureDisplay.
  apply (advances_bind_of _ _ _ (returns_captureScreen (Some monitor)));
    [apply advances_captureScreen |].
  intros shot Hshot.
  assert (temporaryPath shot) as Htemp by now left.
  pose proof (advances_placeScreenshot f q shot
                (displayFile E dir f ts (index monitor)) Htemp).
  adv_auto.
Qed.

Lemma advances_loopBody dir f q ts monitor :
  advances (loopBody E dir f q ts monitor).
Proof.
  unfold loopBody. pose proof (advances_captureDisplay dir f q ts monitor).
  adv_auto.
Qed.

Lemma advances_desktopPart dir f q ts :
  advances (desktopPart E dir f q ts).
Proof.
  unfold desktopPart.
  apply (advances_bind_of _ _ _ (returns_captureScreen None));
    [apply advances_captureScreen |].
  intros shot Hshot. apply advances_placeScreenshot. now left.
Qed.

Lemma later_loopEnd dir f q ts monitors w :
  later w (loopEnd E dir f q ts monitors w).
Proof.
  revert w. induction monitors as [| m rest IH]; intros w;
    [apply later_refl |].
  cbn [loopEnd fold_left].
  apply later_trans with (snd (loopBody E dir f q ts m w)); [| apply IH].
  destruct (loopBody E dir f q ts m w) as [r w1] eqn:Hrun.
  exact (advances_loopBody dir f q ts m _ _ _ Hrun).
Qed.

(** The loop ends after every one of its turns. *)
Lemma later_iteration dir f q ts monitors w m u :
  (m, u) ∈ iterations E dir f q ts monitors w ->
  later w u /\
  later (snd (loopBody E dir f q ts m u)) (loopEnd E dir f q ts monitors w).
Proof.
  revert w. induction monitors as [| m0 rest IH]; intros w Hin;
    [now apply elem_of_nil in Hin |].
  cbn [iterations] in Hin. apply elem_of_cons in Hin as [[= -> ->] | Hin].
  - split; [apply later_refl |].
    exact (later_loopEnd dir f q ts rest _).
  - destruct (IH _ Hin) as [Hbefore Hafter]. split; [| exact Hafter].
    apply later_trans with (snd (loopBody E dir f q ts m0 w));
      [| exact Hbefore].
    destruct (loopBody E dir f q ts m0 w) as [r w1] eqn:Hrun.
    exact (advances_loopBody dir f q ts m0 _ _ _ Hrun).
Qed.
End AdvancesProgram.

Lemma advances_logFiles l : advances (logFiles l).
Proof. induction l as [| file l IH]; simpl; adv_auto. Qed.

Lemma advances_reportSaved l : advances (reportSaved l).
Proof. unfold reportSaved. pose proof (advances_logFiles l). adv_auto. Qed.

(* ================================================================= *)
(** ** Output files are not temporary files *)

Lemma list_ascii_of_string_app a b :
  list_ascii_of_string (a ++ b)
  = (list_ascii_of_string a ++ list_ascii_of_string b)%list.
Proof.
  induction a as [| c a IH]; [reflexivity |].
  cbn [String.append list_ascii_of_string app]. now rewrite IH.
Qed.

Lemma uint_digits d :
  forallb re_digit (list_ascii_of_string (NilEmpty.string_of_uint d)) = true.
Proof. induction d; simpl; auto. Qed.

Lemma uint_chars d :
  d <> Decimal.Nil ->
  list_ascii_of_string (NilZero.string_of_uint d) <> [] /\
  forallb re_digit (list_ascii_of_string (NilZero.string_of_uint d)) = true.
Proof.
  destruct d; intros Hd; try (now destruct Hd);
    (split; [discriminate | simpl; apply uint_digits]).
Qed.

(** The characters of a printed integer: a minus sign when it is
    negative, then at least one digit and nothing but digits. *)
Lemma string_of_Z_chars z :
  exists sign ds,
    list_ascii_of_string (string_of_Z z) = (sign ++ ds)%list /\
    (sign = [] \/ ((z < 0)%Z /\ sign = ["-"%char])) /\
    ds <> [] /\ forallb re_digit ds = true.
Proof.
  unfold string_of_Z. destruct z as [| p | p].
  - exists [], ["0"%char]. repeat split; auto; discriminate.
  - destruct (uint_chars (Pos.to_uint p)
                (DecimalPos.Unsigned.to_uint_nonnil p)) as [Hne Hds].
    exists [], (list_ascii_of_string
                  (NilZero.string_of_uint (Pos.to_uint p))).
    repeat split; auto.
  - destruct (uint_chars (Pos.to_uint p)
                (DecimalPos.Unsigned.to_uint_nonnil p)) as [Hne Hds].
    exists ["-"%char], (list_ascii_of_string
                          (NilZero.string_of_uint (Pos.to_uint p))).
    repeat split; auto. right. split; [lia | reflexivity].
Qed.

Lemma forallb_repeat {A} (f : A -> bool) a n :
  f a = true -> forallb f (repeat a n) = true.
Proof. intros Ha. induction n as [| n IH]; simpl; [| rewrite Ha]; auto. Qed.

(** The two-digit fields of a timestamp are made of digits. *)
Lemma pad2_chars n :
  list_ascii_of_string (pad2 n) <> [] /\
  forallb re_digit (list_ascii_of_string (pad2 n)) = true.
Proof.
  unfold pad2, padStart, string_of_nat.
  rewrite list_ascii_of_string_app, list_ascii_of_string_of_list_ascii.
  destruct (string_of_Z_chars (Z.of_nat n))
    as (sign & ds & -> & [-> | [Hneg _]] & Hne & Hds); [| lia].
  cbn [app]. split.
  - intros H. apply app_eq_nil in H as [_ H]. now apply Hne.
  - rewrite forallb_app, Hds, forallb_repeat; reflexivity.
Qed.

Lemma forallb_rev {A} (f : A -> bool) l :
  forallb f l = true -> forallb f (rev l) = true.
Proof.
  rewrite !forallb_forall. intros H a Ha. apply H. now apply in_rev.
Qed.

(** Two texts that start with digits and go on with something else
    agree on where the digits stop. *)
Lemma digit_span (d1 d2 : list ascii) c1 c2 t1 t2 :
  forallb re_digit d1 = true -> forallb re_digit d2 = true ->
  re_digit c1 = false -> re_digit c2 = false ->
  (d1 ++ c1 :: t1 = d2 ++ c2 :: t2)%list ->
  d1 = d2 /\ c1 = c2 /\ t1 = t2.
Proof.
  revert d2. induction d1 as [| a d1 IH]; intros [| b d2] H1 H2 Hc1 Hc2;
    cbn [app]; intros [= Ha Ht].
  - now subst.
  - subst c1. simpl in H2. apply andb_true_iff in H2 as [H2 _]. congruence.
  - subst c2. simpl in H1. apply andb_true_iff in H1 as [H1 _]. congruence.
  - simpl in H1, H2.
    apply andb_true_iff in H1 as [_ H1]. apply andb_true_iff in H2 as [_ H2].
    destruct (IH d2 H1 H2 Hc1 Hc2 Ht) as (-> & -> & ->). now subst.
Qed.

(** A temporary name and an output name never coincide: read from the
    end, a temporary name has its extension, the digits of the clock, a
    possible minus sign and an underscore; an output name has its
    format, a dot, the digits of the seconds, a hyphen and a digit of the
    minutes. *)
Lemma temp_vs_output (tx ta n mm ss ext fmt : list ascii) :
  (exists sign ds, n = (sign ++ ds)%list /\
     (sign = [] \/ sign = ["-"%char]) /\ ds <> [] /\
     forallb re_digit ds = true) ->
  mm <> [] -> forallb re_digit mm = true ->
  forallb re_digit ss = true ->
  ext = list_ascii_of_string ".png" \/ ext = list_ascii_of_string ".ps1" ->
  In fmt (map list_ascii_of_string ["png"; "jpg"; "jpeg"; "bmp"]) ->
  (tx ++ "_"%char :: n ++ ext
   = ta ++ "-"%char :: mm ++ "-"%char :: ss ++ "."%char :: fmt)%list ->
  False.
Proof.
  intros (sign & ds & -> & Hsign & Hds & Hdigits) Hmm Hmmd Hssd Hext Hfmt H.
  apply (f_equal (@rev ascii)) in H.
  repeat (rewrite ?rev_app_distr in H; cbn [rev] in H).
  rewrite <- !app_assoc in H. cbn [app] in H.
  apply forallb_rev in Hdigits, Hmmd, Hssd.
  assert (exists d rest, rev mm = d :: rest /\ re_digit d = true)
    as (d & rest & Hrev & Hd).
  { destruct (rev mm) as [| d rest] eqn:Hr.
    - apply (f_equal (@rev ascii)) in Hr. rewrite rev_involutive in Hr.
      now destruct Hmm.
    - exists d, rest. split; [reflexivity |].
      simpl in Hmmd. now apply andb_true_iff in Hmmd as [Hd _]. }
  rewrite Hrev in H.
  cbn [map In] in Hfmt.
  destruct Hext as [-> | ->];
    destruct Hfmt as [<- | [<- | [<- | [<- | []]]]];
    cbn [list_ascii_of_string rev app] in H; try discriminate H.
  injection H as H.
  destruct Hsign as [-> | ->]; cbn [rev app] in H.
  - apply digit_span in H as (_ & Hc & _); [discriminate Hc | auto ..].
  - apply digit_span in H as (_ & _ & Ht); auto.
    cbn [app] in Ht. injection Ht as <- _. discriminate Hd.
Qed.

Lemma output_not_temporary E dir name fmt date :
  formatChoice fmt ->
  ~ temporaryPath
      (path_join E dir (generateFilename name fmt (timestampOf date))).
Proof.
  intros Hfmt Htemp.
  assert (exists ext stem now,
            (ext = ".png" \/ ext = ".ps1") /\
            path_join E dir (generateFilename name fmt (timestampOf date))
            = stem ++ "_" ++ string_of_Z now ++ ext)
    as (ext & stem & now & Hext & Heq).
  { destruct Htemp as [(stem & now & H) | (stem & now & H)];
      eexists _, stem, now; (split; [| exact H]); auto. }
  unfold path_join, generateFilename, timestampOf in Heq.
  cbn [year month day hours minutes seconds] in Heq.
  apply (f_equal list_ascii_of_string) in Heq.
  rewrite !list_ascii_of_string_app in Heq.
  destruct (pad2_chars (getMinutes date)) as [Hmm Hmmd].
  destruct (pad2_chars (getSeconds date)) as [_ Hssd].
  apply (temp_vs_output
           (list_ascii_of_string stem)
           (list_ascii_of_string dir ++
            list_ascii_of_string
              (if String.eqb (os_platform E) "win32"
               then String bs "" else "/") ++
            list_ascii_of_string name ++
            list_ascii_of_string "_" ++
            list_ascii_of_string (string_of_nat (getFullYear date)) ++
            list_ascii_of_string "-" ++
            list_ascii_of_string (pad2 (getMonth date + 1)) ++
            list_ascii_of_string "-" ++
            list_ascii_of_string (pad2 (getDate date)) ++
            list_ascii_of_string "_" ++
            list_ascii_of_string (pad2 (getHours date)))%list
           (list_ascii_of_string (string_of_Z now))
           (list_ascii_of_string (pad2 (getMinutes date)))
           (list_ascii_of_string (pad2 (getSeconds date)))
           (list_ascii_of_string ext)
           (list_ascii_of_string fmt)); auto.
  - destruct (string_of_Z_chars now) as (sign & ds & Hn & Hsign & Hds & Hd).
    exists sign, ds. split; [exact Hn |]. split; [| now split].
    destruct Hsign as [-> | [_ ->]]; auto.
  - destruct Hext as [-> | ->]; auto.
  - unfold formatChoice in Hfmt. cbn [In] in Hfmt. cbn [map In].
    destruct Hfmt as [<- | [<- | [<- | [<- | []]]]]; auto.
  - symmetry. rewrite <- !app_assoc. exact Heq.
Qed.

(* ================================================================= *)
(** ** The loop over the monitors, turn by turn *)

Section Placement.
Context (E : Env).

(** What a successful placement does to the files. *)
Lemma placeScreenshot_files f q src dst w w' :
  placeScreenshot E f q src dst w = (Ok tt, w') ->
  src ∈ files w /\ files w' = ({[ dst ]} ∪ files w) ∖ {[ src ]}.
Proof.
  unfold placeScreenshot, convertImage, bind, try_catch, throw,
    fs_copyFile, fs_unlink, Jimp_read, Jimp_write, io.
  cbn [tick files].
  intros Hrun.
  repeat (case_match; simplify_eq; cbn [tick files] in * ); simplify_eq;
    cbn [files]; repeat case_bool_decide; simplify_eq; auto.
Qed.

(** A placed file is there, its name not being a temporary one. *)
Lemma placeScreenshot_places f q src dst w w' :
  placeScreenshot E f q src dst w = (Ok tt, w') ->
  temporaryPath src -> ~ temporaryPath dst -> dst ∈ files w'.
Proof.
  intros Hrun Hsrc Hdst.
  destruct (placeScreenshot_files _ _ _ _ _ _ Hrun) as [_ ->].
  apply elem_of_difference. split.
  - apply elem_of_union. left. now apply elem_of_singleton.
  - intros Heq. apply elem_of_singleton in Heq. now subst dst.
Qed.
End Placement.

Section Turns.
Context (E : Env) (dir fmt : string) (q : number) (date : DateParts).
Hypothesis Hfmt : formatChoice fmt.

Local Abbreviation ts := (timestampOf date).
Local Abbreviation fileOf := (fun m => displayFile E dir fmt ts (index m)).

Lemma displayFile_not_temporary i :
  ~ temporaryPath (displayFile E dir fmt ts i).
Proof. now apply output_not_temporary. Qed.

Lemma desktopFile_not_temporary :
  ~ temporaryPath (desktopFile E dir fmt ts).
Proof. now apply output_not_temporary. Qed.

(** A capture of a monitor that works has placed its file. *)
Lemma captureDisplay_places monitor u out u' :
  captureDisplay E dir fmt q ts monitor u = (Ok out, u') ->
  out = fileOf monitor /\ out ∈ files u'.
Proof.
  intros Hrun.
  pose proof (returns_captureDisplay E dir fmt q ts monitor _ _ _ Hrun)
    as ->.
  split; [reflexivity |].
  unfold captureDisplay in Hrun.
  apply bind_ok_inv in Hrun as (shot & u1 & Hshot & Hrun).
  apply bind_ok_inv in Hrun as ([] & u2 & Hplace & Hrun).
  apply bind_ok_inv in Hrun as ([] & u3 & Hlog & Hrun).
  injection Hrun as <-. injection Hlog as <-. cbn [files].
  apply (placeScreenshot_places E _ _ _ _ _ _ Hplace).
  - left. exact (returns_captureScreen E _ _ _ _ Hshot).
  - apply displayFile_not_temporary.
Qed.

(** The capture of the desktop that works has placed its file. *)
Lemma desktopPart_places w w3 :
  desktopPart E dir fmt q ts w = (Ok tt, w3) ->
  desktopFile E dir fmt ts ∈ files w3.
Proof.
  intros Hrun. unfold desktopPart in Hrun.
  apply bind_ok_inv in Hrun as (shot & w1 & Hshot & Hplace).
  apply (placeScreenshot_places E _ _ _ _ _ _ Hplace).
  - left. exact (returns_captureScreen E _ _ _ _ Hshot).
  - apply desktopFile_not_temporary.
Qed.
End Turns.

Section Loop.
Context (E : Env) (dir fmt : string) (q : number) (ts : Timestamp).

Local Abbreviation fileOf := (fun m => displayFile E dir fmt ts (index m)).
Local Abbreviation turnFile :=
  (fun turn : Monitor * World => fileOf (fst turn)).

(** One turn of the loop, by the outcome of its capture. *)
Lemma loopBody_saved monitor u out u' :
  captureDisplay E dir fmt q ts monitor u = (Ok out, u') ->
  loopBody E dir fmt q ts monitor u = (Ok tt, u').
Proof. intros Hrun. unfold loopBody, try_catch, bind. now rewrite Hrun. Qed.

Lemma loopBody_skipped monitor u message u' :
  captureDisplay E dir fmt q ts monitor u = (Throw message, u') ->
  loopBody E dir fmt q ts monitor u
    = (Ok tt, with_line (failureLine monitor message) u').
Proof. intros Hrun. unfold loopBody, try_catch, bind. now rewrite Hrun. Qed.

(** The loop as the code has it and the turns of the run agree: the
    loop ends in the world of its last turn, and the files it has
    added to the array are those of the turns whose capture worked, in
    order. *)
Lemma captureEach_turns monitors screenshots w :
  captureEach E dir fmt q ts monitors screenshots w =
    (Ok (screenshots
           ++ map turnFile
                (List.filter (succeeded E dir fmt q ts)
                   (iterations E dir fmt q ts monitors w)))%list,
     loopEnd E dir fmt q ts monitors w).
Proof.
  revert screenshots w.
  induction monitors as [| monitor rest IH]; intros screenshots w.
  - cbn. now rewrite app_nil_r.
  - cbn [captureEach iterations loopEnd fold_left List.filter].
    unfold succeeded at 1. cbn [fst snd].
    destruct (captureDisplay E dir fmt q ts monitor w)
      as [[out | message | c] w1] eqn:Hrun.
    + rewrite (loopBody_saved _ _ _ _ Hrun).
      pose proof (returns_captureDisplay E dir fmt q ts monitor _ _ _ Hrun)
        as ->.
      unfold bind at 1, try_catch, bind at 1. rewrite Hrun.
      cbn [fst snd ret]. rewrite IH. cbn [map fst].
      now rewrite <- app_assoc.
    + rewrite (loopBody_skipped _ _ _ _ Hrun).
      unfold bind at 1, try_catch, bind at 1. rewrite Hrun.
      cbn [fst snd]. unfold bind at 1, console_error, ret.
      now rewrite IH.
    + exfalso.
      exact (no_exit_captureDisplay E dir fmt q ts monitor _ _ _ Hrun).
Qed.

(** The branch without [--display], the desktop having been captured
    and placed. *)
Lemma allDisplays_turns monitors w2 w3 :
  desktopPart E dir fmt q ts
    (with_line (Out "Capturing desktop screenshot...") w2) = (Ok tt, w3) ->
  allDisplays E dir fmt q ts monitors w2 =
    (Ok (desktopFile E dir fmt ts
           :: map turnFile
                (List.filter (succeeded E dir fmt q ts)
                   (iterations E dir fmt q ts monitors
                      (loopStart E dir fmt ts monitors w3)))),
     loopEnd E dir fmt q ts monitors (loopStart E dir fmt ts monitors w3)).
Proof.
  intros Hdesk. unfold desktopPart in Hdesk.
  apply bind_ok_inv in Hdesk as (shot & w0 & Hshot & Hplace).
  unfold allDisplays, with_line in *.
  unfold bind at 1, console_log at 1. cbv beta iota zeta.
  rewrite (bind_ok _ _ _ _ _ Hshot), (bind_ok _ _ _ _ _ Hplace).
  unfold bind at 1, console_log at 1. cbv beta iota zeta.
  destruct monitors as [| monitor rest]; [reflexivity |].
  unfold bind at 1, console_log at 1. cbv beta iota zeta.
  now rewrite captureEach_turns.
Qed.

(** A run of the branch that returns has captured and placed the
    desktop. *)
Lemma allDisplays_ok_desktop monitors w2 saved w4 :
  allDisplays E dir fmt q ts monitors w2 = (Ok saved, w4) ->
  exists w3,
    desktopPart E dir fmt q ts
      (with_line (Out "Capturing desktop screenshot...") w2) = (Ok tt, w3).
Proof.
  intros Hrun. unfold allDisplays in Hrun.
  apply bind_ok_inv in Hrun as ([] & w0 & Hlog & Hrun).
  injection Hlog as <-.
  apply bind_ok_inv in Hrun as (shot & w1 & Hshot & Hrun).
  apply bind_ok_inv in Hrun as ([] & w3 & Hplace & _).
  exists w3. unfold desktopPart, with_line.
  now rewrite (bind_ok _ _ _ _ _ Hshot).
Qed.
End Loop.

Lemma iterations_monitors E dir fmt q ts monitors w :
  map fst (iterations E dir fmt q ts monitors w) = monitors.
Proof.
  revert w. induction monitors as [| m rest IH]; intros w; [reflexivity |].
  cbn [iterations map fst]. now rewrite IH.
Qed.

(** Without [--display], once the desktop has been captured and placed
    the run goes through the loop and the report, and returns. *)
Lemma main_through_loop (E : Env) (argv : Argv) (w w2 w3 : World)
    (monitors : list Monitor) :
  let dir := outputDirOf E argv in
  let fmt := format argv in
  let q := quality argv in
  let ts := timestampAt E w in
  display argv = None ->
  enumerationPhase E argv w = (Ok monitors, w2) ->
  desktopPart E dir fmt q ts
    (with_line (Out "Capturing desktop screenshot...") w2) = (Ok tt, w3) ->
  exists saved w',
    main E argv w = (Ok saved, w') /\
    saved =
      desktopFile E dir fmt ts
        :: map (fun turn : Monitor * World =>
                  displayFile E dir fmt ts (index (fst turn)))
             (List.filter (succeeded E dir fmt q ts)
                (iterations E dir fmt q ts monitors
                   (loopStart E dir fmt ts monitors w3))) /\
    later (loopEnd E dir fmt q ts monitors
             (loopStart E dir fmt ts monitors w3)) w'.
Proof.
  intros dir fmt q ts Hd Henum Hdesk.
  pose proof (allDisplays_turns E dir fmt q ts monitors w2 w3 Hdesk) as Hall.
  cbv beta in Hall.
  match type of Hall with
  | _ = (Ok ?saved, ?w4) =>
      destruct (reportSaved_console saved w4) as (w' & Hreport & _);
      exists saved, w'
  end.
  split; [| split; [reflexivity |]].
  - rewrite (main_after_enumeration E _ _ _ _ Henum), Hd.
    unfold try_catch, bind. fold dir fmt q ts.
    rewrite Hall. now rewrite Hreport.
  - exact (advances_reportSaved _ _ _ _ Hreport).
Qed.

Lemma succeeded_turns_sublist E dir fmt q ts monitors w :
  sublist (map fst (List.filter (succeeded E dir fmt q ts)
                      (iterations E dir fmt q ts monitors w)))
          monitors.
Proof.
  revert w. induction monitors as [| m rest IH]; intros w.
  - constructor.
  - cbn [iterations List.filter].
    destruct (succeeded E dir fmt q ts (m, w)); cbn [map fst].
    + constructor. apply IH.
    + constructor. apply IH.
Qed.


(* ================================================================= *)
(** ** The turns of the loop over the monitors *)

(** C2.  Without [--display] and with one of the formats that the
    command line accepts (line 38), the whole desktop having been
    captured and placed in this run, the run returns, with exit code 0,
    whatever happens to the individual monitors.  The [DesktopImage] file
    is reported and is there at the end.  Every monitor gets its turn of
    the loop, in the world left by the turn before; a turn whose capture
    and conversion work in this run leaves the [DisplayImage] file of its
    monitor, which is reported and is there at the end; a turn whose
    capture or conversion fails prints the failure on the error stream,
    and the loop goes on. *)
Theorem allDisplays_tolerates_failures (E : Env) (argv : Argv)
    (w w2 w3 : World) (monitors : list Monitor) :
  let dir := outputDirOf E argv in
  let fmt := format argv in
  let q := quality argv in
  let ts := timestampAt E w in
  display argv = None ->
  formatChoice fmt ->
  enumerationPhase E argv w = (Ok monitors, w2) ->
  desktopPart E dir fmt q ts
    (with_line (Out "Capturing desktop screenshot...") w2) = (Ok tt, w3) ->
  exists saved w',
    main E argv w = (Ok saved, w') /\
    exit_code (fst (main E argv w)) = 0%Z /\
    desktopFile E dir fmt ts ∈ saved /\
    desktopFile E dir fmt ts ∈ files w' /\
    map fst (iterations E dir fmt q ts monitors
               (loopStart E dir fmt ts monitors w3)) = monitors /\
    forall m u,
      (m, u) ∈ iterations E dir fmt q ts monitors
                 (loopStart E dir fmt ts monitors w3) ->
      match captureDisplay E dir fmt q ts m u with
      | (Ok out, _) =>
          out = displayFile E dir fmt ts (index m) /\
          out ∈ saved /\ out ∈ files w'
      | (Throw message, _) => failureLine m message ∈ console w'
      | (Exit _, _) => False
      end.
Proof.
  intros dir fmt q ts Hd Hfmt Henum Hdesk.
  set (ws := loopStart E dir fmt ts monitors w3).
  destruct (main_through_loop E argv w w2 w3 monitors Hd Henum Hdesk)
    as (saved & w' & Hmain & Hsaved & Hend).
  fold dir fmt q ts ws in Hsaved, Hend.
  assert (later w3 ws) as Hstart.
  { subst ws. unfold loopStart. destruct monitors.
    - apply later_with_line.
    - eapply later_trans; apply later_with_line. }
  assert (later ws w') as Hloop.
  { eapply later_trans; [apply later_loopEnd | exact Hend]. }
  exists saved, w'. split; [exact Hmain |]. split; [now rewrite Hmain |].
  split; [rewrite Hsaved; apply elem_of_cons; now left |]. split.
  { apply (later_files w3); [eapply later_trans; eassumption | |].
    - now apply desktopFile_not_temporary.
    - exact (desktopPart_places E dir fmt q _ Hfmt _ _ Hdesk). }
  split; [apply iterations_monitors |].
  intros m u Hturn.
  destruct (later_iteration E dir fmt q ts monitors ws m u Hturn)
    as [_ Hafter].
  destruct (captureDisplay E dir fmt q ts m u) as [[out | message | c] u']
    eqn:Hrun.
  - destruct (captureDisplay_places E dir fmt q _ Hfmt _ _ _ _ Hrun)
      as [-> Hplaced].
    rewrite (loopBody_saved _ _ _ _ _ _ _ _ _ Hrun) in Hafter.
    cbn [snd] in Hafter.
    split; [reflexivity |]. split.
    + rewrite Hsaved. apply elem_of_cons. right. apply list_elem_of_In.
      apply (in_map (fun turn : Monitor * World =>
                       displayFile E dir fmt ts (index (fst turn)))
               _ (m, u)).
      apply filter_In. split; [now apply list_elem_of_In |].
      unfold succeeded. cbn [fst snd]. now rewrite Hrun.
    + apply (later_files u'); [eapply later_trans; eassumption | | exact Hplaced].
      now apply displayFile_not_temporary.
  - rewrite (loopBody_skipped _ _ _ _ _ _ _ _ _ Hrun) in Hafter.
    cbn [snd] in Hafter.
    apply (later_console _ _ _ (later_trans _ _ _ Hafter Hend)).
    apply elem_of_app. right. constructor.
  - exact (no_exit_captureDisplay E dir fmt q ts m _ _ _ Hrun).
Qed.

Lemma allDisplays_tolerates_failures_witness :
  exists w2 w3 saved w',
    display argvDefault = None /\
    formatChoice (format argvDefault) /\
    enumerationPhase macSecondFails argvDefault emptyWorld
      = (Ok [firstDisplay; secondDisplay], w2) /\
    desktopPart macSecondFails "/work" "png" (of_nat 100)
      (timestampAt macSecondFails emptyWorld)
      (with_line (Out "Capturing desktop screenshot...") w2) = (Ok tt, w3) /\
    main macSecondFails argvDefault emptyWorld = (Ok saved, w') /\
    exit_code (fst (main macSecondFails argvDefault emptyWorld)) = 0%Z /\
    "/work/DesktopImage_2024-01-20_14-30-05.png" ∈ saved /\
    "/work/DesktopImage_2024-01-20_14-30-05.png" ∈ files w' /\
    "/work/DisplayImage1_2024-01-20_14-30-05.png" ∈ saved /\
    "/work/DisplayImage1_2024-01-20_14-30-05.png" ∈ files w' /\
    exists message, failureLine secondDisplay message ∈ console w'.
Proof.
  destruct (enumerationPhase macSecondFails argvDefault emptyWorld)
    as [r w2] eqn:Henum.
  assert (r = Ok [firstDisplay; secondDisplay]) as ->.
  { pose proof Henum as H. vm_compute in H. injection H as <- _. reflexivity. }
  destruct (desktopPart macSecondFails "/work" "png" (of_nat 100)
              (timestampAt macSecondFails emptyWorld)
              (with_line (Out "Capturing desktop screenshot...") w2))
    as [r w3] eqn:Hdesk.
  assert (r = Ok tt) as ->.
  { pose proof Henum as H. vm_compute in H. injection H as <-.
    pose proof Hdesk as H. vm_compute in H. injection H as <- _. reflexivity. }
  assert (formatChoice (format argvDefault)) as Hfmt by (left; reflexivity).
  destruct (allDisplays_tolerates_failures macSecondFails argvDefault
              emptyWorld w2 w3 [firstDisplay; secondDisplay]
              eq_refl Hfmt Henum Hdesk)
    as (saved & w' & Hmain & Hcode & Hdesktop & Hthere & _ & Hturns).
  exists w2, w3, saved, w'.
  do 4 (split; [first [reflexivity | assumption] |]).
  split; [exact Hmain |]. split; [exact Hcode |].
  split; [exact Hdesktop |]. split; [exact Hthere |].
  set (ws := loopStart macSecondFails (outputDirOf macSecondFails argvDefault)
               (format argvDefault) (timestampAt macSecondFails emptyWorld)
               [firstDisplay; secondDisplay] w3) in Hturns.
  pose proof (Hturns firstDisplay ws (list_elem_of_here _ _)) as Hfirst.
  pose proof (Hturns secondDisplay _
                (list_elem_of_further _ _ _ (list_elem_of_here _ _)))
    as Hsecond.
  clear Hturns.
  assert (exists u', captureDisplay macSecondFails "/work" "png" (of_nat 100)
            (timestampAt macSecondFails emptyWorld) firstDisplay ws
            = (Ok "/work/DisplayImage1_2024-01-20_14-30-05.png", u'))
    as [u1 Hrun1].
  { subst ws.
    pose proof Henum as H. vm_compute in H. injection H as <-.
    pose proof Hdesk as H. vm_compute in H. injection H as <-.
    eexists. vm_compute. reflexivity. }
  change (outputDirOf macSecondFails argvDefault) with "/work" in *.
  change (format argvDefault) with "png" in *.
  change (quality argvDefault) with (of_nat 100) in *.
  rewrite Hrun1 in Hfirst. destruct Hfirst as (_ & Hsaved1 & Hthere1).
  split; [exact Hsaved1 |]. split; [exact Hthere1 |].
  rewrite (loopBody_saved _ _ _ _ _ _ _ _ _ Hrun1) in Hsecond.
  cbn [snd] in Hsecond.
  assert (exists u', captureDisplay macSecondFails "/work" "png" (of_nat 100)
            (timestampAt macSecondFails emptyWorld) secondDisplay u1
            = (Throw "Failed to capture screen: could not create image from display", u'))
    as [u2 Hrun2].
  { pose proof Hrun1 as H. subst ws.
    pose proof Henum as H0. vm_compute in H0. injection H0 as <-.
    pose proof Hdesk as H0. vm_compute in H0. injection H0 as <-.
    vm_compute in H. injection H as <-.
    eexists. vm_compute. reflexivity. }
  rewrite Hrun2 in Hsecond. eexists. exact Hsecond.
Defined.

(** X3.  Without [--display], a run that returns has captured and placed
    the whole desktop and reports the [DesktopImage] file first, followed
    by the [DisplayImage] files of exactly the monitors whose capture
    worked in their turn of the loop in this run, in the order of the
    enumeration and without repeating a monitor: a monitor is left out
    when its capture failed, and only then. *)
Theorem main_all_displays_saved_order (E : Env) (argv : Argv) (w w' : World)
    (saved : list string) :
  display argv = None ->
  main E argv w = (Ok saved, w') ->
  exists monitors w2 w3 shown,
    enumerationPhase E argv w = (Ok monitors, w2) /\
    desktopPart E (outputDirOf E argv) (format argv) (quality argv)
      (timestampAt E w)
      (with_line (Out "Capturing desktop screenshot...") w2) = (Ok tt, w3) /\
    shown =
      map fst
        (List.filter
           (succeeded E (outputDirOf E argv) (format argv) (quality argv)
              (timestampAt E w))
           (iterations E (outputDirOf E argv) (format argv) (quality argv)
              (timestampAt E w) monitors
              (loopStart E (outputDirOf E argv) (format argv)
                 (timestampAt E w) monitors w3))) /\
    sublist shown monitors /\
    saved =
      desktopFile E (outputDirOf E argv) (format argv) (timestampAt E w)
        :: map (fun m => displayFile E (outputDirOf E argv) (format argv)
                           (timestampAt E w) (index m)) shown.
Proof.
  intros Hd Hrun.
  apply main_ok_inv in Hrun as (monitors & w2 & w4 & Henum & Hbranch & _).
  rewrite Hd in Hbranch.
  destruct (allDisplays_ok_desktop _ _ _ _ _ _ _ _ _ Hbranch) as [w3 Hdesk].
  rewrite (allDisplays_turns _ _ _ _ _ monitors _ _ Hdesk) in Hbranch.
  injection Hbranch as <- _.
  exists monitors, w2, w3. eexists.
  split; [exact Henum |]. split; [exact Hdesk |].
  split; [reflexivity |]. split; [apply succeeded_turns_sublist |].
  now rewrite map_map.
Qed.

Lemma main_all_displays_saved_order_witness :
  exists w',
    main macSecondFails argvDefault emptyWorld
      = (Ok ["/work/DesktopImage_2024-01-20_14-30-05.png";
             "/work/DisplayImage1_2024-01-20_14-30-05.png"], w') /\
    exists monitors w2 w3 shown,
      enumerationPhase macSecondFails argvDefault emptyWorld
        = (Ok monitors, w2) /\
      desktopPart macSecondFails "/work" "png" (of_nat 100)
        (timestampAt macSecondFails emptyWorld)
        (with_line (Out "Capturing desktop screenshot...") w2) = (Ok tt, w3) /\
      shown =
        map fst
          (List.filter
             (succeeded macSecondFails "/work" "png" (of_nat 100)
                (timestampAt macSecondFails emptyWorld))
             (iterations macSecondFails "/work" "png" (of_nat 100)
                (timestampAt macSecondFails emptyWorld) monitors
                (loopStart macSecondFails "/work" "png"
                   (timestampAt macSecondFails emptyWorld) monitors w3))) /\
      sublist shown monitors /\
      ["/work/DesktopImage_2024-01-20_14-30-05.png";
       "/work/DisplayImage1_2024-01-20_14-30-05.png"] =
        desktopFile macSecondFails "/work" "png"
          (timestampAt macSecondFails emptyWorld)
          :: map (fun m => displayFile macSecondFails "/work" "png"
                             (timestampAt macSecondFails emptyWorld) (index m))
                 shown.
Proof.
  destruct (main macSecondFails argvDefault emptyWorld) as [r w'] eqn:Hrun.
  assert (r = Ok ["/work/DesktopImage_2024-01-20_14-30-05.png";
                  "/work/DisplayImage1_2024-01-20_14-30-05.png"]) as ->.
  { pose proof Hrun as H. vm_compute in H. injection H as <- _. reflexivity. }
  exists w'. split; [reflexivity |].
  exact (main_all_displays_saved_order macSecondFails argvDefault emptyWorld
           w' _ eq_refl Hrun).
Defined.

(* ================================================================= *)
(** ** The format and the codec *)

Section Targets.
Context (E : Env) (argv : Argv) (w : World).
Context (call : string -> string -> Event).

Hypothesis starts_with_call :
  forall src dst,
    starts_with (call src dst)
      (placeScreenshot E (format argv) (quality argv) src dst).

Local Abbreviation dir := (outputDirOf E argv).
Local Abbreviation fmt := (format argv).
Local Abbreviation q := (quality argv).
Local Abbreviation ts := (timestampAt E w).

Lemma emits_any_captureEach monitors screenshots :
  emits any_event (captureEach E dir fmt q ts monitors screenshots).
Proof.
  apply emits_captureEach; [intros; exact I |].
  intros. apply emits_any_placeScreenshot.
Qed.

(** The part of the run that begins when the desktop has been
    captured. *)
Lemma desktop_placed monitors w2 shot u1 :
  enumerationPhase E argv w = (Ok monitors, w2) ->
  display argv = None ->
  captureScreen E None
    (with_line (Out "Capturing desktop screenshot...") w2) = (Ok shot, u1) ->
  exists rest,
    trace (snd (main E argv w))
      = (trace u1 ++ call shot (desktopFile E dir fmt ts) :: rest)%list.
Proof.
  intros Henum Hd Hcap.
  rewrite (main_after_enumeration E _ _ _ _ Henum), Hd.
  unfold allDisplays.
  rewrite (try_catch_bind2_ok _ _ _ _ _ _ _ (eq_refl : console_log _ w2 = (Ok tt, _))).
  unfold with_line in Hcap.
  rewrite (try_catch_bind2_ok _ _ _ _ _ _ _ Hcap).
  match goal with
  | |- context [snd (?m u1)] =>
      assert (starts_with (call shot (desktopFile E dir fmt ts)) m) as Hstart
  end.
  { pose proof emits_any_captureEach.
    pose proof (emits_any_placeScreenshot E).
    pose proof (emits_reportSaved any_event).
    apply starts_with_try_catch; [| intros; apply emits_fatal].
    apply starts_with_bind; [| intros; prog_auto].
    apply starts_with_bind; [apply starts_with_call |].
    intros []. destruct monitors; prog_auto. }
  match goal with
  | |- context [snd (?m u1)] => destruct (m u1) as [r w'] eqn:Hrun
  end.
  exact (Hstart _ _ _ Hrun).
Qed.

(** The same with [--display], when the monitor has been captured. *)
Lemma display_placed monitors w2 d m shot u1 :
  enumerationPhase E argv w = (Ok monitors, w2) ->
  display argv = Some d ->
  lt d (Fin 1) || gt d (of_nat (length monitors)) = false ->
  List.find (fun m0 => strict_eq (of_nat (index m0)) d) monitors = Some m ->
  captureScreen E (Some m)
    (with_line (Out ("Capturing display " ++ toString d ++ "...")) w2)
    = (Ok shot, u1) ->
  exists rest,
    trace (snd (main E argv w))
      = (trace u1 ++ call shot (displayFile E dir fmt ts (index m)) :: rest)%list.
Proof.
  intros Henum Hd Hrange Hfind Hcap.
  rewrite (main_after_enumeration E _ _ _ _ Henum), Hd.
  unfold singleDisplay. rewrite Hrange, Hfind.
  rewrite (try_catch_bind2_ok _ _ _ _ _ _ _ (eq_refl : ret tt w2 = (Ok tt, _))).
  rewrite (try_catch_bind2_ok _ _ _ _ _ _ _
             (eq_refl : console_log _ w2 = (Ok tt, _))).
  unfold with_line in Hcap.
  rewrite (try_catch_bind2_ok _ _ _ _ _ _ _ Hcap).
  match goal with
  | |- context [snd (?m0 u1)] =>
      assert (starts_with (call shot (displayFile E dir fmt ts (index m))) m0)
        as Hstart
  end.
  { pose proof (emits_reportSaved any_event).
    apply starts_with_try_catch; [| intros; apply emits_fatal].
    apply starts_with_bind; [| intros; prog_auto].
    apply starts_with_bind_ret.
    apply starts_with_bind; [apply starts_with_call | intros; prog_auto]. }
  match goal with
  | |- context [snd (?m0 u1)] => destruct (m0 u1) as [r w'] eqn:Hrun
  end.
  exact (Hstart _ _ _ Hrun).
Qed.

(** The same in a turn of the loop. *)
Lemma turn_placed monitors w2 w3 m u shot u1 :
  enumerationPhase E argv w = (Ok monitors, w2) ->
  display argv = None ->
  desktopPart E dir fmt q ts
    (with_line (Out "Capturing desktop screenshot...") w2) = (Ok tt, w3) ->
  (m, u) ∈ iterations E dir fmt q ts monitors
             (loopStart E dir fmt ts monitors w3) ->
  captureScreen E (Some m) u = (Ok shot, u1) ->
  exists rest,
    trace (snd (main E argv w))
      = (trace u1 ++ call shot (displayFile E dir fmt ts (index m)) :: rest)%list.
Proof.
  intros Henum Hd Hdesk Hturn Hcap.
  destruct (main_through_loop E argv w w2 w3 monitors Hd Henum Hdesk)
    as (saved & w' & Hmain & _ & Hend).
  rewrite Hmain. cbn [snd].
  destruct (later_iteration E dir fmt q ts monitors _ m u Hturn)
    as [_ Hafter].
  destruct (later_trace _ _ (later_trans _ _ _ Hafter Hend)) as (evs & ->).
  assert (starts_with (call shot (displayFile E dir fmt ts (index m)))
            (try_catch
               ((placeScreenshot E fmt q shot
                   (displayFile E dir fmt ts (index m)) ;;
                 console_log ("✓ Display " ++ string_of_nat (index m)
                                ++ " screenshot saved: "
                                ++ displayFile E dir fmt ts (index m)) ;;
                 ret (displayFile E dir fmt ts (index m))) ;;
                ret tt)
               (fun message =>
                  console_error ("✗ Failed to capture display "
                                   ++ string_of_nat (index m) ++ ": "
                                   ++ message)))) as Hstart.
  { apply starts_with_try_catch; [| intros; prog_auto].
    apply starts_with_bind; [| intros; prog_auto].
    apply starts_with_bind; [apply starts_with_call | intros; prog_auto]. }
  assert (loopBody E dir fmt q ts m u =
            try_catch
               ((placeScreenshot E fmt q shot
                   (displayFile E dir fmt ts (index m)) ;;
                 console_log ("✓ Display " ++ string_of_nat (index m)
                                ++ " screenshot saved: "
                                ++ displayFile E dir fmt ts (index m)) ;;
                 ret (displayFile E dir fmt ts (index m))) ;;
                ret tt)
               (fun message =>
                  console_error ("✗ Failed to capture display "
                                   ++ string_of_nat (index m) ++ ": "
                                   ++ message)) u1) as Hbody.
  { unfold loopBody, captureDisplay.
    now rewrite (try_catch_bind2_ok _ _ _ _ _ _ _ Hcap). }
  rewrite Hbody.
  match goal with
  | |- context [snd (?m0 u1)] => destruct (m0 u1) as [r u2] eqn:Hrun
  end.
  destruct (Hstart _ _ _ Hrun) as (rest & Htr). cbn [snd]. rewrite Htr.
  exists (rest ++ evs)%list. now rewrite <- app_assoc.
Qed.

Lemma target_placed monitors w2 target u out shot u1 :
  enumerationPhase E argv w = (Ok monitors, w2) ->
  captureTarget E argv ts monitors w2 target u out ->
  captureScreen E target u = (Ok shot, u1) ->
  exists rest,
    trace (snd (main E argv w)) = (trace u1 ++ call shot out :: rest)%list.
Proof.
  intros Henum Htarget Hcap.
  destruct Htarget as [d m Hd Hrange Hfind | Hd | w3 m u Hd Hdesk Hturn].
  - exact (display_placed _ _ _ _ _ _ Henum Hd Hrange Hfind Hcap).
  - exact (desktop_placed _ _ _ _ Henum Hd Hcap).
  - exact (turn_placed _ _ _ _ _ _ _ Henum Hd Hdesk Hturn Hcap).
Qed.
End Targets.

(** C8, as amended.  The capture targets of a run are, with [--display],
    the monitor that has the number asked for and, without, the whole
    desktop and then every monitor in its turn of the loop; a display
    number that passes the range check and is the number of no monitor
    designates none.  With the format [png] a run never calls the image
    codec, and for every capture target whose capture works the next call
    of the run is the copy of the temporary file of that capture to the
    output file of the target.  With the format [jpg], [jpeg] or [bmp] a
    run never copies a file, and for every capture target whose capture
    works the next call of the run hands the temporary file of that
    capture to the codec, whatever happens afterwards. *)
Theorem format_decides_codec (E : Env) (argv : Argv) (w : World) :
  (format argv = "png" ->
   (exists evs, trace (snd (main E argv w)) = (trace w ++ evs)%list /\
                Forall no_codec evs) /\
   forall monitors w2 target u out shot u1,
     enumerationPhase E argv w = (Ok monitors, w2) ->
     captureTarget E argv (timestampAt E w) monitors w2 target u out ->
     captureScreen E target u = (Ok shot, u1) ->
     exists rest,
       trace (snd (main E argv w))
         = (trace u1 ++ EvCopyFile shot out :: rest)%list) /\
  (In (format argv) ["jpg"; "jpeg"; "bmp"] ->
   (exists evs, trace (snd (main E argv w)) = (trace w ++ evs)%list /\
                Forall no_copy evs) /\
   forall monitors w2 target u out shot u1,
     enumerationPhase E argv w = (Ok monitors, w2) ->
     captureTarget E argv (timestampAt E w) monitors w2 target u out ->
     captureScreen E target u = (Ok shot, u1) ->
     exists rest,
       trace (snd (main E argv w))
         = (trace u1 ++ EvJimpRead shot :: rest)%list).
Proof.
  split.
  - intros Hpng. split; [now apply main_png_no_codec |].
    intros monitors w2 target u out shot u1.
    apply (target_placed E argv w EvCopyFile).
    intros src dst. rewrite Hpng. apply starts_with_placeScreenshot_png.
  - intros Hfmt.
    assert (format argv <> "png") as Hne.
    { intros Heq. rewrite Heq in Hfmt. simpl in Hfmt.
      destruct Hfmt as [H | [H | [H | []]]]; discriminate. }
    split; [now apply main_codec_no_copy |].
    intros monitors w2 target u out shot u1.
    apply (target_placed E argv w (fun src _ => EvJimpRead src)).
    intros src dst. now apply starts_with_placeScreenshot_codec.
Qed.

Lemma format_decides_codec_witness :
  format argvDefault = "png" /\
  In (format argvJpeg) ["jpg"; "jpeg"; "bmp"] /\
  (exists evs,
     trace (snd (main macTwoDisplays argvDefault emptyWorld))
       = (trace emptyWorld ++ evs)%list /\ Forall no_codec evs) /\
  (exists evs,
     trace (snd (main macTwoDisplays argvJpeg emptyWorld))
       = (trace emptyWorld ++ evs)%list /\ Forall no_copy evs) /\
  (exists before rest,
     trace (snd (main macTwoDisplays argvDefault emptyWorld))
       = (before
            ++ EvCopyFile "/tmp/screenshot_1700000000003.png"
                 "/work/DesktopImage_2024-01-20_14-30-05.png" :: rest)%list) /\
  (exists before rest,
     trace (snd (main macTwoDisplays argvJpeg emptyWorld))
       = (before ++ EvJimpRead "/tmp/screenshot_1700000000008.png" :: rest)%list).
Proof.
  assert (In (format argvJpeg) ["jpg"; "jpeg"; "bmp"]) as Hjpg
    by (simpl; tauto).
  destruct (format_decides_codec macTwoDisplays argvDefault emptyWorld)
    as [Hpng _].
  destruct (Hpng eq_refl) as [Hnone Hcopy]. clear Hpng.
  destruct (format_decides_codec macTwoDisplays argvJpeg emptyWorld)
    as [_ Hcodec].
  destruct (Hcodec Hjpg) as [Hnever Hread]. clear Hcodec.
  split; [reflexivity |]. split; [exact Hjpg |].
  split; [exact Hnone |]. split; [exact Hnever |]. split.
  - destruct (enumerationPhase macTwoDisplays argvDefault emptyWorld)
      as [r w2] eqn:Henum.
    assert (r = Ok [firstDisplay; secondDisplay]) as ->.
    { pose proof Henum as H. vm_compute in H. injection H as <- _.
      reflexivity. }
    destruct (captureScreen macTwoDisplays None
                (with_line (Out "Capturing desktop screenshot...") w2))
      as [r u1] eqn:Hcap.
    assert (r = Ok "/tmp/screenshot_1700000000003.png") as ->.
    { pose proof Henum as H. vm_compute in H. injection H as <-.
      pose proof Hcap as H. vm_compute in H. injection H as <- _.
      reflexivity. }
    destruct (Hcopy _ _ None _ _ _ _ eq_refl
                (target_desktop macTwoDisplays argvDefault _ _ w2 eq_refl)
                Hcap) as (rest & Htr).
    exists (trace u1), rest. exact Htr.
  - destruct (enumerationPhase macTwoDisplays argvJpeg emptyWorld)
      as [r w2] eqn:Henum.
    assert (r = Ok [firstDisplay; secondDisplay]) as ->.
    { pose proof Henum as H. vm_compute in H. injection H as <- _.
      reflexivity. }
    destruct (desktopPart macTwoDisplays "/work" "jpg" (of_nat 85)
                (timestampAt macTwoDisplays emptyWorld)
                (with_line (Out "Capturing desktop screenshot...") w2))
      as [r w3] eqn:Hdesk.
    assert (r = Ok tt) as ->.
    { pose proof Henum as H. vm_compute in H. injection H as <-.
      pose proof Hdesk as H. vm_compute in H. injection H as <- _.
      reflexivity. }
    destruct (captureScreen macTwoDisplays (Some firstDisplay)
                (loopStart macTwoDisplays "/work" "jpg"
                   (timestampAt macTwoDisplays emptyWorld)
                   [firstDisplay; secondDisplay] w3))
      as [r u1] eqn:Hcap.
    assert (r = Ok "/tmp/screenshot_1700000000008.png") as ->.
    { pose proof Henum as H. vm_compute in H. injection H as <-.
      pose proof Hdesk as H. vm_compute in H. injection H as <-.
      pose proof Hcap as H. vm_compute in H. injection H as <- _.
      reflexivity. }
    destruct (Hread _ _ (Some firstDisplay) _ _ _ _ eq_refl
                (target_each macTwoDisplays argvJpeg _
                   [firstDisplay; secondDisplay] w2 w3 firstDisplay _
                   eq_refl Hdesk (list_elem_of_here _ _))
                Hcap) as (rest & Htr).
    exists (trace u1), rest. exact Htr.
Defined.

(** C8, the claim as stated, fails for the capture that a run makes when
    the display number passes the range check and is the number of no
    monitor: with [--display 1.5 --format jpg] on a machine with two
    displays the whole desktop is captured, and the run ends on the
    [TypeError] of [monitor.index] without a call of the codec. *)
Lemma main_fractional_display_skips_codec :
  In (format argvDisplayHalf) ["jpg"; "jpeg"; "bmp"] /\
  ~ convertsDisplayCapture macTwoDisplays argvDisplayHalf emptyWorld.
Proof.
  split; [simpl; tauto |]. intros Hclaim.
  destruct (enumerationPhase macTwoDisplays argvDisplayHalf emptyWorld)
    as [r w2] eqn:Henum.
  assert (r = Ok [firstDisplay; secondDisplay]) as ->.
  { pose proof Henum as H. vm_compute in H. injection H as <- _.
    reflexivity. }
  destruct (captureScreen macTwoDisplays None
              (with_line (Out ("Capturing display "
                                 ++ toString (Fin (3 # 2)) ++ "...")) w2))
    as [r u1] eqn:Hcap.
  assert (r = Ok "/tmp/screenshot_1700000000003.png") as ->.
  { pose proof Henum as H. vm_compute in H. injection H as <-.
    pose proof Hcap as H. vm_compute in H. injection H as <- _.
    reflexivity. }
  destruct (Hclaim _ _ _ _ _ Henum eq_refl eq_refl Hcap) as (rest & Htr).
  assert (trace (snd (main macTwoDisplays argvDisplayHalf emptyWorld))
          = trace u1) as Hsame.
  { pose proof Henum as H. vm_compute in H. injection H as <-.
    pose proof Hcap as H. vm_compute in H. injection H as <-.
    vm_compute. reflexivity. }
  rewrite Hsame in Htr. apply (f_equal (@length Event)) in Htr.
  rewrite length_app in Htr. cbn [length] in Htr. lia.
Qed.
